(** * The galaxy particle background of the portfolio page

    A shallow embedding of [throttle], [GalaxyBackground] and
    [GalaxyParticle] of the page's script, and of some of its utilities and
    other animations, with their properties proved over it.

    Numbers.  A JavaScript number is modelled by [jsnum]: a real number or
    one of the three special values of IEEE-754 arithmetic.  The special
    values are kept because the code divides ([dx / distance]) and compares;
    there is no signed zero.  The operators of [JsNum] are exact: a finite
    result is the exact real result.  Where the outcome depends on the
    rounding of double precision (a threshold, a count of steps, a bound
    that a rounding can reach) the function is embedded over the operators
    of [Rounded], which round every result, and its properties are proved
    for every rounding that behaves as rounding to the nearest double
    does.

    The drawing surface.  A 2-D context is the sequence of the calls made
    on it; a call the context refuses throws, and ends the drawing of the
    frame. *)

From Stdlib Require Import Reals Lra List Bool String ZArith NArith Lia.
Import ListNotations.
Open Scope R_scope.

(** ** JavaScript numbers *)

Module JsNum.

Inductive jsnum : Type :=
| Fin (r : R)
| PInf
| NInf
| NaN.

Definition Rltb (a b : R) : bool := if Rlt_dec a b then true else false.
Definition Reqb (a b : R) : bool := if Req_dec_T a b then true else false.

(** Sign of a real, as the three-way test the special cases need. *)
Definition Rsign (r : R) : comparison :=
  if Rltb r 0 then Lt else if Rltb 0 r then Gt else Eq.

(** [a + b] *)
Definition add (a b : jsnum) : jsnum :=
  match a, b with
  | NaN, _ | _, NaN => NaN
  | Fin x, Fin y => Fin (x + y)
  | PInf, NInf | NInf, PInf => NaN
  | PInf, _ | _, PInf => PInf
  | NInf, _ | _, NInf => NInf
  end.

(** unary [-a] *)
Definition neg (a : jsnum) : jsnum :=
  match a with
  | Fin x => Fin (- x)
  | PInf => NInf
  | NInf => PInf
  | NaN => NaN
  end.

(** [a - b] *)
Definition sub (a b : jsnum) : jsnum := add a (neg b).

(** An infinity of the sign of [s], or NaN for a zero factor. *)
Definition inf_signed (s : comparison) : jsnum :=
  match s with
  | Gt => PInf
  | Lt => NInf
  | Eq => NaN
  end.

(** [a * b] *)
Definition mul (a b : jsnum) : jsnum :=
  match a, b with
  | NaN, _ | _, NaN => NaN
  | Fin x, Fin y => Fin (x * y)
  | PInf, Fin y => inf_signed (Rsign y)
  | NInf, Fin y => inf_signed (CompOpp (Rsign y))
  | Fin x, PInf => inf_signed (Rsign x)
  | Fin x, NInf => inf_signed (CompOpp (Rsign x))
  | PInf, PInf | NInf, NInf => PInf
  | PInf, NInf | NInf, PInf => NInf
  end.

(** [a / b]: a finite number over zero is an infinity, zero over zero and
    infinity over infinity are NaN. *)
Definition div (a b : jsnum) : jsnum :=
  match a, b with
  | NaN, _ | _, NaN => NaN
  | Fin x, Fin y =>
      if Reqb y 0 then inf_signed (Rsign x) else Fin (x / y)
  | Fin _, PInf | Fin _, NInf => Fin 0
  | PInf, Fin y => if Rltb y 0 then NInf else PInf
  | NInf, Fin y => if Rltb y 0 then PInf else NInf
  | PInf, _ | NInf, _ => NaN
  end.

(** [Math.sqrt] *)
Definition Math_sqrt (a : jsnum) : jsnum :=
  match a with
  | Fin x => if Rltb x 0 then NaN else Fin (sqrt x)
  | PInf => PInf
  | NInf | NaN => NaN
  end.

(** [Math.sin] *)
Definition Math_sin (a : jsnum) : jsnum :=
  match a with
  | Fin x => Fin (sin x)
  | _ => NaN
  end.

(** [Math.abs] *)
Definition Math_abs (a : jsnum) : jsnum :=
  match a with
  | Fin x => Fin (Rabs x)
  | PInf | NInf => PInf
  | NaN => NaN
  end.

(** [Math.floor] of a finite number, as the integer it denotes. *)
Definition floorZ (r : R) : Z := Int_part r.

(** [a < b]; every comparison with NaN is false. *)
Definition lt (a b : jsnum) : bool :=
  match a, b with
  | NaN, _ | _, NaN => false
  | Fin x, Fin y => Rltb x y
  | NInf, NInf | PInf, _ => false
  | NInf, _ => true
  | Fin _, PInf => true
  | Fin _, NInf => false
  end.

(** [a > b] *)
Definition gt (a b : jsnum) : bool := lt b a.

End JsNum.
Import JsNum.

Declare Scope js_scope.
Delimit Scope js_scope with js.
Bind Scope js_scope with jsnum.
Infix "+" := add : js_scope.
Infix "-" := sub : js_scope.
Infix "*" := mul : js_scope.
Infix "/" := div : js_scope.
Infix "<?" := lt : js_scope.
Infix ">?" := gt : js_scope.
Coercion Fin : R >-> jsnum.

(** ** The drawing surface

    A 2-D context is modelled by the sequence of calls made on it. *)

Inductive Style : Type :=
| CssColor (c : string)
| Rgba (r g b : N) (a : jsnum)
| RadialGradient (x0 y0 r0 x1 y1 r1 : jsnum) (stops : list (jsnum * string)).

Inductive CanvasCmd : Type :=
| SetFillStyle (s : Style)
| SetStrokeStyle (s : Style)
| SetLineWidth (w : jsnum)
| FillRect (x y w h : jsnum)
| BeginPath
| MoveTo (x y : jsnum)
| LineTo (x y : jsnum)
| Arc (x y r a0 a1 : jsnum)
| Fill
| Stroke.

(** The circle radii a call hands to the surface ([arc], and the two circles
    of [createRadialGradient]). *)
Definition cmd_radii (c : CanvasCmd) : list jsnum :=
  match c with
  | Arc _ _ r _ _ => [r]
  | SetFillStyle (RadialGradient _ _ r0 _ _ r1 _) => [r0; r1]
  | SetStrokeStyle (RadialGradient _ _ r0 _ _ r1 _) => [r0; r1]
  | _ => []
  end.

(** The exceptions the calls on a context raise. *)
Inductive Exception : Type :=
| TypeError
| IndexSizeError
| SyntaxError.

Definition finite (a : jsnum) : bool :=
  match a with
  | Fin _ => true
  | _ => false
  end.

Definition hex_digit (c : Ascii.ascii) : bool :=
  let n := Ascii.N_of_ascii c in
  ((48 <=? n) && (n <=? 57) || (65 <=? n) && (n <=? 70)
   || (97 <=? n) && (n <=? 102))%N.

Fixpoint hex_digits (s : string) : bool :=
  match s with
  | EmptyString => true
  | String c s' => hex_digit c && hex_digits s'
  end.

(** A colour in hexadecimal notation: [#] and 3, 4, 6 or 8 digits.  The
    texts the script hands to [addColorStop] are a colour of the palette
    followed by two digits, or [undefined] followed by two digits; no other
    notation of a colour is read here. *)
Definition hex_color (s : string) : bool :=
  match s with
  | String c digits =>
      (Ascii.N_of_ascii c =? 35)%N && hex_digits digits
      && existsb (Nat.eqb (String.length digits)) [3; 4; 6; 8]%nat
  | EmptyString => false
  end.

(** [gradient.addColorStop(offset, color)], for each stop in turn. *)
Fixpoint stops_error (stops : list (jsnum * string)) : option Exception :=
  match stops with
  | [] => None
  | (offset, color) :: rest =>
      if negb (finite offset) then Some TypeError
      else if (offset <? Fin 0)%js || (offset >? Fin 1)%js
      then Some IndexSizeError
      else if negb (hex_color color) then Some SyntaxError
      else stops_error rest
  end.

(** [ctx.createRadialGradient(x0, y0, r0, x1, y1, r1)] and the stops added
    to the gradient: the six arguments are doubles, so that a NaN or an
    infinity is a TypeError, and a negative radius is an IndexSizeError. *)
Definition gradient_error (x0 y0 r0 x1 y1 r1 : jsnum)
    (stops : list (jsnum * string)) : option Exception :=
  if negb (forallb finite [x0; y0; r0; x1; y1; r1]) then Some TypeError
  else if (r0 <? Fin 0)%js || (r1 <? Fin 0)%js then Some IndexSizeError
  else stops_error stops.

(** The exception a call raises, if it raises one.  [arc] returns at once
    when an argument is not finite and refuses a negative radius; the path
    calls, [fillRect] and the assignments of a colour never throw. *)
Definition call_error (c : CanvasCmd) : option Exception :=
  match c with
  | SetFillStyle (RadialGradient x0 y0 r0 x1 y1 r1 stops)
  | SetStrokeStyle (RadialGradient x0 y0 r0 x1 y1 r1 stops) =>
      gradient_error x0 y0 r0 x1 y1 r1 stops
  | Arc x y r a0 a1 =>
      if forallb finite [x; y; r; a0; a1] && (r <? Fin 0)%js
      then Some IndexSizeError else None
  | _ => None
  end.

(** The calls of [calls] made in turn on a context: those that went through
    and the exception that ended the sequence, if one did.  The call that
    throws leaves no trace. *)
Fixpoint perform (calls : list CanvasCmd)
  : list CanvasCmd * option Exception :=
  match calls with
  | [] => ([], None)
  | c :: rest =>
      match call_error c with
      | Some e => ([], Some e)
      | None =>
          let '(made, e) := perform rest in (c :: made, e)
      end
  end.

(** [{ x: number|null, y: number|null }] *)
Record Mouse : Type := { mouse_x : option jsnum; mouse_y : option jsnum }.

Definition mouse_null : Mouse := {| mouse_x := None; mouse_y := None |}.

(** ** class GalaxyParticle *)

Module GalaxyParticle.

Record t : Type := mk {
  x : jsnum;
  y : jsnum;
  radius : jsnum;
  baseRadius : jsnum;
  color : option string;
  speedX : jsnum;
  speedY : jsnum;
  pulsePhase : jsnum;
  pulseSpeed : jsnum
}.

Definition colors : list string :=
  [ "#FFD700"; "#FFA500"; "#FF6347"; "#FF69B4"; "#00CED1";
    "#9370DB"; "#32CD32"; "#FF4500"; "#1E90FF"; "#FF1493" ]%string.

(** [constructor(canvasWidth, canvasHeight)].  [rnd] is the stream of values
    [Math.random()] returns and [k] the number of draws made so far; the
    constructor makes eight draws, in the order of the source. *)
Definition constructor (rnd : nat -> R) (k : nat)
    (canvasWidth canvasHeight : jsnum) : t :=
  let x0 := (Fin (rnd k) * canvasWidth)%js in
  let y0 := (Fin (rnd (k + 1)%nat) * canvasHeight)%js in
  let radius0 := (Fin (rnd (k + 2)%nat) * Fin 3 + Fin 1)%js in
  let color0 :=
    nth_error colors
      (Z.to_nat (floorZ (rnd (k + 3)%nat * INR (List.length colors)))) in
  let speedX0 := ((Fin (rnd (k + 4)%nat) - Fin 0.5) * Fin 0.5)%js in
  let speedY0 := ((Fin (rnd (k + 5)%nat) - Fin 0.5) * Fin 0.5)%js in
  let pulsePhase0 := (Fin (rnd (k + 6)%nat) * Fin PI * Fin 2)%js in
  let pulseSpeed0 := (Fin 0.02 + Fin (rnd (k + 7)%nat) * Fin 0.03)%js in
  {| x := x0; y := y0; radius := radius0; baseRadius := radius0;
     color := color0; speedX := speedX0; speedY := speedY0;
     pulsePhase := pulsePhase0; pulseSpeed := pulseSpeed0 |}.

Definition draws_per_particle : nat := 8.

(** The mouse interaction block of [update], on the position [(x1, y1)]
    reached after the move: the new position. *)
Definition mouse_interaction (mouse : Mouse) (x1 y1 : jsnum) : jsnum * jsnum :=
  match mouse_x mouse, mouse_y mouse with
  | Some mx, Some my =>
      let dx := (mx - x1)%js in
      let dy := (my - y1)%js in
      let distance := Math_sqrt (dx * dx + dy * dy)%js in
      if (distance <? Fin 200)%js then
        let force := ((Fin 200 - distance) / Fin 200)%js in
        ((x1 + (dx / distance) * force * Fin 2)%js,
         (y1 + (dy / distance) * force * Fin 2)%js)
      else (x1, y1)
  | _, _ => (x1, y1)
  end.

(** [update(mouse, canvasWidth, canvasHeight)] *)
Definition update (mouse : Mouse) (canvasWidth canvasHeight : jsnum)
    (p : t) : t :=
  (* Move particle *)
  let x1 := (x p + speedX p)%js in
  let y1 := (y p + speedY p)%js in
  (* Bounce off edges *)
  let speedX1 :=
    if (x1 <? Fin 0)%js || (x1 >? canvasWidth)%js
    then (speedX p * Fin (-1))%js else speedX p in
  let speedY1 :=
    if (y1 <? Fin 0)%js || (y1 >? canvasHeight)%js
    then (speedY p * Fin (-1))%js else speedY p in
  (* Mouse interaction *)
  let '(x2, y2) := mouse_interaction mouse x1 y1 in
  (* Pulsing effect *)
  let pulsePhase1 := (pulsePhase p + pulseSpeed p)%js in
  {| x := x2; y := y2;
     radius := (baseRadius p + Math_sin pulsePhase1 * Fin 1)%js;
     baseRadius := baseRadius p;
     color := color p;
     speedX := speedX1; speedY := speedY1;
     pulsePhase := pulsePhase1; pulseSpeed := pulseSpeed p |}.

(** [this.color + suffix] *)
Definition color_alpha (c : option string) (suffix : string) : string :=
  match c with
  | Some s => (s ++ suffix)%string
  | None => ("undefined" ++ suffix)%string
  end.

(** [draw(ctx)]: the calls appended to the context. *)
Definition draw (p : t) : list CanvasCmd :=
  let gradient :=
    RadialGradient (x p) (y p) (Fin 0) (x p) (y p) (radius p * Fin 3)%js
      [ (Fin 0, color_alpha (color p) "80");
        (Fin 0.5, color_alpha (color p) "40");
        (Fin 1, color_alpha (color p) "00") ] in
  (* Outer glow *)
  [ SetFillStyle gradient;
    BeginPath;
    Arc (x p) (y p) (radius p * Fin 3)%js (Fin 0) (Fin PI * Fin 2)%js;
    Fill ]
  (* Main particle; assigning [undefined] to [fillStyle] is ignored *)
  ++ match color p with
     | Some c => [ SetFillStyle (CssColor c) ]
     | None => []
     end
  ++ [ BeginPath;
       Arc (x p) (y p) (radius p) (Fin 0) (Fin PI * Fin 2)%js;
       Fill;
       (* Inner bright core *)
       SetFillStyle (CssColor "#FFFFFF");
       BeginPath;
       Arc (x p) (y p) (radius p * Fin 0.3)%js (Fin 0) (Fin PI * Fin 2)%js;
       Fill ].

End GalaxyParticle.

(** ** function throttle(func, limit)

    The closure [throttle] returns owns the flag [inThrottle]; the callbacks
    it hands to [setTimeout] are kept with it, each by the time (in ms) at
    which it falls due.  [func] acts on a state [S] and may throw ([None]). *)

Module Throttle.

Record closure : Type := { inThrottle : bool; timers : list Z }.

(** [let inThrottle;] (undefined, hence falsy) and no timer. *)
Definition create : closure := {| inThrottle := false; timers := [] |}.

Section Throttled.
Context {S A : Type}.
Variable func : A -> S -> option S.
Variable limit : Z.

(** [executedFunction(...args)], called at time [now]. *)
Definition executedFunction (now : Z) (args : A) (c : closure) (s : S)
  : option (closure * S) :=
  if negb (inThrottle c) then
    match func args s with
    | Some s' =>
        Some ({| inThrottle := true;
                 timers := (now + limit)%Z :: timers c |}, s')
    | None => None
    end
  else Some (c, s).

(** The host runs the timer callbacks [() => inThrottle = false] that are
    due at time [now]. *)
Definition run_timers (now : Z) (c : closure) : closure :=
  if existsb (fun d => (d <=? now)%Z) (timers c)
  then {| inThrottle := false;
          timers := filter (fun d => negb (d <=? now)%Z) (timers c) |}
  else c.
End Throttled.

End Throttle.

(** ** class GalaxyBackground *)

Record Box : Type := { offsetWidth : N; offsetHeight : N }.

(** The canvas element: its bitmap size, the box of its parent element (if
    it has one) and the offset of its bounding client rectangle. *)
Record HTMLCanvasElement : Type := {
  width : N;
  height : N;
  parentElement : option Box;
  rect_left : jsnum;
  rect_top : jsnum
}.

Inductive ConsoleEntry : Type :=
| Error_canvas_not_found (containerId : string)
| Log_initialized (numParticles : nat)
| Uncaught (e : Exception).   (* the host's report of an exception *)

Inductive Listener : Type :=
| OnResize
| OnMouseMove
| OnMouseLeave.

(** What the object touches outside itself. *)
Record Host : Type := {
  console : list ConsoleEntry;
  listeners : list Listener;
  frameRequests : nat;        (* calls of requestAnimationFrame so far *)
  pendingFrames : list nat;   (* handles scheduled and not cancelled *)
  randomDraws : nat;          (* calls of Math.random so far *)
  window_inner : Box;         (* window.innerWidth / innerHeight *)
  resizeThrottle : Throttle.closure;
  mouseThrottle : Throttle.closure
}.

(** A pixel count read as a number ([canvas.width], [canvas.height]). *)
Definition N2js (n : N) : jsnum := Fin (IZR (Z.of_N n)).

(** What the page receives: a resize of the window (with the new box of the
    canvas's parent and the new inner size of the window), a move of the
    pointer, the pointer leaving the canvas, an animation frame. *)
Inductive Event : Type :=
| EvResize (container : Box) (inner : Box)
| EvMouseMove (clientX clientY : jsnum)
| EvMouseLeave
| EvFrame.

Module GalaxyBackground.

Record t : Type := {
  canvas : option HTMLCanvasElement;
  ctx : option (list CanvasCmd);
  particles : list GalaxyParticle.t;
  numParticles : nat;
  mouse : Mouse;
  animationId : option nat;
  containerId : string
}.

Definition World : Type := (Host * t)%type.

(** How a call ends that may throw after it has changed the field: it
    returns, or an exception escapes it; the assignments and the calls made
    before the exception stay. *)
Inductive Completion : Type :=
| Returns (w : World)
| Throws (e : Exception) (w : World).

Definition set_canvas (c : option HTMLCanvasElement) (g : t) : t :=
  {| canvas := c; ctx := ctx g; particles := particles g;
     numParticles := numParticles g; mouse := mouse g;
     animationId := animationId g; containerId := containerId g |}.

Definition set_ctx (c : option (list CanvasCmd)) (g : t) : t :=
  {| canvas := canvas g; ctx := c; particles := particles g;
     numParticles := numParticles g; mouse := mouse g;
     animationId := animationId g; containerId := containerId g |}.

Definition set_particles (ps : list GalaxyParticle.t) (g : t) : t :=
  {| canvas := canvas g; ctx := ctx g; particles := ps;
     numParticles := numParticles g; mouse := mouse g;
     animationId := animationId g; containerId := containerId g |}.

Definition set_mouse (m : Mouse) (g : t) : t :=
  {| canvas := canvas g; ctx := ctx g; particles := particles g;
     numParticles := numParticles g; mouse := m;
     animationId := animationId g; containerId := containerId g |}.

Definition set_animationId (a : option nat) (g : t) : t :=
  {| canvas := canvas g; ctx := ctx g; particles := particles g;
     numParticles := numParticles g; mouse := mouse g;
     animationId := a; containerId := containerId g |}.

Definition host_log (e : ConsoleEntry) (h : Host) : Host :=
  {| console := console h ++ [e]; listeners := listeners h;
     frameRequests := frameRequests h; pendingFrames := pendingFrames h;
     randomDraws := randomDraws h; window_inner := window_inner h;
     resizeThrottle := resizeThrottle h; mouseThrottle := mouseThrottle h |}.

Definition host_listen (l : Listener) (h : Host) : Host :=
  {| console := console h; listeners := listeners h ++ [l];
     frameRequests := frameRequests h; pendingFrames := pendingFrames h;
     randomDraws := randomDraws h; window_inner := window_inner h;
     resizeThrottle := resizeThrottle h; mouseThrottle := mouseThrottle h |}.

Definition host_frames (n : nat) (pending : list nat) (h : Host) : Host :=
  {| console := console h; listeners := listeners h;
     frameRequests := n; pendingFrames := pending;
     randomDraws := randomDraws h; window_inner := window_inner h;
     resizeThrottle := resizeThrottle h; mouseThrottle := mouseThrottle h |}.

Definition host_draws (k : nat) (h : Host) : Host :=
  {| console := console h; listeners := listeners h;
     frameRequests := frameRequests h; pendingFrames := pendingFrames h;
     randomDraws := k; window_inner := window_inner h;
     resizeThrottle := resizeThrottle h; mouseThrottle := mouseThrottle h |}.

Definition host_inner (b : Box) (h : Host) : Host :=
  {| console := console h; listeners := listeners h;
     frameRequests := frameRequests h; pendingFrames := pendingFrames h;
     randomDraws := randomDraws h; window_inner := b;
     resizeThrottle := resizeThrottle h; mouseThrottle := mouseThrottle h |}.

Definition host_throttles (r m : Throttle.closure) (h : Host) : Host :=
  {| console := console h; listeners := listeners h;
     frameRequests := frameRequests h; pendingFrames := pendingFrames h;
     randomDraws := randomDraws h; window_inner := window_inner h;
     resizeThrottle := r; mouseThrottle := m |}.

(** A line of the connection pass: the indices of its two particles, its
    end points and its opacity. *)
Record Line : Type := {
  line_i : nat;
  line_j : nat;
  line_from : jsnum * jsnum;
  line_to : jsnum * jsnum;
  line_opacity : jsnum
}.

(** The body of the inner loop of [drawConnections] at [(i, j)]: the line
    to stroke, if any. *)
Definition connection (ps : list GalaxyParticle.t) (i j : nat) : list Line :=
  match nth_error ps i, nth_error ps j with
  | Some pi, Some pj =>
      let dx := (GalaxyParticle.x pi - GalaxyParticle.x pj)%js in
      let dy := (GalaxyParticle.y pi - GalaxyParticle.y pj)%js in
      let distance := Math_sqrt (dx * dx + dy * dy)%js in
      if (distance <? Fin 150)%js then
        let opacity := ((Fin 1 - distance / Fin 150) * Fin 0.3)%js in
        [ {| line_i := i; line_j := j;
             line_from := (GalaxyParticle.x pi, GalaxyParticle.y pi);
             line_to := (GalaxyParticle.x pj, GalaxyParticle.y pj);
             line_opacity := opacity |} ]
      else []
  | _, _ => []
  end.

(** The two loops of [drawConnections]: [i] from 0, [j] from [i + 1]. *)
Definition connections (ps : list GalaxyParticle.t) : list Line :=
  flat_map
    (fun i =>
       flat_map (connection ps i)
         (seq (i + 1) (List.length ps - (i + 1))))
    (seq 0 (List.length ps)).

Definition stroke_line (l : Line) : list CanvasCmd :=
  [ SetStrokeStyle (Rgba 255 255 255 (line_opacity l));
    SetLineWidth (Fin 0.5);
    BeginPath;
    MoveTo (fst (line_from l)) (snd (line_from l));
    LineTo (fst (line_to l)) (snd (line_to l));
    Stroke ].

(** [drawConnections()]: the calls appended to the context. *)
Definition drawConnections (ps : list GalaxyParticle.t) : list CanvasCmd :=
  flat_map stroke_line (connections ps).

Section Methods.
(** The values [Math.random()] returns, in order. *)
Variable rnd : nat -> R.

(** [resizeCanvas()]; reading [parentElement] of [null] throws. *)
Definition resizeCanvas (w : World) : option World :=
  let '(h, g) := w in
  match canvas g with
  | None => None
  | Some c =>
      let b :=
        match parentElement c with
        | Some container => container
        | None => window_inner h
        end in
      Some (h, set_canvas
                 (Some {| width := offsetWidth b; height := offsetHeight b;
                          parentElement := parentElement c;
                          rect_left := rect_left c;
                          rect_top := rect_top c |}) g)
  end.

(** The loop of [createParticles]: [n] more particles pushed on [acc],
    [k] being the number of random draws made so far. *)
Fixpoint createParticles_loop (n k : nat) (cw ch : jsnum)
    (acc : list GalaxyParticle.t) : list GalaxyParticle.t * nat :=
  match n with
  | O => (acc, k)
  | S n' =>
      createParticles_loop n' (k + GalaxyParticle.draws_per_particle)%nat
        cw ch (acc ++ [GalaxyParticle.constructor rnd k cw ch])
  end.

(** [createParticles()] *)
Definition createParticles (w : World) : option World :=
  let '(h, g) := w in
  match numParticles g, canvas g with
  | O, _ => Some (h, set_particles [] g)
  | S _, None => None
  | S _, Some c =>
      let '(ps, k) :=
        createParticles_loop (numParticles g) (randomDraws h)
          (N2js (width c)) (N2js (height c)) [] in
      Some (host_draws k h, set_particles ps g)
  end.

(** [bindEvents()]: two throttled listeners on [window], one plain
    listener on the canvas. *)
Definition bindEvents (w : World) : option World :=
  let '(h, g) := w in
  let h1 := host_throttles Throttle.create (mouseThrottle h)
              (host_listen OnResize h) in
  let h2 := host_throttles (resizeThrottle h1) Throttle.create
              (host_listen OnMouseMove h1) in
  match canvas g with
  | None => None
  | Some _ => Some (host_listen OnMouseLeave h2, g)
  end.

(** [update()]: every particle updated with the shared mouse. *)
Definition update (w : World) : option World :=
  let '(h, g) := w in
  match particles g, canvas g with
  | [], _ => Some w
  | _ :: _, None => None
  | _ :: _, Some c =>
      Some (h, set_particles
                 (map (GalaxyParticle.update (mouse g)
                         (N2js (width c)) (N2js (height c)))
                    (particles g)) g)
  end.

(** [draw()]: the calls are made on the context in turn, up to the first
    one that throws; reading a property of a null [ctx] or [canvas]
    throws. *)
Definition draw (w : World) : Completion :=
  let '(h, g) := w in
  match ctx g, canvas g with
  | None, _ => Throws TypeError w
  | Some cmds, None =>
      Throws TypeError
        (h, set_ctx (Some (cmds ++ [ SetFillStyle (Rgba 0 0 0 (Fin 0.05)) ]))
              g)
  | Some cmds, Some c =>
      let '(made, e) :=
        perform ([ SetFillStyle (Rgba 0 0 0 (Fin 0.05));
                   FillRect (Fin 0) (Fin 0)
                     (N2js (width c)) (N2js (height c)) ]
                 ++ drawConnections (particles g)
                 ++ flat_map GalaxyParticle.draw (particles g)) in
      let w' := (h, set_ctx (Some (cmds ++ made)) g) in
      match e with
      | None => Returns w'
      | Some e => Throws e w'
      end
  end.

(** [animate()]: the next frame is requested first, then the particles
    are updated and drawn. *)
Definition animate (w : World) : Completion :=
  let '(h, g) := w in
  let id := S (frameRequests h) in
  let w1 := (host_frames id (pendingFrames h ++ [id]) h,
             set_animationId (Some id) g) in
  match update w1 with
  | Some w2 => draw w2
  | None => Throws TypeError w1
  end.

(** [init()] *)
Definition init (w : World) : option World :=
  let '(h, g) := w in
  match canvas g with
  | None => Some (host_log (Error_canvas_not_found (containerId g)) h, g)
  | Some _ =>
      let w1 := (h, set_ctx (Some []) g) in
      match resizeCanvas w1 with
      | None => None
      | Some w2 =>
          match createParticles w2 with
          | None => None
          | Some w3 =>
              match bindEvents w3 with
              | None => None
              | Some w4 =>
                  match animate w4 with
                  | Throws _ _ => None
                  | Returns (h5, g5) =>
                      Some (host_log (Log_initialized (numParticles g5)) h5,
                            g5)
                  end
              end
          end
      end
  end.

(** [constructor(containerId)]: [found] is what
    [document.getElementById(containerId)] returns, [h] the host before
    the call. *)
Definition constructor (h : Host) (containerId : string)
    (found : option HTMLCanvasElement) : option World :=
  init (h, {| canvas := found; ctx := None; particles := [];
              numParticles := 200; mouse := mouse_null;
              animationId := None; containerId := containerId |}).

(** [destroy()] *)
Definition destroy (w : World) : option World :=
  let '(h, g) := w in
  let h1 :=
    match animationId g with
    | Some (S _ as id) =>
        host_frames (frameRequests h)
          (filter (fun i => negb (Nat.eqb i id)) (pendingFrames h)) h
    | _ => h
    end in
  Some (h1, set_particles [] g).

(** The listener bound to "resize". *)
Definition on_resize (_ : unit) (w : World) : option World :=
  match resizeCanvas w with
  | Some w1 => createParticles w1
  | None => None
  end.

(** The listener bound to "mousemove"; the event carries [clientX] and
    [clientY]. *)
Definition on_mousemove (e : jsnum * jsnum) (w : World) : option World :=
  let '(h, g) := w in
  match canvas g with
  | None => None
  | Some c =>
      Some (h, set_mouse
                 {| mouse_x := Some (fst e - rect_left c)%js;
                    mouse_y := Some (snd e - rect_top c)%js |} g)
  end.

(** The listener bound to "mouseleave". *)
Definition on_mouseleave (w : World) : option World :=
  let '(h, g) := w in
  Some (h, set_mouse mouse_null g).

Definition listening (l : Listener) (h : Host) : bool :=
  existsb
    (fun l' =>
       match l, l' with
       | OnResize, OnResize | OnMouseMove, OnMouseMove
       | OnMouseLeave, OnMouseLeave => true
       | _, _ => false
       end)
    (listeners h).

(** The layout after a resize of the window. *)
Definition relayout (container inner : Box) (w : World) : World :=
  let '(h, g) := w in
  (host_inner inner h,
   match canvas g with
   | Some c =>
       set_canvas
         (Some {| width := width c; height := height c;
                  parentElement :=
                    match parentElement c with
                    | Some _ => Some container
                    | None => None
                    end;
                  rect_left := rect_left c; rect_top := rect_top c |}) g
   | None => g
   end).

(** One event delivered at time [now] (ms): the timers of the two
    throttles that are due run first, then the listeners bound to the
    event.  A frame callback runs only while its handle is pending; an
    exception that escapes it is reported by the host, and the field stays
    as the callback left it. *)
Definition dispatch (now : Z) (ev : Event) (w : World) : option World :=
  let '(h0, g) := w in
  let h := host_throttles (Throttle.run_timers now (resizeThrottle h0))
             (Throttle.run_timers now (mouseThrottle h0)) h0 in
  match ev with
  | EvResize container inner =>
      let '(h1, g1) := relayout container inner (h, g) in
      if listening OnResize h1 then
        match Throttle.executedFunction on_resize 250 now tt
                (resizeThrottle h1) (h1, g1) with
        | Some (c, (h2, g2)) =>
            Some (host_throttles c (mouseThrottle h2) h2, g2)
        | None => None
        end
      else Some (h1, g1)
  | EvMouseMove cx cy =>
      if listening OnMouseMove h then
        match Throttle.executedFunction on_mousemove 16 now (cx, cy)
                (mouseThrottle h) (h, g) with
        | Some (c, (h2, g2)) =>
            Some (host_throttles (resizeThrottle h2) c h2, g2)
        | None => None
        end
      else Some (h, g)
  | EvMouseLeave =>
      if listening OnMouseLeave h then on_mouseleave (h, g) else Some (h, g)
  | EvFrame =>
      match pendingFrames h with
      | [] => Some (h, g)
      | _ :: rest =>
          match animate (host_frames (frameRequests h) rest h, g) with
          | Returns w' => Some w'
          | Throws e (h', g') => Some (host_log (Uncaught e) h', g')
          end
      end
  end.

(** A run of the page: timed events in order. *)
Fixpoint run (evs : list (Z * Event)) (w : World) : option World :=
  match evs with
  | [] => Some w
  | (now, ev) :: rest =>
      match dispatch now ev w with
      | Some w' => run rest w'
      | None => None
      end
  end.
End Methods.

End GalaxyBackground.

(** ** Vocabulary of the statements *)

(** Euclidean distance between two points of the plane. *)
Definition dist (ax ay bx by_ : R) : R :=
  sqrt ((ax - bx) * (ax - bx) + (ay - by_) * (ay - by_)).

(** The opacity of a connection line at distance [d]. *)
Definition opacity_at (d : R) : R := (1 - d / 150) * 0.3.

(** A particle at [(px, py)] with velocity [(vx, vy)]; the other fields are
    those of a gold particle of radius 2. *)
Definition particle_at (px py vx vy : R) : GalaxyParticle.t :=
  {| GalaxyParticle.x := Fin px; GalaxyParticle.y := Fin py;
     GalaxyParticle.radius := Fin 2; GalaxyParticle.baseRadius := Fin 2;
     GalaxyParticle.color := Some "#FFD700"%string;
     GalaxyParticle.speedX := Fin vx; GalaxyParticle.speedY := Fin vy;
     GalaxyParticle.pulsePhase := Fin 0;
     GalaxyParticle.pulseSpeed := Fin 0.02 |}.

(** A pointer at [(mx, my)]. *)
Definition mouse_at (mx my : R) : Mouse :=
  {| mouse_x := Some (Fin mx); mouse_y := Some (Fin my) |}.

(** [n] calls of [GalaxyBackground.update] in a row (the update half of [n]
    frames). *)
Fixpoint update_steps (n : nat) (w : GalaxyBackground.World)
  : option GalaxyBackground.World :=
  match n with
  | O => Some w
  | S n' =>
      match GalaxyBackground.update w with
      | Some w' => update_steps n' w'
      | None => None
      end
  end.

(** One axis of a particle in flight over the segment [0, L] with speed [s]:
    the coordinate is at most one step outside the segment and, when it is
    outside, the velocity points back in. *)
Definition axis_inv (L s : R) (pos v : jsnum) : Prop :=
  exists a va : R,
    pos = Fin a /\ v = Fin va /\ Rabs va = s /\
    - s <= a <= L + s /\
    (a < 0 -> va = s) /\ (L < a -> va = - s).

(** A particle [p] in flight over a surface [W] x [H], started as [p0] with
    speeds of magnitude at most [smax]. *)
Definition flight_inv (W H smax : R) (p0 p : GalaxyParticle.t) : Prop :=
  exists sx sy : R,
    Math_abs (GalaxyParticle.speedX p0) = Fin sx /\
    Math_abs (GalaxyParticle.speedY p0) = Fin sy /\
    sx <= smax /\ sy <= smax /\
    axis_inv W sx (GalaxyParticle.x p) (GalaxyParticle.speedX p) /\
    axis_inv H sy (GalaxyParticle.y p) (GalaxyParticle.speedY p).

(** A particle as the constructor may leave it on a surface [W] x [H]: inside
    the surface, each speed in [-0.25, 0.25]. *)
Definition initial_draw (W H : R) (p : GalaxyParticle.t) : Prop :=
  exists a b va vb : R,
    GalaxyParticle.x p = Fin a /\ GalaxyParticle.y p = Fin b /\
    GalaxyParticle.speedX p = Fin va /\ GalaxyParticle.speedY p = Fin vb /\
    0 <= a <= W /\ 0 <= b <= H /\
    - 0.25 <= va <= 0.25 /\ - 0.25 <= vb <= 0.25.

(** A particle [p] within one unit of the surface [W] x [H], with the speed
    magnitudes of [p0]. *)
Definition within_margin (W H : R) (p0 p : GalaxyParticle.t) : Prop :=
  (exists a b : R,
     GalaxyParticle.x p = Fin a /\ GalaxyParticle.y p = Fin b /\
     - 1 <= a <= W + 1 /\ - 1 <= b <= H + 1) /\
  Math_abs (GalaxyParticle.speedX p) = Math_abs (GalaxyParticle.speedX p0) /\
  Math_abs (GalaxyParticle.speedY p) = Math_abs (GalaxyParticle.speedY p0).

(** A field of 200 equal particles on an 800 x 600 canvas, the pointer
    null. *)
Definition canvas_800_600 : HTMLCanvasElement :=
  {| width := 800; height := 600;
     parentElement := Some {| offsetWidth := 800; offsetHeight := 600 |};
     rect_left := Fin 0; rect_top := Fin 0 |}.

Definition host_idle : Host :=
  {| console := []; listeners := []; frameRequests := 0;
     pendingFrames := []; randomDraws := 0;
     window_inner := {| offsetWidth := 1024; offsetHeight := 768 |};
     resizeThrottle := Throttle.create; mouseThrottle := Throttle.create |}.

Definition field_200 : GalaxyBackground.t :=
  {| GalaxyBackground.canvas := Some canvas_800_600;
     GalaxyBackground.ctx := Some [];
     GalaxyBackground.particles :=
       repeat (particle_at 799.9 0.1 0.25 (- 0.25)) 200;
     GalaxyBackground.numParticles := 200;
     GalaxyBackground.mouse := mouse_null;
     GalaxyBackground.animationId := None;
     GalaxyBackground.containerId := "services-galaxy" |}.

(** The state a failed construction leaves, seen from the host [h0] it
    started in, for the container id [id]: nothing of the field exists,
    nothing is scheduled or bound,
    and the console holds the one diagnostic. *)
Definition inert (h0 : Host) (id : string) (w : GalaxyBackground.World)
  : Prop :=
  GalaxyBackground.canvas (snd w) = None /\
  GalaxyBackground.ctx (snd w) = None /\
  GalaxyBackground.particles (snd w) = [] /\
  GalaxyBackground.animationId (snd w) = None /\
  listeners (fst w) = [] /\
  pendingFrames (fst w) = [] /\
  frameRequests (fst w) = frameRequests h0 /\
  console (fst w) =
    console h0
    ++ [Error_canvas_not_found id].

(** A stream of random draws: every draw is one half. *)
Definition rnd_half : nat -> R := fun _ => 0.5.

(** A sequence of calls of [update] on one particle, each with its own
    pointer and surface dimensions. *)
Definition updates (args : list (Mouse * jsnum * jsnum))
    (p : GalaxyParticle.t) : GalaxyParticle.t :=
  fold_left
    (fun q a => GalaxyParticle.update (fst (fst a)) (snd (fst a)) (snd a) q)
    args p.

(** A finite, non-negative number. *)
Definition nonneg (q : jsnum) : Prop := exists v : R, q = Fin v /\ 0 <= v.

(** The pulse of a particle: a base radius in [1, 4), finite phase and
    speed, and a radius within 1 of the base radius. *)
Definition pulse_inv (p : GalaxyParticle.t) : Prop :=
  exists b phi s r : R,
    GalaxyParticle.baseRadius p = Fin b /\ 1 <= b < 4 /\
    GalaxyParticle.pulsePhase p = Fin phi /\
    GalaxyParticle.pulseSpeed p = Fin s /\
    GalaxyParticle.radius p = Fin r /\ b - 1 <= r <= b + 1.

(** A particle inside a surface of [W] x [H] pixels. *)
Definition in_surface (W H : N) (p : GalaxyParticle.t) : Prop :=
  exists a b : R,
    GalaxyParticle.x p = Fin a /\ GalaxyParticle.y p = Fin b /\
    0 <= a <= IZR (Z.of_N W) /\ 0 <= b <= IZR (Z.of_N H).

(** A field that has been initialised: canvas and context resolved, the
    configured count of particles in the collection. *)
Definition live (w : GalaxyBackground.World) : Prop :=
  (exists c, GalaxyBackground.canvas (snd w) = Some c) /\
  (exists cmds, GalaxyBackground.ctx (snd w) = Some cmds) /\
  GalaxyBackground.numParticles (snd w) = 200%nat /\
  List.length (GalaxyBackground.particles (snd w)) = 200%nat.

(** The box [resizeCanvas] reads: the parent's, or the window's when the
    canvas has no parent. *)
Definition surface_box (h : Host) (c : HTMLCanvasElement) : Box :=
  match parentElement c with
  | Some container => container
  | None => window_inner h
  end.

(** The pointer state the "mousemove" listener stores for an event at
    [(cx, cy)] over the canvas [c]. *)
Definition pointer_over (c : HTMLCanvasElement) (cx cy : jsnum) : Mouse :=
  {| mouse_x := Some (cx - rect_left c)%js;
     mouse_y := Some (cy - rect_top c)%js |}.

(** Timed pointer moves and timed resizes, as events. *)
Definition move_event (e : Z * (jsnum * jsnum)) : Z * Event :=
  (fst e, EvMouseMove (fst (snd e)) (snd (snd e))).

Definition resize_event (e : Z * (Box * Box)) : Z * Event :=
  (fst e, EvResize (fst (snd e)) (snd (snd e))).

(** A throttle closure in its window, the timer due at [d]. *)
Definition armed (d : Z) : Throttle.closure :=
  {| Throttle.inThrottle := true; Throttle.timers := [d] |}.

(** The three listeners bound and both throttles idle, as [bindEvents]
    leaves them. *)
Definition bound (h : Host) : Prop :=
  GalaxyBackground.listening OnResize h = true /\
  GalaxyBackground.listening OnMouseMove h = true /\
  GalaxyBackground.listening OnMouseLeave h = true /\
  resizeThrottle h = Throttle.create /\
  mouseThrottle h = Throttle.create.

(** Two fields that differ at most in the layout of the page around the
    canvas: same bitmap size, same particles, same pointer. *)
Definition same_field (g1 g2 : GalaxyBackground.t) : Prop :=
  GalaxyBackground.particles g2 = GalaxyBackground.particles g1 /\
  GalaxyBackground.mouse g2 = GalaxyBackground.mouse g1 /\
  GalaxyBackground.ctx g2 = GalaxyBackground.ctx g1 /\
  exists c1 c2,
    GalaxyBackground.canvas g1 = Some c1 /\
    GalaxyBackground.canvas g2 = Some c2 /\
    width c2 = width c1 /\ height c2 = height c1 /\
    rect_left c2 = rect_left c1 /\ rect_top c2 = rect_top c1.

(** The host once the field of [field_200] is running: listeners bound,
    throttles idle, one frame pending. *)
Definition host_bound : Host :=
  {| console := [Log_initialized 200];
     listeners := [OnResize; OnMouseMove; OnMouseLeave];
     frameRequests := 1; pendingFrames := [1%nat]; randomDraws := 1600;
     window_inner := {| offsetWidth := 1024; offsetHeight := 768 |};
     resizeThrottle := Throttle.create; mouseThrottle := Throttle.create |}.

(** A particle run over by the pointer: the state [update] leaves when the
    pointer is on the particle. *)
Definition particle_lost : GalaxyParticle.t :=
  GalaxyParticle.update (mouse_at (100 + 0) (100 + 0)) (Fin 800) (Fin 600)
    (particle_at 100 100 0 0).

(** The pair of particles a line joins. *)
Definition line_pair (l : GalaxyBackground.Line) : nat * nat :=
  (GalaxyBackground.line_i l, GalaxyBackground.line_j l).

(** The pointer state is well formed: both coordinates null, or both
    numbers. *)
Definition pointer_ok (m : Mouse) : Prop :=
  (mouse_x m = None /\ mouse_y m = None) \/
  (exists a b : jsnum, mouse_x m = Some a /\ mouse_y m = Some b).

(** The frame loop is running: exactly one frame is pending and
    [animationId] is its handle. *)
Definition looping (w : GalaxyBackground.World) : Prop :=
  exists id : nat,
    GalaxyBackground.animationId (snd w) = Some (S id) /\
    pendingFrames (fst w) = [S id] /\
    frameRequests (fst w) = S id.

(** [n] animation frames in a row, at times [t0 + 16 * k]. *)
Definition frames (t0 : Z) (n : nat) : list (Z * Event) :=
  map (fun k => ((t0 + 16 * Z.of_nat k)%Z, EvFrame)) (seq 0 n).

(** ** More of the arithmetic of numbers

    Used by the scroll animation, the counters and the viewport test. *)

(** [a <= b] and [a >= b]; false when a side is NaN. *)
Definition le (a b : jsnum) : bool :=
  match a, b with
  | NaN, _ | _, NaN => false
  | _, _ => negb (lt b a)
  end.

Definition ge (a b : jsnum) : bool := le b a.

(** [Math.max(a, b)] and [Math.min(a, b)]; NaN when an argument is NaN. *)
Definition Math_max (a b : jsnum) : jsnum :=
  match a, b with
  | NaN, _ | _, NaN => NaN
  | _, _ => if lt a b then b else a
  end.

Definition Math_min (a b : jsnum) : jsnum :=
  match a, b with
  | NaN, _ | _, NaN => NaN
  | _, _ => if lt b a then b else a
  end.

(** [Math.floor(a)] *)
Definition Math_floor (a : jsnum) : jsnum :=
  match a with
  | Fin x => Fin (IZR (floorZ x))
  | _ => a
  end.

(** The integer part of a real, rounded toward zero. *)
Definition truncZ (r : R) : Z :=
  if Rltb r 0 then (- floorZ (- r))%Z else floorZ r.

(** [a % b]: the remainder has the sign of the dividend. *)
Definition rem (a b : jsnum) : jsnum :=
  match a, b with
  | Fin x, Fin y =>
      if Reqb y 0 then NaN else Fin (x - y * IZR (truncZ (x / y)))
  | Fin x, PInf | Fin x, NInf => Fin x
  | _, _ => NaN
  end.

(** A number is falsy when it is 0 or NaN; [a || b] on numbers. *)
Definition truthy (a : jsnum) : bool :=
  match a with
  | Fin x => negb (Reqb x 0)
  | PInf | NInf => true
  | NaN => false
  end.

Definition js_or (a b : jsnum) : jsnum := if truthy a then a else b.

(** ** Double-precision arithmetic

    The operators of [JsNum] return the exact real result.  The script
    computes in IEEE-754 binary64: an operation returns the double nearest
    to its exact result, or an infinity when that is out of range.  A
    [Rounding] is this last step: [rd] sends a real to the double that
    stands for it and [fits] tells whether the exact result is in range.
    The functions whose outcome depends on the rounding are embedded over
    the rounded operators; under [exact], the rounding that does nothing,
    the rounded operators are those of [JsNum]. *)

Record Rounding : Type := { rd : R -> R; fits : R -> bool }.

Definition exact : Rounding := {| rd := fun r => r; fits := fun _ => true |}.

(** What the statements assume of a rounding, all of it true of rounding to
    the nearest double: it is monotone, it leaves a double as it is, it
    leaves the integers up to 2^53 as they are, its relative error on a
    normal number is at most 2^-53, and a result of magnitude up to 2^1023
    is in range. *)
Record to_nearest (F : Rounding) : Prop := {
  rd_mono : forall a b : R, a <= b -> rd F a <= rd F b;
  rd_idem : forall a : R, rd F (rd F a) = rd F a;
  rd_int : forall z : Z, (Z.abs z <= 2 ^ 53)%Z -> rd F (IZR z) = IZR z;
  rd_err : forall a : R,
    / 2 ^ 1022 <= Rabs a -> Rabs (rd F a - a) <= Rabs a / 2 ^ 53;
  fits_range : forall a : R, Rabs a <= 2 ^ 1023 -> fits F a = true
}.

Module Rounded.

Section Operators.
Variable F : Rounding.

(** The double an exact result becomes. *)
Definition round (a : jsnum) : jsnum :=
  match a with
  | Fin r =>
      if fits F r then Fin (rd F r)
      else if Rltb r 0 then NInf else PInf
  | _ => a
  end.

Definition add (a b : jsnum) : jsnum := round (JsNum.add a b).
Definition sub (a b : jsnum) : jsnum := round (JsNum.sub a b).
Definition mul (a b : jsnum) : jsnum := round (JsNum.mul a b).
Definition div (a b : jsnum) : jsnum := round (JsNum.div a b).
Definition Math_sqrt (a : jsnum) : jsnum := round (JsNum.Math_sqrt a).

(** A decimal literal of the source text. *)
Definition lit (r : R) : jsnum := round (Fin r).

(** [drawConnections()] in double precision: the calls appended to the
    context.  The literals 150, 1 and 0.5 are doubles. *)
Definition drawConnections (ps : list GalaxyParticle.t) : list CanvasCmd :=
  flat_map
    (fun i =>
       flat_map
         (fun j =>
            match nth_error ps i, nth_error ps j with
            | Some pi, Some pj =>
                let dx := sub (GalaxyParticle.x pi) (GalaxyParticle.x pj) in
                let dy := sub (GalaxyParticle.y pi) (GalaxyParticle.y pj) in
                let distance := Math_sqrt (add (mul dx dx) (mul dy dy)) in
                if (distance <? Fin 150)%js then
                  let opacity :=
                    mul (sub (Fin 1) (div distance (Fin 150))) (lit 0.3) in
                  [ SetStrokeStyle (Rgba 255 255 255 opacity);
                    SetLineWidth (Fin 0.5);
                    BeginPath;
                    MoveTo (GalaxyParticle.x pi) (GalaxyParticle.y pi);
                    LineTo (GalaxyParticle.x pj) (GalaxyParticle.y pj);
                    Stroke ]
                else []
            | _, _ => []
            end)
         (seq (i + 1) (List.length ps - (i + 1))))
    (seq 0 (List.length ps)).

End Operators.

End Rounded.

(** ** function isInViewport(element, threshold) and animateOnScroll *)

(** [getBoundingClientRect()] *)
Record DOMRect : Type := {
  top : jsnum; left : jsnum; bottom : jsnum; right : jsnum
}.

(** The sizes the test reads: [window.innerHeight], [window.innerWidth] and
    the client size of the document element. *)
Record Viewport : Type := {
  vp_innerHeight : jsnum; vp_innerWidth : jsnum;
  vp_clientHeight : jsnum; vp_clientWidth : jsnum
}.

Definition isInViewport (v : Viewport) (rect : DOMRect) (threshold : jsnum)
  : bool :=
  let windowHeight := js_or (vp_innerHeight v) (vp_clientHeight v) in
  let windowWidth := js_or (vp_innerWidth v) (vp_clientWidth v) in
  ge (top rect) (neg threshold) &&
  ge (left rect) (neg threshold) &&
  le (bottom rect) (windowHeight + threshold)%js &&
  le (right rect) (windowWidth + threshold)%js.

(** What [animateOnScroll] does to its element: the class is added at once,
    or an observer is set on the element. *)
Inductive Entrance : Type :=
| AddedClass (c : string)
| Observing.

(** [animateOnScroll(element)]; [element] is [None] for [null], else the
    rectangle of the element.  Reading [classList] of [null] throws. *)
Definition animateOnScroll (v : Viewport) (element : option DOMRect)
  : option Entrance :=
  match element with
  | None => None
  | Some rect =>
      if isInViewport v rect (Fin 100)
      then Some (AddedClass "aos-animate")
      else Some Observing
  end.

(** ** class ServicesScrollAnimation *)

Module ServicesScrollAnimation.

(** The section element as the animation reads it: the rectangle of
    [getBoundingClientRect()]. *)
Record Section_ : Type := {
  rect_top : jsnum; rect_height : jsnum; rect_bottom : jsnum
}.

Record t : Type := {
  servicesSection : option Section_;
  numItems : nat;               (* serviceItems.length *)
  currentStage : jsnum;
  scrollProgress : jsnum
}.

Definition set_progress (p : jsnum) (s : t) : t :=
  {| servicesSection := servicesSection s; numItems := numItems s;
     currentStage := currentStage s; scrollProgress := p |}.

Definition set_stage (st : jsnum) (s : t) : t :=
  {| servicesSection := servicesSection s; numItems := numItems s;
     currentStage := st; scrollProgress := scrollProgress s |}.

(** [updateScrollProgress()], with [window.innerHeight]. *)
Definition updateScrollProgress (windowHeight : jsnum) (s : t) : t :=
  match servicesSection s with
  | None => s
  | Some rect =>
      let sectionHeight := rect_height rect in
      let sectionTop := rect_top rect in
      if le sectionTop windowHeight && ge (rect_bottom rect) (Fin 0) then
        set_progress
          (Math_max (Fin 0)
             (Math_min (Fin 1)
                ((windowHeight - sectionTop)
                 / (windowHeight + sectionHeight * Fin 0.5))%js)) s
      else if gt sectionTop windowHeight then set_progress (Fin 0) s
      else set_progress (Fin 1) s
  end.

(** The stage [updateAnimation] computes from the progress. *)
Definition stage_of (progress : jsnum) : jsnum :=
  Math_min (Fin (7 - 1)) (Math_floor (progress * Fin 7)%js).

Section Transforms.
(** The rounding of the arithmetic. *)
Variable F : Rounding.

(** The style [updateDynamicTransforms] gives the item number [index], if
    it touches it: scale, translateY and opacity.  The remainder [%] is
    exact; 7, 1 and 20 are doubles. *)
Definition item_transform (progress : jsnum) (isMobile : bool) (index : nat)
  : option (jsnum * jsnum * jsnum) :=
  let stageProgress := rem (Rounded.mul F progress (Fin 7)) (Fin 1) in
  let baseDelay :=
    if isMobile then Rounded.mul F (Fin (INR index)) (Rounded.lit F 0.1)
    else Rounded.mul F (Fin (INR index)) (Rounded.lit F 0.05) in
  let delay := Math_max (Fin 0) (Rounded.sub F stageProgress baseDelay) in
  if gt delay (Fin 0) && lt delay (Fin 1) then
    Some (Rounded.sub F (Fin 1) (Rounded.mul F delay (Rounded.lit F 0.1)),
          Rounded.mul F delay (Fin 20),
          Math_max (Rounded.lit F 0.3)
            (Rounded.sub F (Fin 1)
               (Rounded.mul F delay (Rounded.lit F 0.7))))
  else None.

(** [updateAnimation()]: the new state, whether [updateStage] ran, and the
    styles set on the items. *)
Definition updateAnimation (isMobile : bool) (s : t)
  : t * bool * list (option (jsnum * jsnum * jsnum)) :=
  match servicesSection s, numItems s with
  | None, _ | _, O => (s, false, [])
  | Some _, S _ =>
      let stage := stage_of (scrollProgress s) in
      let changed :=
        match stage, currentStage s with
        | Fin a, Fin b => negb (Reqb a b)
        | PInf, PInf | NInf, NInf => false
        | _, _ => true
        end in
      (if changed then set_stage stage s else s,
       changed,
       map (item_transform (scrollProgress s) isMobile)
         (seq 0 (numItems s)))
  end.
End Transforms.

End ServicesScrollAnimation.

(** ** class CounterAnimation *)

Module CounterAnimation.

(** One counter while its interval runs: the accumulator [current], the
    text shown (what the callback last wrote, if it wrote), and whether
    [clearInterval] has been called. *)
Record counter : Type := {
  target : jsnum;
  current : jsnum;
  textContent : option jsnum;
  cleared : bool
}.

(** The state [animateCounters] starts a counter in; [target] is what
    [parseInt] made of the attribute. *)
Definition start (target : jsnum) : counter :=
  {| target := target; current := Fin 0; textContent := None;
     cleared := false |}.

Section Interval.
(** The rounding of the arithmetic. *)
Variable F : Rounding.

(** One run of the interval callback; a cleared interval no longer runs. *)
Definition tick (c : counter) : counter :=
  if cleared c then c
  else
    let duration := Fin 2000 in
    let increment :=
      Rounded.div F (target c) (Rounded.div F duration (Fin 16)) in
    let current1 := Rounded.add F (current c) increment in
    if ge current1 (target c) then
      {| target := target c; current := current1;
         textContent := Some (target c); cleared := true |}
    else
      {| target := target c; current := current1;
         textContent := Some (Math_floor current1); cleared := false |}.

Fixpoint ticks (n : nat) (c : counter) : counter :=
  match n with
  | O => c
  | S n' => ticks n' (tick c)
  end.
End Interval.

End CounterAnimation.

(** A window of 1024 x 768 and an element just above its top edge. *)
Definition viewport_1024_768 : Viewport :=
  {| vp_innerHeight := Fin 768; vp_innerWidth := Fin 1024;
     vp_clientHeight := Fin 768; vp_clientWidth := Fin 1024 |}.

Definition rect_near_top : DOMRect :=
  {| top := Fin (- 40); left := Fin 10; bottom := Fin 60; right := Fin 300 |}.

(** A services section of height 900 whose top is 300 px below the top of a
    window 768 px high, with six items. *)
Definition services_example : ServicesScrollAnimation.t :=
  {| ServicesScrollAnimation.servicesSection :=
       Some {| ServicesScrollAnimation.rect_top := Fin 300;
               ServicesScrollAnimation.rect_height := Fin 900;
               ServicesScrollAnimation.rect_bottom := Fin (300 + 900) |};
     ServicesScrollAnimation.numItems := 6;
     ServicesScrollAnimation.currentStage := Fin 0;
     ServicesScrollAnimation.scrollProgress := Fin 0 |}.

(** ** function debounce(func, wait, immediate)

    The closure owns [timeout]; the timer it holds is kept with it, by the
    time at which it falls due and the arguments its callback [later]
    captured.  A result [(c, None)] means that [func] threw. *)

Module Debounce.

Record closure (A : Type) : Type := { timeout : option (Z * A) }.
Arguments timeout {A} _.

(** [let timeout = null;] *)
Definition create {A : Type} : closure A := {| timeout := None |}.

Section Debounced.
Context {S A : Type}.
Variable func : A -> S -> option S.
Variable wait : Z.
Variable immediate : bool.

(** The callback [later] of a call with arguments [args]. *)
Definition later (args : A) (s : S) : closure A * option S :=
  ({| timeout := None |},
   if negb immediate then func args s else Some s).

(** The host runs the timer of the closure if it is due at time [now]. *)
Definition run_timers (now : Z) (c : closure A) (s : S)
  : closure A * option S :=
  match timeout c with
  | Some (due, args) =>
      if (due <=? now)%Z then later args s else (c, Some s)
  | None => (c, Some s)
  end.

(** [executedFunction(...args)], called at time [now]: the pending timer,
    if any, is cleared and a new one is set. *)
Definition executedFunction (now : Z) (args : A) (c : closure A) (s : S)
  : closure A * option S :=
  let callNow :=
    immediate && match timeout c with None => true | Some _ => false end in
  ({| timeout := Some ((now + wait)%Z, args) |},
   if callNow then func args s else Some s).

(** A call arriving at time [now]: the due timer first, then the call. *)
Definition call_at (now : Z) (args : A) (c : closure A) (s : S)
  : closure A * option S :=
  match run_timers now c s with
  | (c1, Some s1) => executedFunction now args c1 s1
  | (c1, None) => (c1, None)
  end.

(** A sequence of timed calls, in the order they arrive. *)
Fixpoint calls (evs : list (Z * A)) (c : closure A) (s : S)
  : closure A * option S :=
  match evs with
  | [] => (c, Some s)
  | (now, args) :: rest =>
      match call_at now args c s with
      | (c1, Some s1) => calls rest c1 s1
      | (c1, None) => (c1, None)
      end
  end.
End Debounced.

End Debounce.

(** A burst of calls: each one arrives less than [wait] after the one
    before, the first one after [prev]. *)
Fixpoint burst {A : Type} (wait prev : Z) (evs : list (Z * A)) : Prop :=
  match evs with
  | [] => True
  | (now, _) :: rest => (prev <= now < prev + wait)%Z /\ burst wait now rest
  end.

(** A function to debounce, for the examples: it records its argument. *)
Definition record_call (a : nat) (s : list nat) : option (list nat) :=
  Some (s ++ [a]).

(** ** class TestimonialsSlider

    The slides and dots are modelled by the classes the slider toggles on
    them, the intervals by their handles in the host; console output and
    the style of the progress bar are left out. *)

Module TestimonialsSlider.

(** The three classes the slider sets on a slide. *)
Record SlideClasses : Type := { active : bool; prev : bool; next : bool }.

Definition no_classes : SlideClasses :=
  {| active := false; prev := false; next := false |}.

Inductive ClassName : Type := Active | Prev | Next.

(** [slide.classList.add(c)] *)
Definition add (c : ClassName) (s : SlideClasses) : SlideClasses :=
  match c with
  | Active => {| active := true; prev := prev s; next := next s |}
  | Prev => {| active := active s; prev := true; next := next s |}
  | Next => {| active := active s; prev := prev s; next := true |}
  end.

Inductive IntervalKind : Type := AutoPlayTick | ProgressTick.

(** The intervals set with [setInterval] and not cleared, and the number of
    handles given out so far. *)
Record Host : Type := {
  intervals : list (nat * IntervalKind);
  handles : nat
}.

Record t : Type := {
  hasProgressElement : bool;  (* '.autoplay-progress' is found *)
  slides : list SlideClasses;
  dots : list bool;           (* the class 'active' of each dot *)
  currentSlide : Z;
  totalSlides : Z;
  autoPlayInterval : option nat;
  progressInterval : option nat;
  isPlaying : bool
}.

Definition World : Type := (Host * t)%type.

(** [setInterval(callback, delay)]: a new handle, never 0. *)
Definition setInterval (k : IntervalKind) (h : Host) : Host * nat :=
  let id := S (handles h) in
  ({| intervals := intervals h ++ [(id, k)]; handles := id |}, id).

(** [clearInterval(id)] *)
Definition clearInterval (id : nat) (h : Host) : Host :=
  {| intervals := filter (fun e => negb (Nat.eqb (fst e) id)) (intervals h);
     handles := handles h |}.

(** [list[i].classList.add(c)]; [None] when [list[i]] is undefined. *)
Fixpoint add_at (c : ClassName) (i : nat) (l : list SlideClasses)
  : option (list SlideClasses) :=
  match l, i with
  | [], _ => None
  | x :: l', O => Some (add c x :: l')
  | x :: l', S i' =>
      match add_at c i' l' with
      | Some l1 => Some (x :: l1)
      | None => None
      end
  end.

Definition add_at_Z (c : ClassName) (i : Z) (l : list SlideClasses)
  : option (list SlideClasses) :=
  if (i <? 0)%Z then None else add_at c (Z.to_nat i) l.

(** [updateDots()]: dot [index] is active exactly when [index] is the
    current slide. *)
Fixpoint updateDots_from (index : Z) (cur : Z) (ds : list bool) : list bool :=
  match ds with
  | [] => []
  | _ :: ds' => (index =? cur)%Z :: updateDots_from (index + 1) cur ds'
  end.

Definition set_autoplay (a p : option nat) (s : t) : t :=
  {| hasProgressElement := hasProgressElement s; slides := slides s;
     dots := dots s; currentSlide := currentSlide s;
     totalSlides := totalSlides s; autoPlayInterval := a;
     progressInterval := p; isPlaying := isPlaying s |}.

Definition set_playing (b : bool) (s : t) : t :=
  {| hasProgressElement := hasProgressElement s; slides := slides s;
     dots := dots s; currentSlide := currentSlide s;
     totalSlides := totalSlides s; autoPlayInterval := autoPlayInterval s;
     progressInterval := progressInterval s; isPlaying := b |}.

Definition set_slides (l : list SlideClasses) (ds : list bool) (cur : Z)
    (s : t) : t :=
  {| hasProgressElement := hasProgressElement s; slides := l;
     dots := ds; currentSlide := cur;
     totalSlides := totalSlides s; autoPlayInterval := autoPlayInterval s;
     progressInterval := progressInterval s; isPlaying := isPlaying s |}.

(** [startProgressIndicator()] *)
Definition startProgressIndicator (w : World) : World :=
  let '(h, s) := w in
  if hasProgressElement s then
    let '(h1, id) := setInterval ProgressTick h in
    (h1, set_autoplay (autoPlayInterval s) (Some id) s)
  else w.

(** [startAutoPlay()] *)
Definition startAutoPlay (w : World) : World :=
  let '(h, s) := w in
  if (totalSlides s <=? 1)%Z then w
  else
    let '(h1, id) := setInterval AutoPlayTick h in
    startProgressIndicator (h1, set_autoplay (Some id) (progressInterval s) s).

(** [stopProgressIndicator()] *)
Definition stopProgressIndicator (w : World) : World :=
  let '(h, s) := w in
  match progressInterval s with
  | Some (S _ as id) =>
      (clearInterval id h, set_autoplay (autoPlayInterval s) None s)
  | _ => w
  end.

(** [pauseAutoPlay()] *)
Definition pauseAutoPlay (w : World) : World :=
  let '(h, s) := w in
  stopProgressIndicator
    match autoPlayInterval s with
    | Some (S _ as id) =>
        (clearInterval id h, set_autoplay None (progressInterval s) s)
    | _ => w
    end.

(** [resumeAutoPlay()] *)
Definition resumeAutoPlay (w : World) : World :=
  if isPlaying (snd w) && (totalSlides (snd w) >? 1)%Z
  then startAutoPlay w else w.

(** [restartAutoPlay()] *)
Definition restartAutoPlay (w : World) : World :=
  if isPlaying (snd w) then resumeAutoPlay (pauseAutoPlay w) else w.

(** [toggleAutoPlay()] *)
Definition toggleAutoPlay (w : World) : World :=
  let '(h, s) := w in
  let s1 := set_playing (negb (isPlaying s)) s in
  if isPlaying s1 then resumeAutoPlay (h, s1) else pauseAutoPlay (h, s1).

(** [goToSlide(slideIndex)]; [None] when a slide it reaches for is
    undefined. *)
Definition goToSlide (slideIndex : Z) (w : World) : option World :=
  let '(h, s) := w in
  if (slideIndex <? 0)%Z || (slideIndex >=? totalSlides s)%Z then Some w
  else
    (* Remove all classes from current slides *)
    let l0 := map (fun _ => no_classes) (slides s) in
    (* Set new active slide *)
    let l1 :=
      match add_at_Z Active slideIndex l0 with
      | Some l => l
      | None => l0
      end in
    (* Set previous slide *)
    match add_at_Z Prev
            (if (slideIndex >? 0)%Z then slideIndex - 1
             else totalSlides s - 1)%Z l1 with
    | None => None
    | Some l2 =>
        (* Set next slide *)
        match add_at_Z Next
                (if (slideIndex <? totalSlides s - 1)%Z then slideIndex + 1
                 else 0)%Z l2 with
        | None => None
        | Some l3 =>
            Some (restartAutoPlay
                    (h, set_slides l3
                          (updateDots_from 0 slideIndex (dots s))
                          slideIndex s))
        end
    end.

(** [goToNextSlide()]; with no slide the index is NaN, which [goToSlide]
    does not reject, and reaching for [slides[-1]] throws. *)
Definition goToNextSlide (w : World) : option World :=
  let s := snd w in
  if (totalSlides s =? 0)%Z then None
  else goToSlide (Z.rem (currentSlide s + 1) (totalSlides s)) w.

(** [goToPreviousSlide()] *)
Definition goToPreviousSlide (w : World) : option World :=
  let s := snd w in
  if (totalSlides s =? 0)%Z then None
  else
    goToSlide (Z.rem (currentSlide s - 1 + totalSlides s) (totalSlides s)) w.

(** The callback of an interval runs only while the interval is set; the
    auto-play callback goes to the next slide. *)
Definition interval_fires (id : nat) (w : World) : option World :=
  if existsb
       (fun e =>
          Nat.eqb (fst e) id
          && match snd e with AutoPlayTick => true | ProgressTick => false end)
       (intervals (fst w))
  then goToNextSlide w
  else Some w.

End TestimonialsSlider.

(** A slider is well formed when [totalSlides] is the number of slides, as
    [init] sets it, there is a slide, and the current slide is one of
    them. *)
Definition slider_wf (s : TestimonialsSlider.t) : Prop :=
  TestimonialsSlider.totalSlides s
    = Z.of_nat (List.length (TestimonialsSlider.slides s)) /\
  (0 <= TestimonialsSlider.currentSlide s
   < TestimonialsSlider.totalSlides s)%Z.

(** The classes of slide [k] when slide [i] of [n] is shown. *)
Definition classes_when (n i k : Z) : TestimonialsSlider.SlideClasses :=
  {| TestimonialsSlider.active := (k =? i)%Z;
     TestimonialsSlider.prev := (k =? (i - 1) mod n)%Z;
     TestimonialsSlider.next := (k =? (i + 1) mod n)%Z |}.

(** The handles of the auto-play intervals that are set. *)
Definition autoplay_handles (h : TestimonialsSlider.Host) : list nat :=
  map fst
    (filter
       (fun e =>
          match snd e with
          | TestimonialsSlider.AutoPlayTick => true
          | TestimonialsSlider.ProgressTick => false
          end)
       (TestimonialsSlider.intervals h)).

(** A slider of three slides showing the first one, auto-play running on
    interval 1. *)
Definition slider_example : TestimonialsSlider.World :=
  ({| TestimonialsSlider.intervals :=
        [(1%nat, TestimonialsSlider.AutoPlayTick)];
      TestimonialsSlider.handles := 1 |},
   {| TestimonialsSlider.hasProgressElement := false;
      TestimonialsSlider.slides :=
        [classes_when 3 0 0; classes_when 3 0 1; classes_when 3 0 2];
      TestimonialsSlider.dots := [true; false; false];
      TestimonialsSlider.currentSlide := 0;
      TestimonialsSlider.totalSlides := 3;
      TestimonialsSlider.autoPlayInterval := Some 1%nat;
      TestimonialsSlider.progressInterval := None;
      TestimonialsSlider.isPlaying := true |}).

(** Two states of a slider that show the same thing: they differ at most in
    the handles of their intervals. *)
Definition same_show (s s' : TestimonialsSlider.t) : Prop :=
  TestimonialsSlider.slides s' = TestimonialsSlider.slides s /\
  TestimonialsSlider.dots s' = TestimonialsSlider.dots s /\
  TestimonialsSlider.currentSlide s' = TestimonialsSlider.currentSlide s /\
  TestimonialsSlider.totalSlides s' = TestimonialsSlider.totalSlides s /\
  TestimonialsSlider.isPlaying s' = TestimonialsSlider.isPlaying s /\
  TestimonialsSlider.hasProgressElement s'
    = TestimonialsSlider.hasProgressElement s.

(** Auto-play is running on exactly one interval, the one the slider
    holds. *)
Definition playing_inv (w : TestimonialsSlider.World) : Prop :=
  TestimonialsSlider.isPlaying (snd w) = true /\
  (1 < TestimonialsSlider.totalSlides (snd w))%Z /\
  exists id : nat,
    TestimonialsSlider.autoPlayInterval (snd w) = Some (S id) /\
    autoplay_handles (fst w) = [S id].

(** A sequence of timed calls of a throttled function, in the order they
    arrive: at each call the timers that are due run first. *)
Fixpoint throttled_calls {S A : Type} (func : A -> S -> option S)
    (limit : Z) (evs : list (Z * A)) (c : Throttle.closure) (s : S)
  : option (Throttle.closure * S) :=
  match evs with
  | [] => Some (c, s)
  | (now, args) :: rest =>
      match Throttle.executedFunction func limit now args
              (Throttle.run_timers now c) s with
      | Some (c', s') => throttled_calls func limit rest c' s'
      | None => None
      end
  end.

(** A function to throttle, for the statements: it records the time it is
    given. *)
Definition record_time (t : Z) (log : list Z) : option (list Z) :=
  Some (log ++ [t]).

(** Times in order, and times at least [gap] apart. *)
Fixpoint spaced (gap : Z) (prev : Z) (ts : list Z) : Prop :=
  match ts with
  | [] => True
  | t :: rest => (prev + gap <= t)%Z /\ spaced gap t rest
  end.

Definition well_spaced (gap : Z) (ts : list Z) : Prop :=
  match ts with
  | [] => True
  | t :: rest => spaced gap t rest
  end.

(** The state of a throttle that records the times of its runs, seen at
    time [now]: the runs are spaced by [limit]; after a run the closure is
    in its window until [limit] later, or the window is over. *)
Definition rate_inv (limit now : Z) (c : Throttle.closure) (log : list Z)
  : Prop :=
  well_spaced limit log /\
  (log = [] -> c = Throttle.create) /\
  (log <> [] ->
   c = armed (last log 0%Z + limit) \/
   (c = Throttle.create /\ (last log 0%Z + limit <= now)%Z)).

(** A particle [draw] can draw: a finite position, a finite radius that is
    not negative, a colour of the palette. *)
Definition drawable (p : GalaxyParticle.t) : Prop :=
  (exists a b r : R,
     GalaxyParticle.x p = Fin a /\ GalaxyParticle.y p = Fin b /\
     GalaxyParticle.radius p = Fin r /\ 0 <= r) /\
  exists c : string,
    GalaxyParticle.color p = Some c /\ In c GalaxyParticle.colors.

(** A call the context accepts. *)
Definition accepted (c : CanvasCmd) : Prop := call_error c = None.

(** The connection pass in the words of its specification: every unordered
    pair of particles, the earlier one first; the distance of a pair and
    the opacity of a line of that length, as computed; the calls that
    stroke one line. *)
Fixpoint unordered_pairs {A : Type} (l : list A) : list (A * A) :=
  match l with
  | [] => []
  | a :: l' => map (pair a) l' ++ unordered_pairs l'
  end.

Definition computed_distance (F : Rounding) (p q : GalaxyParticle.t)
  : jsnum :=
  let dx := Rounded.sub F (GalaxyParticle.x p) (GalaxyParticle.x q) in
  let dy := Rounded.sub F (GalaxyParticle.y p) (GalaxyParticle.y q) in
  Rounded.Math_sqrt F
    (Rounded.add F (Rounded.mul F dx dx) (Rounded.mul F dy dy)).

Definition computed_opacity (F : Rounding) (distance : jsnum) : jsnum :=
  Rounded.mul F
    (Rounded.sub F (Fin 1) (Rounded.div F distance (Fin 150)))
    (Rounded.lit F 0.3).

Definition stroke_between (p q : GalaxyParticle.t) (opacity : jsnum)
  : list CanvasCmd :=
  [ SetStrokeStyle (Rgba 255 255 255 opacity);
    SetLineWidth (Fin 0.5);
    BeginPath;
    MoveTo (GalaxyParticle.x p) (GalaxyParticle.y p);
    LineTo (GalaxyParticle.x q) (GalaxyParticle.y q);
    Stroke ].

Definition connection_pass (F : Rounding) (ps : list GalaxyParticle.t)
  : list CanvasCmd :=
  flat_map
    (fun pq =>
       let d := computed_distance F (fst pq) (snd pq) in
       if (d <? Fin 150)%js
       then stroke_between (fst pq) (snd pq) (computed_opacity F d)
       else [])
    (unordered_pairs ps).

(** A particle that has left the plane: its [x] is NaN. *)
Definition lost (p : GalaxyParticle.t) : Prop := GalaxyParticle.x p = NaN.

(** The exceptions the host has reported, and the animation frames among
    timed events. *)
Definition uncaught (log : list ConsoleEntry) : nat :=
  List.length
    (filter (fun e => match e with Uncaught _ => true | _ => false end) log).

Definition frame_events (evs : list (Z * Event)) : nat :=
  List.length
    (filter (fun e => match snd e with EvFrame => true | _ => false end)
       evs).

Definition is_resize (ev : Event) : bool :=
  match ev with
  | EvResize _ _ => true
  | _ => false
  end.

(** The field of [field_200] once the pointer has run over every particle,
    its first frame requested. *)
Definition field_lost : GalaxyBackground.t :=
  {| GalaxyBackground.canvas := Some canvas_800_600;
     GalaxyBackground.ctx := Some [];
     GalaxyBackground.particles := repeat particle_lost 200;
     GalaxyBackground.numParticles := 200;
     GalaxyBackground.mouse := mouse_at 100 100;
     GalaxyBackground.animationId := Some 1%nat;
     GalaxyBackground.containerId := "services-galaxy" |}.

(** * Properties *)

(** ** Arithmetic of [jsnum] *)

Section JsNumFacts.

Lemma Rltb_true (a b : R) : a < b -> Rltb a b = true.
Proof.
  intros H; unfold Rltb.
  destruct (Rlt_dec a b); [reflexivity | contradiction].
Qed.

Lemma Rltb_false (a b : R) : b <= a -> Rltb a b = false.
Proof. intros H; unfold Rltb; destruct (Rlt_dec a b); [lra | reflexivity]. Qed.

Lemma Rltb_spec (a b : R) : Rltb a b = true <-> a < b.
Proof.
  unfold Rltb; destruct (Rlt_dec a b); split; intros; try easy.
Qed.

Lemma Reqb_true (a b : R) : a = b -> Reqb a b = true.
Proof.
  intros H; unfold Reqb.
  destruct (Req_dec_T a b); [reflexivity | contradiction].
Qed.

Lemma Reqb_false (a b : R) : a <> b -> Reqb a b = false.
Proof.
  intros H; unfold Reqb.
  destruct (Req_dec_T a b); [contradiction | reflexivity].
Qed.

Lemma Rsign_zero : Rsign 0 = Eq.
Proof. unfold Rsign; rewrite !Rltb_false by lra; reflexivity. Qed.

Lemma Rsign_neg (r : R) : r < 0 -> Rsign r = Lt.
Proof. intros H; unfold Rsign; rewrite Rltb_true by lra; reflexivity. Qed.

Lemma Rsign_pos (r : R) : 0 < r -> Rsign r = Gt.
Proof.
  intros H; unfold Rsign; rewrite Rltb_false by lra.
  rewrite Rltb_true by lra; reflexivity.
Qed.

Lemma Fin_eq (a b : R) : a = b -> Fin a = Fin b.
Proof. intros ->; reflexivity. Qed.

(** Multiplying by -1 keeps the magnitude, whatever the number. *)
Lemma abs_mul_minus1 (a : jsnum) : Math_abs (a * Fin (-1))%js = Math_abs a.
Proof.
  destruct a as [r | | |]; simpl; try reflexivity.
  - apply Fin_eq. replace (r * -1) with (- r) by ring. apply Rabs_Ropp.
  - rewrite Rsign_neg by lra; reflexivity.
  - rewrite Rsign_neg by lra; reflexivity.
Qed.

(** Zero over zero. *)
Lemma div_zero_zero : (Fin 0 / Fin 0)%js = NaN.
Proof.
  simpl. rewrite Reqb_true by reflexivity. rewrite Rsign_zero. reflexivity.
Qed.

Lemma div_Fin (a b : R) : b <> 0 -> (Fin a / Fin b)%js = Fin (a / b).
Proof. intros H; simpl. rewrite Reqb_false by assumption. reflexivity. Qed.

Lemma sum_squares_nonneg (a b : R) : 0 <= a * a + b * b.
Proof. nra. Qed.

(** [Math.sqrt(dx * dx + dy * dy)] on finite numbers is the Euclidean
    norm. *)
Lemma norm_Fin (a b : R) :
  Math_sqrt (Fin a * Fin a + Fin b * Fin b)%js = Fin (sqrt (a * a + b * b)).
Proof. simpl. rewrite Rltb_false by apply sum_squares_nonneg. reflexivity. Qed.

End JsNumFacts.

(** ** [GalaxyParticle.update] *)

Section UpdateFacts.
Import GalaxyParticle.

(** With a null pointer the mouse interaction block does nothing. *)
Lemma mouse_interaction_null (x1 y1 : jsnum) :
  mouse_interaction mouse_null x1 y1 = (x1, y1).
Proof. reflexivity. Qed.

(** The fields [update] computes, one by one. *)
Lemma update_speedX (m : Mouse) (cw ch : jsnum) (p : t) :
  speedX (update m cw ch p) =
  if ((x p + speedX p) <? Fin 0)%js || ((x p + speedX p) >? cw)%js
  then (speedX p * Fin (-1))%js else speedX p.
Proof. unfold update. destruct (mouse_interaction _ _ _); reflexivity. Qed.

Lemma update_speedY (m : Mouse) (cw ch : jsnum) (p : t) :
  speedY (update m cw ch p) =
  if ((y p + speedY p) <? Fin 0)%js || ((y p + speedY p) >? ch)%js
  then (speedY p * Fin (-1))%js else speedY p.
Proof. unfold update. destruct (mouse_interaction _ _ _); reflexivity. Qed.

Lemma update_position (m : Mouse) (cw ch : jsnum) (p : t) :
  (x (update m cw ch p), y (update m cw ch p)) =
  mouse_interaction m (x p + speedX p)%js (y p + speedY p)%js.
Proof. unfold update. destruct (mouse_interaction _ _ _); reflexivity. Qed.

Lemma update_pulse (m : Mouse) (cw ch : jsnum) (p : t) :
  pulsePhase (update m cw ch p) = (pulsePhase p + pulseSpeed p)%js /\
  radius (update m cw ch p) =
    (baseRadius p + Math_sin (pulsePhase p + pulseSpeed p) * Fin 1)%js.
Proof.
  unfold update. destruct (mouse_interaction _ _ _); split; reflexivity.
Qed.

Lemma update_fixed (m : Mouse) (cw ch : jsnum) (p : t) :
  color (update m cw ch p) = color p /\
  baseRadius (update m cw ch p) = baseRadius p /\
  pulseSpeed (update m cw ch p) = pulseSpeed p.
Proof. unfold update. destruct (mouse_interaction _ _ _); repeat split. Qed.

Lemma update_null_x (cw ch : jsnum) (p : t) :
  x (update mouse_null cw ch p) = (x p + speedX p)%js.
Proof. reflexivity. Qed.

Lemma update_null_y (cw ch : jsnum) (p : t) :
  y (update mouse_null cw ch p) = (y p + speedY p)%js.
Proof. reflexivity. Qed.

End UpdateFacts.

(** ** What one call of [update] leaves alone *)

Section Frame.
Import GalaxyParticle.

(** C9. One call of [update], whatever the pointer and the surface
    dimensions, leaves [color], [baseRadius] and [pulseSpeed] as they were
    and keeps the magnitudes of [speedX] and [speedY]: each velocity
    component is either untouched or multiplied by -1. *)
Theorem update_frame (m : Mouse) (cw ch : jsnum) (p : t) :
  color (update m cw ch p) = color p /\
  baseRadius (update m cw ch p) = baseRadius p /\
  pulseSpeed (update m cw ch p) = pulseSpeed p /\
  Math_abs (speedX (update m cw ch p)) = Math_abs (speedX p) /\
  Math_abs (speedY (update m cw ch p)) = Math_abs (speedY p) /\
  (speedX (update m cw ch p) = speedX p \/
   speedX (update m cw ch p) = (speedX p * Fin (-1))%js) /\
  (speedY (update m cw ch p) = speedY p \/
   speedY (update m cw ch p) = (speedY p * Fin (-1))%js).
Proof.
  destruct (update_fixed m cw ch p) as (Hc & Hb & Hs).
  rewrite update_speedX, update_speedY.
  repeat split; try assumption.
  - destruct (_ || _); [apply abs_mul_minus1 | reflexivity].
  - destruct (_ || _); [apply abs_mul_minus1 | reflexivity].
  - destruct (_ || _); [right | left]; reflexivity.
  - destruct (_ || _); [right | left]; reflexivity.
Qed.

End Frame.

(** ** Reflection at the right edge *)

Section Reflection.
Import GalaxyParticle.

(** C4. With the pointer null, a particle at [x = W - 0.1] with
    [speedX = 0.5] is moved by one [update] to [x = W + 0.4], beyond the
    edge and not clamped, with [speedX] flipped to [-0.5]; the next
    [update] moves it back to [W - 0.1]. *)
Theorem boundary_overshoot_then_reflect (W : R) (ch : jsnum) (p : t) :
  x p = Fin (W - 0.1) ->
  speedX p = Fin 0.5 ->
  let p1 := update mouse_null (Fin W) ch p in
  let p2 := update mouse_null (Fin W) ch p1 in
  x p1 = Fin (W + 0.4) /\
  speedX p1 = Fin (- 0.5) /\
  x p2 = Fin (W - 0.1) /\
  W - 0.1 < W + 0.4.
Proof.
  intros Hx Hv p1 p2.
  assert (H1 : x p1 = Fin (W + 0.4)).
  { unfold p1. rewrite update_null_x, Hx, Hv. simpl. apply Fin_eq. lra. }
  assert (H2 : speedX p1 = Fin (- 0.5)).
  { unfold p1. rewrite update_speedX, Hx, Hv. simpl.
    rewrite (Rltb_true W) by lra. rewrite orb_true_r.
    apply Fin_eq. lra. }
  repeat split; try assumption.
  - unfold p2. rewrite update_null_x, H1, H2. simpl. apply Fin_eq. lra.
  - lra.
Qed.

Lemma boundary_overshoot_then_reflect_witness :
  let p := particle_at (800 - 0.1) 300 0.5 0 in
  let p1 := update mouse_null (Fin 800) (Fin 600) p in
  let p2 := update mouse_null (Fin 800) (Fin 600) p1 in
  x p1 = Fin (800 + 0.4) /\
  speedX p1 = Fin (- 0.5) /\
  x p2 = Fin (800 - 0.1) /\
  800 - 0.1 < 800 + 0.4.
Proof.
  apply (boundary_overshoot_then_reflect 800 (Fin 600)
           (particle_at (800 - 0.1) 300 0.5 0)); reflexivity.
Defined.

End Reflection.

(** ** The pointer on the particle *)

Section Coincident.
Import GalaxyParticle.

(** When the pointer is exactly where the move has put the particle, the
    distance is 0, the test [distance < 200] passes and [dx / distance] is
    zero over zero: both coordinates become NaN. *)
Lemma update_coincident_pointer (cw ch : jsnum) (p : t) (a b va vb : R) :
  x p = Fin a -> y p = Fin b ->
  speedX p = Fin va -> speedY p = Fin vb ->
  x (update (mouse_at (a + va) (b + vb)) cw ch p) = NaN /\
  y (update (mouse_at (a + va) (b + vb)) cw ch p) = NaN.
Proof.
  intros Hx Hy Hvx Hvy.
  pose proof (update_position (mouse_at (a + va) (b + vb)) cw ch p) as H.
  rewrite Hx, Hy, Hvx, Hvy in H.
  unfold mouse_interaction, mouse_at in H; cbn [mouse_x mouse_y] in H.
  assert (Hd : forall c : R, (Fin c - (Fin c))%js = Fin 0).
  { intros c. simpl. apply Fin_eq. lra. }
  change (Fin a + Fin va)%js with (Fin (a + va)) in H.
  change (Fin b + Fin vb)%js with (Fin (b + vb)) in H.
  rewrite !Hd in H.
  rewrite norm_Fin in H.
  replace (0 * 0 + 0 * 0) with 0 in H by ring.
  rewrite sqrt_0 in H.
  cbn [lt] in H. rewrite Rltb_true in H by lra.
  rewrite div_zero_zero in H.
  cbn in H. unfold mouse_at.
  split; [exact (f_equal fst H) | exact (f_equal snd H)].
Qed.

(** C1. The code at a pointer coincident with the particle: a particle
    resting at (100, 100) updated with the pointer at (100, 100) on an
    800 x 600 surface ends with [x] and [y] both NaN; the interaction term
    is not skipped. *)
Theorem update_coincident_pointer_is_NaN :
  let p := update (mouse_at 100 100) (Fin 800) (Fin 600)
             (particle_at 100 100 0 0) in
  x p = NaN /\ y p = NaN.
Proof.
  cbv zeta.
  replace (mouse_at 100 100) with (mouse_at (100 + 0) (100 + 0)).
  - apply update_coincident_pointer; reflexivity.
  - unfold mouse_at. f_equal; f_equal; apply Fin_eq; lra.
Qed.

End Coincident.

(** ** The mouse interaction block on finite numbers *)

Section Pointer.
Import GalaxyParticle.

Lemma dist_nonneg (ax ay bx by_ : R) : 0 <= dist ax ay bx by_.
Proof. unfold dist. apply sqrt_pos. Qed.

Lemma dist_sqr (ax ay bx by_ : R) :
  dist ax ay bx by_ * dist ax ay bx by_ =
  (ax - bx) * (ax - bx) + (ay - by_) * (ay - by_).
Proof. unfold dist. apply sqrt_sqrt. apply sum_squares_nonneg. Qed.

(** The distance the block computes is [dist]. *)
Lemma interaction_distance (mx my x1 y1 : R) :
  Math_sqrt ((Fin mx - Fin x1) * (Fin mx - Fin x1)
             + (Fin my - Fin y1) * (Fin my - Fin y1))%js
  = Fin (dist mx my x1 y1).
Proof.
  unfold sub; cbn [neg add]. rewrite norm_Fin. reflexivity.
Qed.

(** Beyond the interaction radius the position is left alone. *)
Lemma mouse_interaction_far (mx my x1 y1 : R) :
  200 <= dist mx my x1 y1 ->
  mouse_interaction (mouse_at mx my) (Fin x1) (Fin y1) = (Fin x1, Fin y1).
Proof.
  intros Hd. unfold mouse_interaction, mouse_at; cbn [mouse_x mouse_y].
  rewrite interaction_distance. cbn [lt].
  rewrite Rltb_false by assumption. reflexivity.
Qed.

(** Inside the radius and off the pointer, the displacement is
    [(dx / d) * force * 2] with [force = (200 - d) / 200]. *)
Lemma mouse_interaction_near (mx my x1 y1 : R) :
  0 < dist mx my x1 y1 < 200 ->
  mouse_interaction (mouse_at mx my) (Fin x1) (Fin y1) =
  (Fin (x1 + (mx - x1) / dist mx my x1 y1
               * ((200 - dist mx my x1 y1) / 200) * 2),
   Fin (y1 + (my - y1) / dist mx my x1 y1
               * ((200 - dist mx my x1 y1) / 200) * 2)).
Proof.
  intros [Hpos Hlt]. unfold mouse_interaction, mouse_at; cbn [mouse_x mouse_y].
  rewrite interaction_distance. cbn [lt].
  rewrite Rltb_true by assumption.
  set (d := dist mx my x1 y1) in *.
  assert (Hf : ((Fin 200 - Fin d) / Fin 200)%js = Fin ((200 - d) / 200)).
  { unfold sub; cbn [neg add]. rewrite div_Fin by lra. reflexivity. }
  rewrite Hf.
  assert (Hq : forall a b : R,
             ((Fin a - Fin b) / Fin d)%js = Fin ((a - b) / d)).
  { intros a b. unfold sub; cbn [neg add].
    rewrite div_Fin by lra. reflexivity. }
  rewrite !Hq. reflexivity.
Qed.

(** On the pointer the block divides zero by zero. *)
Lemma mouse_interaction_on (mx my x1 y1 : R) :
  mx = x1 -> my = y1 ->
  mouse_interaction (mouse_at mx my) (Fin x1) (Fin y1) = (NaN, NaN).
Proof.
  intros -> ->. unfold mouse_interaction, mouse_at; cbn [mouse_x mouse_y].
  rewrite interaction_distance.
  assert (Hd : dist x1 y1 x1 y1 = 0).
  { unfold dist. replace (_ + _) with 0 by ring. apply sqrt_0. }
  rewrite Hd. cbn [lt]. rewrite Rltb_true by lra.
  assert (Hz : forall c : R, (Fin c - Fin c)%js = Fin 0).
  { intros c. simpl. apply Fin_eq. lra. }
  rewrite !Hz, div_zero_zero. reflexivity.
Qed.

(** The distance to the pointer after the displacement: the particle is
    carried along the line to the pointer by [2 * force]. *)
Lemma dist_after_interaction (mx my x1 y1 : R) :
  let d := dist mx my x1 y1 in
  let f := (200 - d) / 200 in
  0 < d ->
  dist mx my (x1 + (mx - x1) / d * f * 2) (y1 + (my - y1) / d * f * 2)
  = Rabs (d - 2 * f).
Proof.
  intros d f Hd.
  pose proof (dist_sqr mx my x1 y1) as Hsq. fold d in Hsq.
  unfold dist at 1.
  rewrite <- sqrt_Rsqr_abs. f_equal. unfold Rsqr.
  replace (mx - (x1 + (mx - x1) / d * f * 2))
    with ((mx - x1) * ((d - 2 * f) / d)) by (field; lra).
  replace (my - (y1 + (my - y1) / d * f * 2))
    with ((my - y1) * ((d - 2 * f) / d)) by (field; lra).
  transitivity (((mx - x1) * (mx - x1) + (my - y1) * (my - y1))
                * (((d - 2 * f) / d) * ((d - 2 * f) / d))); [ring |].
  rewrite <- Hsq. field. lra.
Qed.


Lemma dist_horizontal (ax ay bx : R) : bx <= ax -> dist ax ay bx ay = ax - bx.
Proof.
  intros H. unfold dist.
  replace (_ + _) with ((ax - bx) * (ax - bx)) by ring.
  apply sqrt_square. lra.
Qed.



End Pointer.

(** ** Flight with the pointer away *)

Section Flight.
Import GalaxyParticle.

(** One step of one axis: move, then flip the velocity when the coordinate
    is outside the segment. *)
Lemma axis_step (L s : R) (pos v : jsnum) :
  0 <= L ->
  axis_inv L s pos v ->
  axis_inv L s (pos + v)%js
    (if ((pos + v) <? Fin 0)%js || ((pos + v) >? Fin L)%js
     then (v * Fin (-1))%js else v).
Proof.
  intros HL (a & va & -> & -> & Hs & Hrange & Hlo & Hhi).
  cbn [add lt gt mul].
  assert (Hs0 : 0 <= s) by (rewrite <- Hs; apply Rabs_pos).
  assert (Hva : va = s \/ va = - s).
  { unfold Rabs in Hs. destruct (Rcase_abs va); [right | left]; lra. }
  assert (Hflip : Rabs (va * -1) = s).
  { replace (va * -1) with (- va) by ring. rewrite Rabs_Ropp. exact Hs. }
  assert (Hin : a < 0 /\ va = s \/ L < a /\ va = - s \/ 0 <= a <= L).
  { destruct (Rlt_dec a 0) as [Ha | Ha]; [left; split; auto |].
    destruct (Rlt_dec L a) as [Hb | Hb]; [right; left; split; auto |].
    right; right; lra. }
  clear Hlo Hhi.
  destruct (Rlt_dec (a + va) 0) as [Hneg | Hnneg].
  - rewrite (Rltb_true (a + va) 0) by assumption. cbn [orb].
    exists (a + va), (va * -1).
    split; [reflexivity |]. split; [reflexivity |]. split; [exact Hflip |].
    repeat split; intros; lra.
  - rewrite (Rltb_false (a + va) 0) by lra. cbn [orb].
    destruct (Rlt_dec L (a + va)) as [Hbig | Hnbig].
    + rewrite (Rltb_true L (a + va)) by assumption.
      exists (a + va), (va * -1).
      split; [reflexivity |]. split; [reflexivity |]. split; [exact Hflip |].
      repeat split; intros; lra.
    + rewrite (Rltb_false L (a + va)) by lra.
      exists (a + va), va.
      split; [reflexivity |]. split; [reflexivity |]. split; [exact Hs |].
      repeat split; intros; lra.
Qed.

(** [update] with a null pointer keeps a particle in flight. *)
Lemma flight_step (W H smax : R) (p0 p : t) :
  0 <= W -> 0 <= H ->
  flight_inv W H smax p0 p ->
  flight_inv W H smax p0 (update mouse_null (Fin W) (Fin H) p).
Proof.
  intros HW HH (sx & sy & Hsx & Hsy & Hbx & Hby & Hx & Hy).
  exists sx, sy. repeat split; try assumption.
  - rewrite update_null_x, update_speedX. apply axis_step; assumption.
  - rewrite update_null_y, update_speedY. apply axis_step; assumption.
Qed.

(** A freshly drawn particle is in flight. *)
Lemma flight_start (W H : R) (p : t) :
  initial_draw W H p -> flight_inv W H 0.25 p p.
Proof.
  intros (a & b & va & vb & Hx & Hy & Hvx & Hvy & Ha & Hb & Hva & Hvb).
  exists (Rabs va), (Rabs vb).
  rewrite Hx, Hy, Hvx, Hvy. cbn [Math_abs].
  assert (Rabs va <= 0.25) by (apply Rabs_le; lra).
  assert (Rabs vb <= 0.25) by (apply Rabs_le; lra).
  pose proof (Rabs_pos va). pose proof (Rabs_pos vb).
  repeat split; try assumption.
  - exists a, va. repeat split; try lra.
  - exists b, vb. repeat split; try lra.
Qed.

(** A particle in flight with speeds of at most 0.25 is within one unit of
    the surface and has the speed magnitudes it started with. *)
Lemma flight_within_margin (W H : R) (p0 p : t) :
  flight_inv W H 0.25 p0 p -> within_margin W H p0 p.
Proof.
  intros (sx & sy & Hsx & Hsy & Hbx & Hby & Hx & Hy).
  destruct Hx as (a & va & Hx & Hvx & Hsa & Hra & _).
  destruct Hy as (b & vb & Hy & Hvy & Hsb & Hrb & _).
  split; [| split].
  - exists a, b. repeat split; try assumption; lra.
  - rewrite Hsx, Hvx. cbn [Math_abs]. apply Fin_eq. exact Hsa.
  - rewrite Hsy, Hvy. cbn [Math_abs]. apply Fin_eq. exact Hsb.
Qed.

End Flight.

(** ** The field with the pointer away *)

Section Field.
Import GalaxyBackground.

(** [update()] on a field whose canvas is resolved. *)
Lemma update_resolved (h : Host) (g : t) (c : HTMLCanvasElement) :
  canvas g = Some c ->
  update (h, g) =
  Some (h, set_particles
             (map (GalaxyParticle.update (mouse g)
                     (N2js (width c)) (N2js (height c)))
                (particles g)) g).
Proof.
  intros Hc. unfold update. rewrite Hc.
  destruct g as [cv cx ps n m a i]; cbn in *.
  destruct ps; reflexivity.
Qed.

Lemma Forall2_map_right {A B : Type} (R : A -> B -> Prop) (f : B -> B)
    (l : list A) (l' : list B) :
  (forall a b, R a b -> R a (f b)) ->
  Forall2 R l l' -> Forall2 R l (map f l').
Proof.
  intros Hf HR. induction HR; cbn; constructor; auto.
Qed.

Lemma Forall2_weaken {A B : Type} (R R' : A -> B -> Prop)
    (l : list A) (l' : list B) :
  (forall a b, R a b -> R' a b) ->
  Forall2 R l l' -> Forall2 R' l l'.
Proof.
  intros Hf HR. induction HR; constructor; auto.
Qed.

Lemma Forall2_diag {A : Type} (R : A -> A -> Prop) (P : A -> Prop)
    (l : list A) :
  (forall a, P a -> R a a) -> Forall P l -> Forall2 R l l.
Proof.
  intros Hf HP. induction HP; constructor; auto.
Qed.

(** Any number of updates with the pointer null keeps every particle in
    flight; the call never throws. *)
Lemma update_steps_flight (n : nat) (h : Host) (c : HTMLCanvasElement)
    (smax : R) (ps0 : list GalaxyParticle.t) :
  forall g : t,
    canvas g = Some c ->
    mouse g = mouse_null ->
    Forall2 (flight_inv (IZR (Z.of_N (width c))) (IZR (Z.of_N (height c))) smax)
      ps0 (particles g) ->
    exists g' : t,
      update_steps n (h, g) = Some (h, g') /\
      Forall2
        (flight_inv (IZR (Z.of_N (width c))) (IZR (Z.of_N (height c))) smax)
        ps0 (particles g').
Proof.
  induction n as [| n IH]; intros g Hc Hm Hinv.
  - exists g. split; [reflexivity | assumption].
  - cbn [update_steps]. rewrite (update_resolved h g c Hc), Hm.
    apply IH.
    + destruct g; assumption.
    + destruct g; assumption.
    + destruct g as [cv cx ps k m a i]; cbn in *.
      apply Forall2_map_right; [| assumption].
      intros p0 p Hp. apply flight_step; try assumption;
        apply IZR_le, N2Z.is_nonneg.
Qed.

(** C5. On an 800 x 600 surface with 200 particles drawn inside the surface
    with speeds in [-0.25, 0.25] and the pointer null, 60 updates succeed
    and leave every particle within [-1, 801] x [-1, 601] with the speed
    magnitudes it started with. *)
Theorem sixty_steps_within_margin (h : Host) (g : t) (c : HTMLCanvasElement) :
  canvas g = Some c ->
  width c = 800%N -> height c = 600%N ->
  mouse g = mouse_null ->
  List.length (particles g) = 200%nat ->
  Forall (initial_draw 800 600) (particles g) ->
  exists g' : t,
    update_steps 60 (h, g) = Some (h, g') /\
    List.length (particles g') = 200%nat /\
    Forall2 (within_margin 800 600) (particles g) (particles g').
Proof.
  intros Hc Hw Hh Hm Hlen Hinit.
  destruct (update_steps_flight 60 h c 0.25 (particles g) g Hc Hm)
    as (g' & Hrun & Hinv).
  { rewrite Hw, Hh. change (IZR (Z.of_N 800)) with 800.
    change (IZR (Z.of_N 600)) with 600.
    apply (Forall2_diag _ (initial_draw 800 600)); [| assumption].
    intros p Hp. apply flight_start. exact Hp. }
  exists g'. split; [exact Hrun |].
  rewrite Hw, Hh in Hinv.
  change (IZR (Z.of_N 800)) with 800 in Hinv.
  change (IZR (Z.of_N 600)) with 600 in Hinv.
  split.
  - rewrite <- (Forall2_length Hinv). exact Hlen.
  - apply (Forall2_weaken (flight_inv 800 600 0.25)); [| assumption].
    intros p0 p. apply flight_within_margin.
Qed.

Lemma sixty_steps_within_margin_witness :
  exists g' : t,
    update_steps 60 (host_idle, field_200) = Some (host_idle, g') /\
    List.length (particles g') = 200%nat /\
    Forall2 (within_margin 800 600) (particles field_200) (particles g').
Proof.
  apply (sixty_steps_within_margin host_idle field_200 canvas_800_600);
    try reflexivity.
  apply Forall_forall. intros p Hp.
  apply repeat_spec in Hp. subst p.
  exists 799.9, 0.1, 0.25, (- 0.25).
  repeat split; try reflexivity; lra.
Defined.

End Field.

(** ** The connection pass *)

Lemma pow_1023_large : 150 <= 2 ^ 1023.
Proof.
  replace (2 ^ 1023) with (2 ^ 8 * 2 ^ 1015)
    by (rewrite <- pow_add; reflexivity).
  assert (H : 1 <= 2 ^ 1015) by (apply pow_R1_Rle; lra).
  assert (H8 : 2 ^ 8 = 256) by (simpl; lra).
  rewrite H8. nra.
Qed.

Ltac small_result :=
  rewrite Rabs_pos_eq by lra; pose proof pow_1023_large; lra.

Section Connections.
Import GalaxyBackground.

(** A line produced at [(i, j)] carries these indices. *)
Lemma connection_indices (ps : list GalaxyParticle.t) (i j : nat) (l : Line) :
  In l (connection ps i j) -> line_i l = i /\ line_j l = j.
Proof.
  unfold connection.
  destruct (nth_error ps i); [| intros []].
  destruct (nth_error ps j); [| intros []].
  destruct (_ <? _)%js; [| intros []].
  intros [<- | []]. split; reflexivity.
Qed.

(** The two loops visit exactly the pairs [i < j < length]. *)
Lemma in_connections (ps : list GalaxyParticle.t) (l : Line) :
  In l (connections ps) <->
  (line_i l < line_j l < List.length ps)%nat /\
  In l (connection ps (line_i l) (line_j l)).
Proof.
  unfold connections. rewrite in_flat_map. split.
  - intros (i & Hi & Hl). apply in_flat_map in Hl. destruct Hl as (j & Hj & Hl).
    destruct (connection_indices ps i j l Hl) as [-> ->].
    apply in_seq in Hi. apply in_seq in Hj. split; [lia | exact Hl].
  - intros [Hij Hl]. exists (line_i l). split.
    + apply in_seq. lia.
    + apply in_flat_map. exists (line_j l). split; [| exact Hl].
      apply in_seq. lia.
Qed.

(** The body of the inner loop on two particles with finite positions. *)
Lemma connection_finite (ps : list GalaxyParticle.t) (i j : nat)
    (pi pj : GalaxyParticle.t) (a b c d : R) :
  nth_error ps i = Some pi -> nth_error ps j = Some pj ->
  GalaxyParticle.x pi = Fin a -> GalaxyParticle.y pi = Fin b ->
  GalaxyParticle.x pj = Fin c -> GalaxyParticle.y pj = Fin d ->
  connection ps i j =
  if Rltb (dist a b c d) 150
  then [ {| line_i := i; line_j := j;
            line_from := (Fin a, Fin b); line_to := (Fin c, Fin d);
            line_opacity := Fin (opacity_at (dist a b c d)) |} ]
  else [].
Proof.
  intros Hi Hj Ha Hb Hc Hd. unfold connection.
  rewrite Hi, Hj, Ha, Hb, Hc, Hd.
  rewrite interaction_distance. cbn [lt].
  destruct (Rltb (dist a b c d) 150); [| reflexivity].
  rewrite div_Fin by lra. reflexivity.
Qed.

(** The rounding that does nothing. *)
Lemma round_exact (a : jsnum) : Rounded.round exact a = a.
Proof. destruct a; reflexivity. Qed.

Lemma exact_to_nearest : to_nearest exact.
Proof.
  split; cbn [rd fits exact].
  - intros a b H. exact H.
  - reflexivity.
  - reflexivity.
  - intros a _. replace (a - a) with 0 by ring. rewrite Rabs_R0.
    apply Rmult_le_pos; [apply Rabs_pos |].
    apply Rlt_le, Rinv_0_lt_compat, pow_lt. lra.
  - reflexivity.
Qed.

(** A result of small magnitude is rounded, without overflow. *)
Lemma round_small (F : Rounding) (r : R) :
  to_nearest F -> Rabs r <= 2 ^ 1023 ->
  Rounded.round F (Fin r) = Fin (rd F r).
Proof.
  intros HF Hr. unfold Rounded.round. rewrite (fits_range F HF r Hr).
  reflexivity.
Qed.

Lemma rd_0 (F : Rounding) : to_nearest F -> rd F 0 = 0.
Proof. intros HF. apply (rd_int F HF 0). cbn. lia. Qed.

Lemma rd_1 (F : Rounding) : to_nearest F -> rd F 1 = 1.
Proof. intros HF. apply (rd_int F HF 1). cbn. lia. Qed.

(** A rounding to nearest keeps a number between two integers between
    them. *)
Lemma rd_between (F : Rounding) (lo hi : Z) (r : R) :
  to_nearest F ->
  (Z.abs lo <= 2 ^ 53)%Z -> (Z.abs hi <= 2 ^ 53)%Z ->
  IZR lo <= r <= IZR hi -> IZR lo <= rd F r <= IZR hi.
Proof.
  intros HF Hlo Hhi [H1 H2]. split.
  - rewrite <- (rd_int F HF lo Hlo). apply (rd_mono F HF). exact H1.
  - rewrite <- (rd_int F HF hi Hhi). apply (rd_mono F HF). exact H2.
Qed.

Lemma flat_map_map {A B C : Type} (f : B -> list C) (g : A -> B)
    (l : list A) :
  flat_map f (map g l) = flat_map (fun a => f (g a)) l.
Proof.
  induction l as [| a l IH]; cbn [map flat_map].
  - reflexivity.
  - rewrite IH. reflexivity.
Qed.

Lemma flat_map_flat_map {A B C : Type} (f : B -> list C) (g : A -> list B)
    (l : list A) :
  flat_map f (flat_map g l) = flat_map (fun a => flat_map f (g a)) l.
Proof.
  induction l as [| a l IH]; cbn [flat_map].
  - reflexivity.
  - rewrite flat_map_app, IH. reflexivity.
Qed.

(** One row of the inner loop: the indices from the end of [pre] on visit
    the elements of [l] in order. *)
Lemma row_from {A C : Type} (f : A -> list C) :
  forall l pre : list A,
    flat_map
      (fun j => match nth_error (pre ++ l) j with
                | Some q => f q
                | None => []
                end)
      (seq (List.length pre) (List.length l))
    = flat_map f l.
Proof.
  induction l as [| a l IH]; intros pre.
  - reflexivity.
  - cbn [List.length seq flat_map].
    rewrite nth_error_app2 by lia. rewrite Nat.sub_diag. cbn [nth_error].
    f_equal.
    replace (pre ++ a :: l) with ((pre ++ [a]) ++ l)
      by (rewrite <- app_assoc; reflexivity).
    replace (S (List.length pre)) with (List.length (pre ++ [a]))
      by (rewrite length_app; cbn; lia).
    apply IH.
Qed.

(** The two loops, [i] from the end of [pre] and [j] from [i + 1], visit
    the unordered pairs of [l], the earlier element first. *)
Lemma loops_from {A C : Type} (f : A -> A -> list C) :
  forall l pre : list A,
    flat_map
      (fun i =>
         flat_map
           (fun j => match nth_error (pre ++ l) i, nth_error (pre ++ l) j with
                     | Some p, Some q => f p q
                     | _, _ => []
                     end)
           (seq (i + 1) (List.length (pre ++ l) - (i + 1))))
      (seq (List.length pre) (List.length l))
    = flat_map (fun pq => f (fst pq) (snd pq)) (unordered_pairs l).
Proof.
  induction l as [| a l IH]; intros pre.
  - reflexivity.
  - cbn [List.length seq flat_map unordered_pairs].
    rewrite flat_map_app, flat_map_map. cbn [fst snd].
    f_equal.
    + rewrite (flat_map_ext _
                 (fun j => match nth_error (pre ++ a :: l) j with
                           | Some q => f a q
                           | None => []
                           end)).
      * replace (pre ++ a :: l) with ((pre ++ [a]) ++ l)
          by (rewrite <- app_assoc; reflexivity).
        replace (List.length pre + 1)%nat with (List.length (pre ++ [a]))
          by (rewrite length_app; cbn; lia).
        replace (List.length ((pre ++ [a]) ++ l) - List.length (pre ++ [a]))%nat
          with (List.length l) by (rewrite !length_app; cbn; lia).
        apply row_from.
      * intros j. rewrite (nth_error_app2 pre (a :: l)) by lia.
        rewrite Nat.sub_diag. reflexivity.
    + replace (pre ++ a :: l) with ((pre ++ [a]) ++ l)
        by (rewrite <- app_assoc; reflexivity).
      replace (S (List.length pre)) with (List.length (pre ++ [a]))
        by (rewrite length_app; cbn; lia).
      apply IH.
Qed.

(** The connection pass strokes the lines of its specification, in the
    order of the unordered pairs. *)
Lemma drawConnections_pass (F : Rounding) (ps : list GalaxyParticle.t) :
  Rounded.drawConnections F ps = connection_pass F ps.
Proof.
  unfold Rounded.drawConnections, connection_pass.
  exact (loops_from
           (fun p q =>
              if (computed_distance F p q <? Fin 150)%js
              then stroke_between p q
                     (computed_opacity F (computed_distance F p q))
              else [])
           ps []).
Qed.

(** The unordered pairs of a list are the pairs of its elements at
    increasing indices. *)
Lemma in_unordered_pairs {A : Type} (l : list A) (p q : A) :
  In (p, q) (unordered_pairs l) <->
  exists i j : nat,
    (i < j)%nat /\ nth_error l i = Some p /\ nth_error l j = Some q.
Proof.
  induction l as [| a l IH]; cbn [unordered_pairs].
  - split; [intros [] |].
    intros (i & j & _ & Hi & _). destruct i; discriminate.
  - rewrite in_app_iff, in_map_iff, IH. split.
    + intros [(q' & Heq & Hin) | (i & j & Hij & Hi & Hj)].
      * injection Heq as <- <-.
        apply In_nth_error in Hin. destruct Hin as (j & Hj).
        exists 0%nat, (S j). split; [lia |]. split; [reflexivity | exact Hj].
      * exists (S i), (S j). split; [lia |]. split; assumption.
    + intros (i & j & Hij & Hi & Hj).
      destruct j as [| j]; [lia |]. cbn [nth_error] in Hj.
      destruct i as [| i].
      * cbn [nth_error] in Hi. injection Hi as <-.
        left. exists q. split; [reflexivity |].
        exact (nth_error_In _ _ Hj).
      * right. exists i, j. split; [lia |]. split; assumption.
Qed.

Lemma length_unordered_pairs {A : Type} (l : list A) :
  (2 * List.length (unordered_pairs l)
   = List.length l * (List.length l - 1))%nat.
Proof.
  induction l as [| a l IH]; cbn [unordered_pairs List.length].
  - reflexivity.
  - rewrite length_app, length_map.
    replace (S (List.length l) - 1)%nat with (List.length l) by lia.
    destruct (List.length l) as [| m]; [cbn in *; lia |].
    replace (S m - 1)%nat with m in IH by lia. nia.
Qed.

Lemma pow2_53 : 2 ^ 53 = 9007199254740992.
Proof. rewrite pow_IZR. reflexivity. Qed.

Lemma pow2_20 : 2 ^ 20 = 1048576.
Proof. rewrite pow_IZR. reflexivity. Qed.

(** The unit roundoff and the smallest normal number are tiny. *)
Lemma tiny_constants :
  0 < / 2 ^ 53 <= 1.2e-16 /\ 0 < / 2 ^ 1022 <= 1.2e-16.
Proof.
  assert (H53 : 0 < / 2 ^ 53 <= 1.2e-16).
  { rewrite pow2_53. split; [apply Rinv_0_lt_compat; lra |].
    apply Rmult_le_reg_l with 9007199254740992; [lra |].
    rewrite Rinv_r by lra. lra. }
  split; [exact H53 |].
  assert (Hle : 2 ^ 53 <= 2 ^ 1022) by (apply Rle_pow; [lra | lia]).
  assert (Hpos : 0 < 2 ^ 53) by (apply pow_lt; lra).
  split; [apply Rinv_0_lt_compat; lra |].
  apply Rle_trans with (/ 2 ^ 53); [| apply H53].
  apply Rinv_le_contravar; assumption.
Qed.

Lemma Rabs_bound (x y : R) : Rabs x <= y -> - y <= x <= y.
Proof. unfold Rabs. destruct (Rcase_abs x); lra. Qed.

(** The error of a rounding to nearest on any real: relative on the normal
    numbers, absolute below them. *)
Lemma rd_close (F : Rounding) (x : R) :
  to_nearest F ->
  Rabs (rd F x - x) <= Rabs x / 2 ^ 53 + 2 / 2 ^ 1022.
Proof.
  intros HF.
  destruct tiny_constants as [[He0 He] [Hn0 Hn]].
  set (eta := / 2 ^ 1022) in *.
  assert (Habs : 0 <= Rabs x / 2 ^ 53).
  { apply Rmult_le_pos; [apply Rabs_pos | lra]. }
  destruct (Rle_dec eta (Rabs x)) as [Hbig | Hsmall].
  - pose proof (rd_err F HF x Hbig). unfold Rdiv in *. lra.
  - assert (Hx : - eta < x < eta).
    { apply Rnot_le_lt in Hsmall. apply Rabs_def2 in Hsmall. lra. }
    assert (Heta : eta <= Rabs eta) by (rewrite Rabs_pos_eq; lra).
    assert (Hmeta : eta <= Rabs (- eta))
      by (rewrite Rabs_Ropp, Rabs_pos_eq; lra).
    pose proof (rd_err F HF eta Heta) as E1.
    pose proof (rd_err F HF (- eta) Hmeta) as E2.
    rewrite (Rabs_pos_eq eta) in E1 by lra.
    rewrite (Rabs_Ropp eta), (Rabs_pos_eq eta) in E2 by lra.
    pose proof (rd_mono F HF x eta (Rlt_le _ _ (proj2 Hx))) as M1.
    pose proof (rd_mono F HF (- eta) x (Rlt_le _ _ (proj1 Hx))) as M2.
    assert (E1' : rd F eta <= eta + eta / 2 ^ 53).
    { apply Rabs_bound in E1. lra. }
    assert (E2' : - eta - eta / 2 ^ 53 <= rd F (- eta)).
    { apply Rabs_bound in E2. lra. }
    assert (Hs : eta / 2 ^ 53 <= eta).
    { unfold Rdiv. nra. }
    pose proof (rd_0 F HF) as H0.
    apply Rabs_le. unfold Rdiv in *. fold eta.
    destruct (Rle_dec 0 x) as [Hpos | Hneg].
    + pose proof (rd_mono F HF 0 x Hpos). lra.
    + apply Rnot_le_lt in Hneg.
      pose proof (rd_mono F HF x 0 (Rlt_le _ _ Hneg)). lra.
Qed.

(** The error of a rounding to nearest on a real of magnitude at most
    [M]. *)
Lemma rd_within (F : Rounding) (x M : R) :
  to_nearest F -> Rabs x <= M ->
  x - (M * 1.2e-16 + 3e-16) <= rd F x <= x + (M * 1.2e-16 + 3e-16).
Proof.
  intros HF HM.
  destruct tiny_constants as [[He0 He] [Hn0 Hn]].
  pose proof (rd_close F x HF) as Hc. apply Rabs_bound in Hc.
  pose proof (Rabs_pos x) as Hx0.
  assert (H1 : Rabs x / 2 ^ 53 <= M * 1.2e-16).
  { unfold Rdiv. nra. }
  assert (H2 : 2 / 2 ^ 1022 <= 3e-16) by (unfold Rdiv; lra).
  lra.
Qed.

Lemma fits_small (F : Rounding) (r : R) :
  to_nearest F -> Rabs r <= 2 ^ 47 ->
  Rounded.round F (Fin r) = Fin (rd F r).
Proof.
  intros HF Hr. apply round_small; [exact HF |].
  apply Rle_trans with (2 ^ 47); [exact Hr |].
  apply Rle_pow; [lra | lia].
Qed.

Lemma pow2_47 : 2 ^ 47 = 140737488355328.
Proof. rewrite pow_IZR. reflexivity. Qed.

(** The distance of two particles with coordinates of magnitude up to 2^20,
    as computed: it is below 150 when their Euclidean distance is at most
    149.999, and it is not when that is at least 150.001. *)
Lemma computed_distance_margin (F : Rounding) (p q : GalaxyParticle.t)
    (a b c d : R) :
  to_nearest F ->
  GalaxyParticle.x p = Fin a -> GalaxyParticle.y p = Fin b ->
  GalaxyParticle.x q = Fin c -> GalaxyParticle.y q = Fin d ->
  Rabs a <= 2 ^ 20 -> Rabs b <= 2 ^ 20 ->
  Rabs c <= 2 ^ 20 -> Rabs d <= 2 ^ 20 ->
  exists dc : R,
    computed_distance F p q = Fin dc /\
    (dist a b c d <= 149.999 -> dc < 150) /\
    (150.001 <= dist a b c d -> 150 <= dc).
Proof.
  intros HF Ha Hb Hc Hd Ba Bb Bc Bd.
  rewrite pow2_20 in Ba, Bb, Bc, Bd.
  apply Rabs_bound in Ba, Bb, Bc, Bd.
  unfold computed_distance. rewrite Ha, Hb, Hc, Hd.
  unfold Rounded.sub. cbn [JsNum.sub JsNum.add JsNum.neg].
  fold (a - c). fold (b - d).
  set (dx := a - c). set (dy := b - d).
  assert (Bdx : Rabs dx <= 2097152) by (apply Rabs_le; unfold dx; lra).
  assert (Bdy : Rabs dy <= 2097152) by (apply Rabs_le; unfold dy; lra).
  rewrite (fits_small F dx HF) by (rewrite pow2_47; lra).
  rewrite (fits_small F dy HF) by (rewrite pow2_47; lra).
  pose proof (rd_within F dx _ HF Bdx) as Eu.
  pose proof (rd_within F dy _ HF Bdy) as Ev.
  set (u := rd F dx) in *. set (v := rd F dy) in *.
  apply Rabs_bound in Bdx, Bdy.
  unfold Rounded.mul. cbn [JsNum.mul].
  assert (Buu : Rabs (u * u) <= 4500000000000).
  { apply Rabs_le. nra. }
  assert (Bvv : Rabs (v * v) <= 4500000000000).
  { apply Rabs_le. nra. }
  rewrite (fits_small F (u * u) HF) by (rewrite pow2_47; lra).
  rewrite (fits_small F (v * v) HF) by (rewrite pow2_47; lra).
  pose proof (rd_within F (u * u) _ HF Buu) as Ep.
  pose proof (rd_within F (v * v) _ HF Bvv) as Eq.
  set (pp := rd F (u * u)) in *. set (qq := rd F (v * v)) in *.
  assert (Duu : - 0.0045 <= u * u - dx * dx <= 0.0045).
  { replace (u * u - dx * dx) with ((u - dx) * (u + dx)) by ring. nra. }
  assert (Dvv : - 0.0045 <= v * v - dy * dy <= 0.0045).
  { replace (v * v - dy * dy) with ((v - dy) * (v + dy)) by ring. nra. }
  apply Rabs_bound in Buu, Bvv.
  unfold Rounded.add. cbn [JsNum.add].
  assert (Bs : Rabs (pp + qq) <= 9100000000000).
  { apply Rabs_le. lra. }
  rewrite (fits_small F (pp + qq) HF) by (rewrite pow2_47; lra).
  pose proof (rd_within F (pp + qq) _ HF Bs) as Es.
  set (s := rd F (pp + qq)) in *.
  assert (Hs : - 0.012 <= s - (dx * dx + dy * dy) <= 0.012) by lra.
  assert (Hs0 : 0 <= s).
  { unfold s. rewrite <- (rd_0 F HF). apply (rd_mono F HF).
    assert (0 <= pp).
    { unfold pp. rewrite <- (rd_0 F HF). apply (rd_mono F HF). nra. }
    assert (0 <= qq).
    { unfold qq. rewrite <- (rd_0 F HF). apply (rd_mono F HF). nra. }
    lra. }
  unfold Rounded.Math_sqrt. cbn [JsNum.Math_sqrt].
  rewrite Rltb_false by exact Hs0.
  assert (Bsq : 0 <= sqrt s <= 9100000000000).
  { split; [apply sqrt_pos |].
    apply Rabs_bound in Bs.
    destruct (Rle_dec s 1) as [H1 | H1].
    - apply Rle_trans with (sqrt 1); [apply sqrt_le_1_alt; exact H1 |].
      rewrite sqrt_1. lra.
    - apply Rnot_le_lt in H1.
      apply Rle_trans with s; [| lra].
      rewrite <- (sqrt_square s) at 2 by lra.
      apply sqrt_le_1_alt. nra. }
  rewrite (fits_small F (sqrt s) HF)
    by (rewrite pow2_47, Rabs_pos_eq; lra).
  exists (rd F (sqrt s)). split; [reflexivity |].
  assert (HS : dist a b c d * dist a b c d = dx * dx + dy * dy).
  { unfold dist. fold dx dy. apply sqrt_sqrt. nra. }
  assert (HD0 : 0 <= dist a b c d) by (unfold dist; apply sqrt_pos).
  split.
  - intros Hnear.
    assert (Hsum : dx * dx + dy * dy <= 22499.700001) by nra.
    assert (Hroot : sqrt s <= 149.9995).
    { apply Rle_trans with (sqrt (149.9995 * 149.9995)).
      - apply sqrt_le_1_alt. lra.
      - rewrite sqrt_square by lra. lra. }
    assert (Babs : Rabs (sqrt s) <= 150)
      by (rewrite Rabs_pos_eq; lra).
    pose proof (rd_within F (sqrt s) _ HF Babs). lra.
  - intros Hfar.
    assert (Hsum : 22500.3 <= dx * dx + dy * dy) by nra.
    rewrite <- (rd_int F HF 150) by (cbn; lia). apply (rd_mono F HF).
    apply Rle_trans with (sqrt (150 * 150)).
    + rewrite sqrt_square by lra. lra.
    + apply sqrt_le_1_alt. lra.
Qed.

(** The opacity of a line of length [d], in double precision. *)
Lemma computed_opacity_Fin (F : Rounding) (d : R) :
  to_nearest F -> 0 <= d <= 150 ->
  computed_opacity F (Fin d)
  = Fin (rd F (rd F (1 - rd F (d / 150)) * rd F 0.3)) /\
  0 <= rd F (d / 150) <= 1 /\
  0 <= rd F (1 - rd F (d / 150)) <= 1 /\
  0 <= rd F 0.3 <= 1.
Proof.
  intros HF Hd.
  assert (Hq : 0 <= d / 150 <= 1) by (split; lra).
  assert (Hrq : 0 <= rd F (d / 150) <= 1).
  { apply (rd_between F 0 1 _ HF); [cbn; lia | cbn; lia | exact Hq]. }
  assert (Hry : 0 <= rd F (1 - rd F (d / 150)) <= 1).
  { apply (rd_between F 0 1 _ HF); [cbn; lia | cbn; lia | lra]. }
  assert (Hc : 0 <= rd F 0.3 <= 1).
  { apply (rd_between F 0 1 _ HF); [cbn; lia | cbn; lia | lra]. }
  split; [| split; [| split]]; try assumption.
  unfold computed_opacity, Rounded.mul, Rounded.sub, Rounded.div,
    Rounded.lit.
  rewrite div_Fin by lra.
  rewrite (round_small F (d / 150) HF) by small_result.
  cbn [JsNum.sub JsNum.add JsNum.neg].
  rewrite (round_small F (1 + - rd F (d / 150)) HF)
    by (fold (1 - rd F (d / 150)); small_result).
  rewrite (round_small F 0.3 HF) by small_result.
  cbn [JsNum.mul].
  fold (1 - rd F (d / 150)).
  rewrite (round_small F _ HF); [reflexivity |].
  rewrite Rabs_pos_eq by nra. pose proof pow_1023_large. nra.
Qed.

(** Under exact arithmetic the rounded pass is the pass over [JsNum]. *)
Lemma drawConnections_exact (ps : list GalaxyParticle.t) :
  Rounded.drawConnections exact ps = drawConnections ps.
Proof.
  unfold drawConnections, connections, Rounded.drawConnections.
  rewrite flat_map_flat_map. apply flat_map_ext. intros i.
  rewrite flat_map_flat_map. apply flat_map_ext. intros j.
  unfold connection, Rounded.Math_sqrt, Rounded.add, Rounded.mul,
    Rounded.sub, Rounded.div, Rounded.lit.
  rewrite !round_exact.
  destruct (nth_error ps i) as [pi |]; [| reflexivity].
  destruct (nth_error ps j) as [pj |]; [| reflexivity].
  rewrite !round_exact.
  destruct (_ <? _)%js; reflexivity.
Qed.

Lemma computed_distance_exact (p q : GalaxyParticle.t) (a b c d : R) :
  GalaxyParticle.x p = Fin a -> GalaxyParticle.y p = Fin b ->
  GalaxyParticle.x q = Fin c -> GalaxyParticle.y q = Fin d ->
  computed_distance exact p q = Fin (dist a b c d).
Proof.
  intros Ha Hb Hc Hd.
  unfold computed_distance, Rounded.Math_sqrt, Rounded.add, Rounded.mul,
    Rounded.sub.
  rewrite !round_exact, Ha, Hb, Hc, Hd.
  apply interaction_distance.
Qed.


End Connections.


(** ** Construction without a canvas *)

Section Unresolved.
Import GalaxyBackground.
Variable rnd : nat -> R.

(** No event reaches an inert field. *)
Lemma dispatch_inert (h0 : Host) (id : string) (now : Z) (ev : Event)
    (w : World) :
  inert h0 id w ->
  exists w', dispatch rnd now ev w = Some w' /\ inert h0 id w'.
Proof.
  destruct w as [h g]. unfold inert; cbn [fst snd].
  intros (Hc & Hx & Hp & Ha & Hl & Hf & Hn & Hlog).
  destruct ev; unfold dispatch.
  - unfold relayout. rewrite Hc. unfold listening. cbn. rewrite Hl. cbn.
    eexists; split; [reflexivity |]. cbn. repeat split; assumption.
  - unfold listening. cbn. rewrite Hl. cbn.
    eexists; split; [reflexivity |]. cbn. repeat split; assumption.
  - unfold listening. cbn. rewrite Hl. cbn.
    eexists; split; [reflexivity |]. cbn. repeat split; assumption.
  - cbn. rewrite Hf.
    eexists; split; [reflexivity |]. cbn. repeat split; assumption.
Qed.

Lemma run_inert (h0 : Host) (id : string) (evs : list (Z * Event)) :
  forall w : World,
    inert h0 id w ->
    exists w', run rnd evs w = Some w' /\ inert h0 id w'.
Proof.
  induction evs as [| [now ev] evs IH]; intros w Hw.
  - exists w. split; [reflexivity | assumption].
  - cbn [run].
    destruct (dispatch_inert h0 id now ev w Hw) as (w1 & -> & Hw1).
    apply IH. exact Hw1.
Qed.

(** C8. When the canvas cannot be resolved, the constructor returns without
    throwing, having logged one diagnostic and nothing else: no particle, no
    context, no listener, no frame requested; and whatever events follow, no
    frame is ever requested, no listener runs and the particle collection
    stays empty. *)
Theorem constructor_unresolved (h : Host) (id : string)
    (evs : list (Z * Event)) :
  listeners h = [] ->
  pendingFrames h = [] ->
  exists w w' : World,
    constructor rnd h id None = Some w /\
    inert h id w /\
    console (fst w) = console h ++ [Error_canvas_not_found id] /\
    randomDraws (fst w) = randomDraws h /\
    run rnd evs w = Some w' /\
    inert h id w' /\
    console (fst w') = console (fst w).
Proof.
  intros Hl Hf.
  pose (w := (host_log (Error_canvas_not_found id) h,
              {| canvas := None; ctx := None; particles := [];
                 numParticles := 200; mouse := mouse_null;
                 animationId := None; containerId := id |})).
  assert (Hw : inert h id w).
  { unfold inert, w; cbn. repeat split; assumption. }
  destruct (run_inert h id evs w Hw) as (w' & Hrun & Hw').
  exists w, w'. split; [reflexivity |].
  split; [exact Hw |]. split; [reflexivity |]. split; [reflexivity |].
  split; [exact Hrun |]. split; [exact Hw' |].
  destruct Hw' as (_ & _ & _ & _ & _ & _ & _ & Hlog'). exact Hlog'.
Qed.

End Unresolved.

Lemma constructor_unresolved_witness :
  exists w w' : GalaxyBackground.World,
    GalaxyBackground.constructor rnd_half host_idle "services-galaxy" None
      = Some w /\
    inert host_idle "services-galaxy" w /\
    console (fst w) =
      console host_idle ++ [Error_canvas_not_found "services-galaxy"] /\
    randomDraws (fst w) = randomDraws host_idle /\
    GalaxyBackground.run rnd_half
      [(0%Z, EvFrame); (5%Z, EvMouseMove (Fin 10) (Fin 20));
       (9%Z, EvResize {| offsetWidth := 640; offsetHeight := 480 |}
               {| offsetWidth := 640; offsetHeight := 480 |})] w
      = Some w' /\
    inert host_idle "services-galaxy" w' /\
    console (fst w') = console (fst w).
Proof.
  apply (constructor_unresolved rnd_half host_idle "services-galaxy");
    reflexivity.
Defined.

(** ** The pulse *)

Section Pulse.
Import GalaxyParticle.
Variable rnd : nat -> R.
Hypothesis rnd_range : forall n : nat, 0 <= rnd n < 1.

(** The constructor draws a base radius in [1, 4) and starts on it. *)
Lemma constructor_pulse (k : nat) (cw ch : jsnum) :
  pulse_inv (constructor rnd k cw ch) /\
  radius (constructor rnd k cw ch) = baseRadius (constructor rnd k cw ch).
Proof.
  split; [| reflexivity].
  pose proof (rnd_range (k + 2)) as H2.
  exists (rnd (k + 2)%nat * 3 + 1), (rnd (k + 6)%nat * PI * 2),
    (0.02 + rnd (k + 7)%nat * 0.03), (rnd (k + 2)%nat * 3 + 1).
  cbn. repeat split; try reflexivity; lra.
Qed.

(** One [update] keeps the pulse and sets the radius from the new phase. *)
Lemma update_pulse_inv (m : Mouse) (cw ch : jsnum) (p : t) :
  pulse_inv p ->
  pulse_inv (update m cw ch p) /\
  exists b phi : R,
    baseRadius (update m cw ch p) = Fin b /\
    pulsePhase (update m cw ch p) = Fin phi /\
    radius (update m cw ch p) = Fin (b + sin phi).
Proof.
  intros (b & phi & s & r & Hb & Hbr & Hphi & Hs & Hr & Hrr).
  destruct (update_fixed m cw ch p) as (_ & Hb' & Hs').
  destruct (update_pulse m cw ch p) as (Hphi' & Hr').
  rewrite Hb in Hb'. rewrite Hs in Hs'.
  rewrite Hphi, Hs in Hphi'. rewrite Hb, Hphi, Hs in Hr'. cbn in Hphi', Hr'.
  assert (Hrad : radius (update m cw ch p) = Fin (b + sin (phi + s))).
  { rewrite Hr'. apply Fin_eq. ring. }
  pose proof (SIN_bound (phi + s)) as [Hlo Hhi].
  split.
  - exists b, (phi + s), s, (b + sin (phi + s)).
    repeat split; try assumption; lra.
  - exists b, (phi + s). repeat split; assumption.
Qed.

Lemma updates_snoc (args : list (Mouse * jsnum * jsnum))
    (a : Mouse * jsnum * jsnum) (p : t) :
  updates (args ++ [a]) p =
  update (fst (fst a)) (snd (fst a)) (snd a) (updates args p).
Proof. unfold updates. rewrite fold_left_app. reflexivity. Qed.

Lemma updates_pulse_inv (args : list (Mouse * jsnum * jsnum)) (p : t) :
  pulse_inv p -> pulse_inv (updates args p).
Proof.
  induction args as [| a args IH] using rev_ind; intros Hp.
  - exact Hp.
  - rewrite updates_snoc. apply update_pulse_inv. apply IH. exact Hp.
Qed.

(** The radii [draw] hands to the surface, for a particle with a pulse. *)
Lemma draw_radii_nonneg (p : t) :
  pulse_inv p ->
  Forall (fun c => Forall nonneg (cmd_radii c)) (draw p).
Proof.
  intros (b & phi & s & r & Hb & Hbr & Hphi & Hs & Hr & Hrr).
  assert (H0 : nonneg (Fin 0)) by (exists 0; split; [reflexivity | lra]).
  assert (H1 : nonneg (radius p)) by (exists r; split; [assumption | lra]).
  assert (H3 : nonneg (radius p * Fin 3)%js).
  { exists (r * 3). rewrite Hr. split; [reflexivity | lra]. }
  assert (H03 : nonneg (radius p * Fin 0.3)%js).
  { exists (r * 0.3). rewrite Hr. split; [reflexivity | lra]. }
  unfold draw. repeat (apply Forall_app; split).
  - repeat constructor; assumption.
  - destruct (color p); repeat constructor.
  - repeat constructor; assumption.
Qed.

(** C10. A particle made by the constructor and updated any number of
    times, with any pointers and dimensions, has a base radius in [1, 4) and
    a radius within 1 of it, hence not negative; after an update the radius
    is [baseRadius + sin(pulsePhase)]; and every radius [draw] passes to the
    surface is finite and not negative. *)
Theorem radius_never_negative (k : nat) (cw ch : jsnum)
    (args : list (Mouse * jsnum * jsnum)) :
  let p := updates args (constructor rnd k cw ch) in
  exists b phi r : R,
    baseRadius p = Fin b /\ 1 <= b < 4 /\
    pulsePhase p = Fin phi /\
    radius p = Fin r /\
    (args = [] -> r = b) /\
    (args <> [] -> r = b + sin phi) /\
    b - 1 <= r <= b + 1 /\ 0 <= r /\
    Forall (fun c => Forall nonneg (cmd_radii c)) (draw p).
Proof.
  intros p.
  destruct (constructor_pulse k cw ch) as [Hinit Hstart].
  assert (Hp : pulse_inv p) by (apply updates_pulse_inv; exact Hinit).
  pose proof (draw_radii_nonneg p Hp) as Hdraw.
  destruct Hp as (b & phi & s & r & Hb & Hbr & Hphi & Hs & Hr & Hrr).
  exists b, phi, r.
  repeat split; try assumption; try lra.
  - intros ->. unfold p, updates in Hb, Hr. cbn [fold_left] in Hb, Hr.
    rewrite Hstart, Hb in Hr. injection Hr as Hr. lra.
  - intros Hne. destruct (exists_last Hne) as (args' & a & Heq).
    unfold p in Hb, Hphi, Hr. rewrite Heq, updates_snoc in Hb, Hphi, Hr.
    destruct (update_pulse_inv (fst (fst a)) (snd (fst a)) (snd a)
                (updates args' (constructor rnd k cw ch)))
      as (_ & b' & phi' & Hb' & Hphi' & Hr').
    { apply updates_pulse_inv. exact Hinit. }
    rewrite Hb in Hb'. rewrite Hphi in Hphi'. rewrite Hr in Hr'.
    injection Hb' as <-. injection Hphi' as <-. injection Hr' as ->.
    reflexivity.
Qed.

End Pulse.

Lemma rnd_half_range : forall n : nat, 0 <= rnd_half n < 1.
Proof. intros n. unfold rnd_half. lra. Qed.

Lemma radius_never_negative_witness :
  let p := updates [(mouse_at 10 10, Fin 800, Fin 600)]
             (GalaxyParticle.constructor rnd_half 0 (Fin 800) (Fin 600)) in
  exists b phi r : R,
    GalaxyParticle.baseRadius p = Fin b /\ 1 <= b < 4 /\
    GalaxyParticle.pulsePhase p = Fin phi /\
    GalaxyParticle.radius p = Fin r /\
    ([(mouse_at 10 10, Fin 800, Fin 600)] = [] -> r = b) /\
    ([(mouse_at 10 10, Fin 800, Fin 600)] <> [] -> r = b + sin phi) /\
    b - 1 <= r <= b + 1 /\ 0 <= r /\
    Forall (fun c => Forall nonneg (cmd_radii c)) (GalaxyParticle.draw p).
Proof.
  apply (radius_never_negative rnd_half).
  intros n. unfold rnd_half. lra.
Defined.

(** ** The calls the context accepts *)

Section Surface.

Lemma perform_accepted (calls : list CanvasCmd) :
  Forall accepted calls -> perform calls = (calls, None).
Proof.
  induction 1 as [| c calls Hc _ IH]; cbn [perform].
  - reflexivity.
  - rewrite Hc, IH. reflexivity.
Qed.

(** The calls made before the one that throws are a prefix of the calls
    attempted. *)
Lemma perform_prefix (calls : list CanvasCmd) :
  exists rest : list CanvasCmd, calls = fst (perform calls) ++ rest.
Proof.
  induction calls as [| c calls [rest IH]]; cbn [perform].
  - exists []. reflexivity.
  - destruct (call_error c).
    + exists (c :: calls). reflexivity.
    + destruct (perform calls) as [made e]. cbn [fst] in *.
      exists rest. cbn. rewrite <- IH. reflexivity.
Qed.

(** A sequence of calls that starts with accepted ones. *)
Lemma perform_app_accepted (pre calls : list CanvasCmd) :
  Forall accepted pre ->
  perform (pre ++ calls) =
  (pre ++ fst (perform calls), snd (perform calls)).
Proof.
  induction 1 as [| c pre Hc _ IH]; cbn [app perform].
  - destruct (perform calls); reflexivity.
  - rewrite Hc, IH. reflexivity.
Qed.

Lemma stroke_line_accepted (l : GalaxyBackground.Line) :
  Forall accepted (GalaxyBackground.stroke_line l).
Proof. unfold GalaxyBackground.stroke_line. repeat constructor. Qed.

(** No call of the connection pass throws. *)
Lemma drawConnections_accepted (ps : list GalaxyParticle.t) :
  Forall accepted (GalaxyBackground.drawConnections ps).
Proof.
  unfold GalaxyBackground.drawConnections.
  induction (GalaxyBackground.connections ps) as [| l ls IH]; cbn [flat_map].
  - constructor.
  - apply Forall_app. split; [apply stroke_line_accepted | exact IH].
Qed.

(** The colours of the palette, with the two digits [draw] appends, are
    colours. *)
Lemma palette_stops (c : string) :
  In c GalaxyParticle.colors ->
  hex_color (c ++ "80") = true /\ hex_color (c ++ "40") = true /\
  hex_color (c ++ "00") = true.
Proof.
  unfold GalaxyParticle.colors.
  intros H. repeat (destruct H as [<- | H]; [repeat split |]).
  destruct H.
Qed.

(** [draw] on a drawable particle makes only calls the context accepts. *)
Lemma draw_accepted (p : GalaxyParticle.t) :
  drawable p -> Forall accepted (GalaxyParticle.draw p).
Proof.
  intros ((a & b & r & Hx & Hy & Hr & Hr0) & c & Hc & Hin).
  destruct (palette_stops c Hin) as (H80 & H40 & H00).
  unfold GalaxyParticle.draw. rewrite Hx, Hy, Hr, Hc.
  cbn [GalaxyParticle.color_alpha mul].
  assert (Harc : forall q : R, 0 <= q ->
            accepted (Arc (Fin a) (Fin b) (Fin q) (Fin 0) (Fin (PI * 2)))).
  { intros q Hq. unfold accepted, call_error. cbn [forallb finite andb lt].
    rewrite Rltb_false by exact Hq. reflexivity. }
  assert (Hgrad : accepted
            (SetFillStyle
               (RadialGradient (Fin a) (Fin b) (Fin 0) (Fin a) (Fin b)
                  (Fin (r * 3))
                  [(Fin 0, (c ++ "80")%string);
                   (Fin 0.5, (c ++ "40")%string);
                   (Fin 1, (c ++ "00")%string)]))).
  { unfold accepted, call_error, gradient_error.
    cbn [forallb finite andb negb lt].
    rewrite !Rltb_false by lra. cbn [orb].
    unfold stops_error. cbn [finite negb lt gt].
    rewrite H80, H40, H00.
    rewrite !Rltb_false by lra. reflexivity. }
  repeat (apply Forall_app; split).
  - constructor; [exact Hgrad |].
    constructor; [reflexivity |].
    constructor; [apply Harc; lra |].
    constructor; [reflexivity | constructor].
  - repeat constructor.
  - constructor; [reflexivity |].
    constructor; [apply Harc; exact Hr0 |].
    constructor; [reflexivity |].
    constructor; [reflexivity |].
    constructor; [reflexivity |].
    constructor; [apply Harc; lra |].
    constructor; [reflexivity | constructor].
Qed.

(** The calls of a frame on a field of drawable particles all go through. *)
Lemma frame_calls_accepted (pre : list CanvasCmd)
    (ps : list GalaxyParticle.t) :
  Forall accepted pre ->
  Forall drawable ps ->
  perform (pre ++ GalaxyBackground.drawConnections ps
               ++ flat_map GalaxyParticle.draw ps)
  = (pre ++ GalaxyBackground.drawConnections ps
         ++ flat_map GalaxyParticle.draw ps, None).
Proof.
  intros Hpre Hps. apply perform_accepted.
  apply Forall_app. split; [exact Hpre |].
  apply Forall_app. split; [apply drawConnections_accepted |].
  induction Hps as [| p ps Hp _ IH]; cbn [flat_map].
  - constructor.
  - apply Forall_app. split; [apply draw_accepted; exact Hp | exact IH].
Qed.

End Surface.

(** ** Creating the particles *)

Section Regeneration.
Import GalaxyBackground.
Variable rnd : nat -> R.
Hypothesis rnd_range : forall n : nat, 0 <= rnd n < 1.

(** A particle is drawn inside the surface it is made for. *)
Lemma constructor_in_surface (k : nat) (W H : N) :
  in_surface W H (GalaxyParticle.constructor rnd k (N2js W) (N2js H)).
Proof.
  pose proof (rnd_range k) as Hk. pose proof (rnd_range (k + 1)) as Hk1.
  assert (HW : 0 <= IZR (Z.of_N W)) by apply IZR_le, N2Z.is_nonneg.
  assert (HH : 0 <= IZR (Z.of_N H)) by apply IZR_le, N2Z.is_nonneg.
  exists (rnd k * IZR (Z.of_N W)), (rnd (k + 1)%nat * IZR (Z.of_N H)).
  split; [reflexivity |]. split; [reflexivity |]. split; nra.
Qed.

Lemma createParticles_loop_length (n : nat) (cw ch : jsnum) :
  forall (k : nat) (acc : list GalaxyParticle.t),
    List.length (fst (createParticles_loop rnd n k cw ch acc))
    = (List.length acc + n)%nat.
Proof.
  induction n as [| n IH]; intros k acc; cbn [createParticles_loop fst].
  - lia.
  - rewrite IH, length_app. cbn [List.length]. lia.
Qed.

Lemma createParticles_loop_Forall (P : GalaxyParticle.t -> Prop) (n : nat)
    (cw ch : jsnum) :
  (forall k, P (GalaxyParticle.constructor rnd k cw ch)) ->
  forall (k : nat) (acc : list GalaxyParticle.t),
    Forall P acc ->
    Forall P (fst (createParticles_loop rnd n k cw ch acc)).
Proof.
  intros HP. induction n as [| n IH]; intros k acc Hacc;
    cbn [createParticles_loop fst].
  - exact Hacc.
  - apply IH. apply Forall_app. split; [exact Hacc |].
    constructor; [apply HP | constructor].
Qed.

(** [createParticles()] on a resolved canvas: the old collection is replaced
    by [numParticles] particles drawn inside the canvas. *)
Lemma createParticles_spec (h : Host) (g : t) (c : HTMLCanvasElement) :
  canvas g = Some c ->
  exists (h' : Host) (ps : list GalaxyParticle.t),
    createParticles rnd (h, g) = Some (h', set_particles ps g) /\
    List.length ps = numParticles g /\
    Forall (in_surface (width c) (height c)) ps /\
    listeners h' = listeners h /\
    pendingFrames h' = pendingFrames h /\
    frameRequests h' = frameRequests h.
Proof.
  intros Hc. unfold createParticles. rewrite Hc.
  destruct (numParticles g) as [| n] eqn:Hn.
  - exists h, []. repeat split; constructor.
  - rewrite <- Hn.
    destruct (createParticles_loop rnd (numParticles g) (randomDraws h)
                (N2js (width c)) (N2js (height c)) []) as [ps k] eqn:Hloop.
    exists (host_draws k h), ps.
    split; [reflexivity |].
    pose proof (createParticles_loop_length (numParticles g)
                  (N2js (width c)) (N2js (height c)) (randomDraws h) [])
      as Hlen.
    pose proof (createParticles_loop_Forall
                  (in_surface (width c) (height c)) (numParticles g)
                  (N2js (width c)) (N2js (height c))
                  (fun k0 => constructor_in_surface k0 (width c) (height c))
                  (randomDraws h) [] (Forall_nil _)) as Hall.
    rewrite Hloop in Hlen, Hall. cbn [fst List.length] in Hlen, Hall.
    repeat split; assumption.
Qed.

(** The "resize" listener: the canvas takes the size of the box and the
    collection is replaced, at the new size. *)
Lemma on_resize_spec (h : Host) (g : t) (c : HTMLCanvasElement) :
  canvas g = Some c ->
  exists (h' : Host) (g' : t) (c' : HTMLCanvasElement),
    on_resize rnd tt (h, g) = Some (h', g') /\
    canvas g' = Some c' /\
    width c' = offsetWidth (surface_box h c) /\
    height c' = offsetHeight (surface_box h c) /\
    ctx g' = ctx g /\
    numParticles g' = numParticles g /\
    List.length (particles g') = numParticles g /\
    Forall (in_surface (width c') (height c')) (particles g') /\
    listeners h' = listeners h /\
    pendingFrames h' = pendingFrames h /\
    frameRequests h' = frameRequests h.
Proof.
  intros Hc. unfold on_resize, resizeCanvas. rewrite Hc.
  fold (surface_box h c).
  set (c' := {| width := offsetWidth (surface_box h c);
                height := offsetHeight (surface_box h c);
                parentElement := parentElement c;
                rect_left := rect_left c; rect_top := rect_top c |}).
  destruct (createParticles_spec h (set_canvas (Some c') g) c' eq_refl)
    as (h' & ps & Hrun & Hlen & Hall & Hl & Hp & Hf).
  exists h', (set_particles ps (set_canvas (Some c') g)), c'.
  split; [exact Hrun |].
  cbn. repeat split; assumption.
Qed.

(** A throttled function that keeps a property of the state keeps it
    whether the call goes through or is dropped, and does not throw. *)
Lemma executedFunction_preserves {S A : Type} (P : S -> Prop)
    (func : A -> S -> option S) (limit now : Z) (args : A)
    (c : Throttle.closure) (s : S) :
  (forall s0, P s0 -> exists s1, func args s0 = Some s1 /\ P s1) ->
  P s ->
  exists c' s',
    Throttle.executedFunction func limit now args c s = Some (c', s') /\
    P s'.
Proof.
  intros Hfunc Hs. unfold Throttle.executedFunction.
  destruct (negb (Throttle.inThrottle c)).
  - destruct (Hfunc s Hs) as (s1 & -> & Hs1).
    eexists; eexists; split; [reflexivity | exact Hs1].
  - exists c, s. split; [reflexivity | exact Hs].
Qed.

Lemma on_resize_live (w : World) :
  live w -> exists w', on_resize rnd tt w = Some w' /\ live w'.
Proof.
  destruct w as [h g]. intros ((c & Hc) & (cmds & Hx) & Hn & Hlen).
  cbn [fst snd] in *.
  destruct (on_resize_spec h g c Hc)
    as (h' & g' & c' & Hrun & Hc' & _ & _ & Hx' & Hn' & Hlen' & _).
  exists (h', g'). split; [exact Hrun |].
  unfold live; cbn [fst snd].
  split; [exists c'; exact Hc' |].
  split; [exists cmds; rewrite Hx'; exact Hx |].
  split; [rewrite Hn'; exact Hn | rewrite Hlen'; exact Hn].
Qed.

Lemma on_mousemove_live (e : jsnum * jsnum) (w : World) :
  live w -> exists w', on_mousemove e w = Some w' /\ live w'.
Proof.
  destruct w as [h g]. intros ((c & Hc) & Hx & Hn & Hlen).
  cbn [fst snd] in *. unfold on_mousemove. rewrite Hc.
  eexists; split; [reflexivity |].
  unfold live; cbn. split; [exists c; exact Hc |]. repeat split; assumption.
Qed.

(** A frame on a live field: whether its drawing goes through or throws,
    the field stays live. *)
Lemma animate_live (w : World) :
  live w ->
  exists w',
    (animate w = Returns w' \/ exists e, animate w = Throws e w') /\
    live w'.
Proof.
  destruct w as [h g]. intros ((c & Hc) & (cmds & Hx) & Hn & Hlen).
  cbn [fst snd] in *. unfold animate.
  set (g1 := set_animationId _ g).
  assert (Hc1 : canvas g1 = Some c) by exact Hc.
  rewrite (update_resolved _ g1 c Hc1).
  unfold draw. cbn [ctx canvas set_particles particles]. unfold g1.
  cbn [ctx canvas set_animationId]. rewrite Hx, Hc.
  destruct (perform _) as [made [e |]].
  - eexists; split; [right; exists e; reflexivity |].
    unfold live; cbn. split; [exists c; exact Hc |].
    split; [eexists; reflexivity |].
    split; [exact Hn | rewrite length_map; exact Hlen].
  - eexists; split; [left; reflexivity |].
    unfold live; cbn. split; [exists c; exact Hc |].
    split; [eexists; reflexivity |].
    split; [exact Hn | rewrite length_map; exact Hlen].
Qed.

(** A particle fresh from the constructor is drawable after its first
    update, the pointer being null. *)
Lemma fresh_drawable (k : nat) (W H : N) :
  drawable
    (GalaxyParticle.update mouse_null (N2js W) (N2js H)
       (GalaxyParticle.constructor rnd k (N2js W) (N2js H))).
Proof.
  pose proof (rnd_range (k + 2)) as H2. pose proof (rnd_range (k + 3)) as H3.
  split.
  - eexists; eexists; eexists.
    split; [reflexivity |]. split; [reflexivity |].
    split; [reflexivity |].
    pose proof (SIN_bound (rnd (k + 6)%nat * PI * 2
                           + (0.02 + rnd (k + 7)%nat * 0.03))) as [Hlo _].
    lra.
  - assert (Hten : INR (List.length GalaxyParticle.colors) = 10)
      by (cbn; lra).
    destruct (update_fixed mouse_null (N2js W) (N2js H)
                (GalaxyParticle.constructor rnd k (N2js W) (N2js H)))
      as (-> & _).
    destruct (base_Int_part
                (rnd (k + 3)%nat * INR (List.length GalaxyParticle.colors)))
      as [Hlo Hhi].
    unfold GalaxyParticle.constructor. cbn [GalaxyParticle.color].
    unfold floorZ.
    set (z := Int_part _) in *.
    rewrite Hten in Hlo, Hhi.
    assert (Hz : (0 <= z < 10)%Z).
    { split.
      - apply Z.lt_succ_r. apply lt_IZR. rewrite succ_IZR. lra.
      - apply lt_IZR. lra. }
    assert (Hidx : (Z.to_nat z < List.length GalaxyParticle.colors)%nat)
      by (cbn; lia).
    apply nth_error_Some in Hidx.
    destruct (nth_error GalaxyParticle.colors (Z.to_nat z)) as [c |] eqn:Hc;
      [| contradiction].
    exists c. split; [reflexivity | exact (nth_error_In _ _ Hc)].
Qed.

(** The first frame, on the particles [createParticles] has just made with
    the pointer still null: its drawing goes through. *)
Lemma animate_fresh (h : Host) (g : t) (c : HTMLCanvasElement)
    (cmds : list CanvasCmd) :
  canvas g = Some c -> ctx g = Some cmds -> mouse g = mouse_null ->
  Forall (fun p => drawable (GalaxyParticle.update mouse_null
                               (N2js (width c)) (N2js (height c)) p))
    (particles g) ->
  exists w', animate (h, g) = Returns w' /\
             List.length (particles (snd w')) = List.length (particles g) /\
             canvas (snd w') = Some c /\
             (exists cmds', ctx (snd w') = Some cmds') /\
             numParticles (snd w') = numParticles g.
Proof.
  intros Hc Hx Hm Hps. unfold animate.
  set (g1 := set_animationId _ g).
  assert (Hc1 : canvas g1 = Some c) by exact Hc.
  rewrite (update_resolved _ g1 c Hc1).
  unfold draw. cbn [ctx canvas set_particles particles]. unfold g1.
  cbn [ctx canvas set_animationId mouse particles]. rewrite Hx, Hc, Hm.
  rewrite (frame_calls_accepted
             [ SetFillStyle (Rgba 0 0 0 (Fin 0.05));
               FillRect (Fin 0) (Fin 0) (N2js (width c)) (N2js (height c)) ]).
  - eexists; split; [reflexivity |]. cbn.
    rewrite length_map. split; [reflexivity |]. split; [exact Hc |].
    split; [eexists; reflexivity | reflexivity].
  - repeat constructor.
  - apply Forall_map. exact Hps.
Qed.

(** No event stops the run of a live field, and the field stays live. *)
Lemma dispatch_live (now : Z) (ev : Event) (w : World) :
  live w -> exists w', dispatch rnd now ev w = Some w' /\ live w'.
Proof.
  destruct w as [h g]. intros Hw. unfold dispatch.
  set (h0 := host_throttles _ _ h).
  assert (Hw0 : live (h0, g)) by exact Hw.
  clearbody h0. clear Hw.
  destruct ev as [container inner | cx cy | |].
  - assert (Hrel : exists h1 g1, relayout container inner (h0, g) = (h1, g1)
                                /\ live (h1, g1)).
    { destruct Hw0 as ((c & Hc) & Hx & Hn & Hlen). cbn [fst snd] in *.
      unfold relayout. rewrite Hc.
      eexists; eexists; split; [reflexivity |].
      unfold live; cbn. split; [eexists; reflexivity |].
      repeat split; assumption. }
    destruct Hrel as (h1 & g1 & -> & Hw1).
    destruct (listening OnResize h1).
    + destruct (executedFunction_preserves live (on_resize rnd) 250 now tt
                  (resizeThrottle h1) (h1, g1) on_resize_live Hw1)
        as (c' & [h2 g2] & -> & Hw2).
      eexists; split; [reflexivity | exact Hw2].
    + eexists; split; [reflexivity | exact Hw1].
  - destruct (listening OnMouseMove h0).
    + destruct (executedFunction_preserves live on_mousemove 16 now (cx, cy)
                  (mouseThrottle h0) (h0, g)
                  (on_mousemove_live (cx, cy)) Hw0)
        as (c' & [h2 g2] & -> & Hw2).
      eexists; split; [reflexivity | exact Hw2].
    + eexists; split; [reflexivity | exact Hw0].
  - destruct (listening OnMouseLeave h0).
    + unfold on_mouseleave. eexists; split; [reflexivity |].
      destruct Hw0 as (Hc & Hx & Hn & Hlen). unfold live; cbn.
      repeat split; assumption.
    + eexists; split; [reflexivity | exact Hw0].
  - destruct (pendingFrames h0) as [| f rest] eqn:Hp.
    + eexists; split; [reflexivity | exact Hw0].
    + destruct (animate_live (host_frames (frameRequests h0) rest h0, g))
        as ([h' g'] & [-> | [e ->]] & Hlive); [exact Hw0 | |].
      * eexists; split; [reflexivity | exact Hlive].
      * eexists; split; [reflexivity | exact Hlive].
Qed.

Lemma run_live (evs : list (Z * Event)) :
  forall w : World,
    live w -> exists w', run rnd evs w = Some w' /\ live w'.
Proof.
  induction evs as [| [now ev] evs IH]; intros w Hw.
  - exists w. split; [reflexivity | exact Hw].
  - cbn [run]. destruct (dispatch_live now ev w Hw) as (w1 & -> & Hw1).
    apply IH. exact Hw1.
Qed.

(** Construction on a resolved canvas succeeds and leaves a live field. *)
Lemma constructor_live (h : Host) (id : string) (c : HTMLCanvasElement) :
  exists w, constructor rnd h id (Some c) = Some w /\ live w.
Proof.
  unfold constructor, init. cbn [canvas].
  set (g0 := set_ctx (Some []) _).
  assert (Hc0 : canvas g0 = Some c) by reflexivity.
  assert (Hr : exists c',
             resizeCanvas (h, g0) = Some (h, set_canvas (Some c') g0)).
  { unfold resizeCanvas. rewrite Hc0. eexists; reflexivity. }
  destruct Hr as (c' & ->).
  assert (Hcreate : exists (h1 : Host) (ps : list GalaxyParticle.t),
             createParticles rnd (h, set_canvas (Some c') g0)
             = Some (h1, set_particles ps (set_canvas (Some c') g0)) /\
             List.length ps = 200%nat /\
             Forall (fun p => drawable (GalaxyParticle.update mouse_null
                                          (N2js (width c'))
                                          (N2js (height c')) p)) ps).
  { unfold createParticles. cbn [canvas set_canvas numParticles g0 set_ctx].
    destruct (createParticles_loop rnd 200 (randomDraws h)
                (N2js (width c')) (N2js (height c')) []) as [ps k] eqn:Hloop.
    exists (host_draws k h), ps. split; [reflexivity |].
    pose proof (createParticles_loop_length 200
                  (N2js (width c')) (N2js (height c')) (randomDraws h) [])
      as Hlen.
    pose proof (createParticles_loop_Forall
                  (fun p => drawable (GalaxyParticle.update mouse_null
                                        (N2js (width c'))
                                        (N2js (height c')) p))
                  200 (N2js (width c')) (N2js (height c'))
                  (fun k0 => fresh_drawable k0 (width c') (height c'))
                  (randomDraws h) [] (Forall_nil _)) as Hall.
    rewrite Hloop in Hlen, Hall. cbn [fst List.length] in Hlen, Hall.
    split; assumption. }
  destruct Hcreate as (h1 & ps & -> & Hlen & Hfresh).
  set (g1 := set_particles ps (set_canvas (Some c') g0)).
  unfold bindEvents. replace (canvas g1) with (Some c') by reflexivity.
  match goal with
  | |- context [animate (?hh, g1)] =>
      destruct (animate_fresh hh g1 c' [] eq_refl eq_refl eq_refl Hfresh)
        as ([h5 g5] & -> & Hlen5 & Hc5 & Hx5 & Hn5)
  end.
  eexists; split; [reflexivity |].
  cbn [fst snd] in *. unfold live; cbn [fst snd].
  split; [exists c'; exact Hc5 |]. split; [exact Hx5 |].
  split; [rewrite Hn5; reflexivity | rewrite Hlen5; exact Hlen].
Qed.

(** C7. On a resolved canvas with the configured count of 200:
    [createParticles] replaces the collection by 200 particles, each inside
    the canvas at creation; the resize listener sets the canvas to the size
    of its container (or of the window) and replaces the collection by 200
    particles inside the new size; and the constructor returns, after which,
    whatever events arrive, the collection always holds 200 particles (a
    frame whose drawing throws is reported by the host and leaves the
    collection as [update] made it). *)
Theorem particles_regenerated (h : Host) (g : t) (c : HTMLCanvasElement)
    (id : string) (evs : list (Z * Event)) :
  canvas g = Some c ->
  numParticles g = 200%nat ->
  (exists (h' : Host) (g' : t),
     createParticles rnd (h, g) = Some (h', g') /\
     canvas g' = Some c /\
     List.length (particles g') = 200%nat /\
     Forall (in_surface (width c) (height c)) (particles g')) /\
  (exists (h' : Host) (g' : t) (c' : HTMLCanvasElement),
     on_resize rnd tt (h, g) = Some (h', g') /\
     canvas g' = Some c' /\
     width c' = offsetWidth (surface_box h c) /\
     height c' = offsetHeight (surface_box h c) /\
     List.length (particles g') = 200%nat /\
     Forall (in_surface (width c') (height c')) (particles g')) /\
  (exists w w' : World,
     constructor rnd h id (Some c) = Some w /\
     List.length (particles (snd w)) = 200%nat /\
     run rnd evs w = Some w' /\
     List.length (particles (snd w')) = 200%nat).
Proof.
  intros Hc Hn. split; [| split].
  - destruct (createParticles_spec h g c Hc)
      as (h' & ps & Hrun & Hlen & Hall & _).
    exists h', (set_particles ps g).
    split; [exact Hrun |]. cbn. rewrite <- Hn.
    repeat split; assumption.
  - destruct (on_resize_spec h g c Hc)
      as (h' & g' & c' & Hrun & Hc' & Hw & Hh & _ & _ & Hlen & Hall & _).
    exists h', g', c'. rewrite <- Hn. repeat split; assumption.
  - destruct (constructor_live h id c) as (w & Hw & Hlive).
    destruct (run_live evs w Hlive) as (w' & Hrun & Hlive').
    exists w, w'. split; [exact Hw |].
    split; [apply Hlive |]. split; [exact Hrun | apply Hlive'].
Qed.

End Regeneration.

Lemma particles_regenerated_witness :
  (exists (h' : Host) (g' : GalaxyBackground.t),
     GalaxyBackground.createParticles rnd_half (host_idle, field_200)
       = Some (h', g') /\
     GalaxyBackground.canvas g' = Some canvas_800_600 /\
     List.length (GalaxyBackground.particles g') = 200%nat /\
     Forall (in_surface (width canvas_800_600) (height canvas_800_600))
       (GalaxyBackground.particles g')) /\
  (exists (h' : Host) (g' : GalaxyBackground.t) (c' : HTMLCanvasElement),
     GalaxyBackground.on_resize rnd_half tt (host_idle, field_200)
       = Some (h', g') /\
     GalaxyBackground.canvas g' = Some c' /\
     width c' = offsetWidth (surface_box host_idle canvas_800_600) /\
     height c' = offsetHeight (surface_box host_idle canvas_800_600) /\
     List.length (GalaxyBackground.particles g') = 200%nat /\
     Forall (in_surface (width c') (height c'))
       (GalaxyBackground.particles g')) /\
  (exists w w' : GalaxyBackground.World,
     GalaxyBackground.constructor rnd_half host_idle "services-galaxy"
       (Some canvas_800_600) = Some w /\
     List.length (GalaxyBackground.particles (snd w)) = 200%nat /\
     GalaxyBackground.run rnd_half
       [(0%Z, EvFrame);
        (40%Z, EvResize {| offsetWidth := 640; offsetHeight := 480 |}
                 {| offsetWidth := 640; offsetHeight := 480 |});
        (56%Z, EvFrame)] w = Some w' /\
     List.length (GalaxyBackground.particles (snd w')) = 200%nat).
Proof.
  apply (particles_regenerated rnd_half rnd_half_range host_idle field_200
           canvas_800_600 "services-galaxy"); reflexivity.
Defined.

(** ** The throttled listeners *)

Section Throttling.
Import GalaxyBackground.
Variable rnd : nat -> R.

Lemma run_timers_idle (now : Z) (c : Throttle.closure) :
  (forall d, In d (Throttle.timers c) -> (now < d)%Z) ->
  Throttle.run_timers now c = c.
Proof.
  intros H. unfold Throttle.run_timers.
  destruct (existsb _ _) eqn:E; [| reflexivity].
  apply existsb_exists in E. destruct E as (d & Hin & Hle).
  apply Z.leb_le in Hle. specialize (H d Hin). lia.
Qed.

(** Inside its window a closure stays as it is; once the timer is due the
    flag is cleared. *)
Lemma run_timers_armed_before (d now : Z) :
  (now < d)%Z -> Throttle.run_timers now (armed d) = armed d.
Proof.
  intros H. apply run_timers_idle. intros d' [<- | []]. exact H.
Qed.

Lemma run_timers_armed_due (d now : Z) :
  (d <= now)%Z -> Throttle.run_timers now (armed d) = Throttle.create.
Proof.
  intros H. unfold Throttle.run_timers, armed; cbn.
  apply Z.leb_le in H. rewrite H. reflexivity.
Qed.

Lemma listening_throttles (l : Listener) (a b : Throttle.closure) (h : Host) :
  listening l (host_throttles a b h) = listening l h.
Proof. reflexivity. Qed.

Lemma listening_inner (l : Listener) (b : Box) (h : Host) :
  listening l (host_inner b h) = listening l h.
Proof. reflexivity. Qed.

(** A pointer move that finds the throttle idle is stored and opens a
    window of 16 ms. *)
Lemma dispatch_move_accepted (h : Host) (g : t) (c : HTMLCanvasElement)
    (now : Z) (cx cy : jsnum) :
  canvas g = Some c ->
  listening OnMouseMove h = true ->
  Throttle.run_timers now (mouseThrottle h) = Throttle.create ->
  dispatch rnd now (EvMouseMove cx cy) (h, g) =
  Some (host_throttles (Throttle.run_timers now (resizeThrottle h))
          (armed (now + 16)) h,
        set_mouse (pointer_over c cx cy) g).
Proof.
  intros Hc Hl Ht. unfold dispatch.
  rewrite listening_throttles, Hl.
  unfold Throttle.executedFunction. cbn [mouseThrottle host_throttles].
  rewrite Ht. cbn [Throttle.inThrottle Throttle.create negb Throttle.timers].
  unfold on_mousemove. rewrite Hc. reflexivity.
Qed.

(** A pointer move inside the window is dropped: the field is untouched. *)
Lemma dispatch_move_dropped (h : Host) (g : t) (d now : Z) (cx cy : jsnum) :
  listening OnMouseMove h = true ->
  mouseThrottle h = armed d ->
  (now < d)%Z ->
  dispatch rnd now (EvMouseMove cx cy) (h, g) =
  Some (host_throttles (Throttle.run_timers now (resizeThrottle h))
          (armed d) h, g).
Proof.
  intros Hl Ht Hnow. unfold dispatch.
  rewrite listening_throttles, Hl.
  unfold Throttle.executedFunction. cbn [mouseThrottle host_throttles].
  rewrite Ht, run_timers_armed_before by exact Hnow.
  reflexivity.
Qed.

(** All the pointer moves inside the window are dropped. *)
Lemma run_moves_dropped (d : Z) (g : t) (moves : list (Z * (jsnum * jsnum))) :
  Forall (fun e => (fst e < d)%Z) moves ->
  forall h : Host,
    listening OnMouseMove h = true ->
    mouseThrottle h = armed d ->
    exists h' : Host,
      run rnd (map move_event moves) (h, g) = Some (h', g) /\
      listening OnMouseMove h' = true /\
      mouseThrottle h' = armed d /\
      listeners h' = listeners h /\
      pendingFrames h' = pendingFrames h /\
      randomDraws h' = randomDraws h.
Proof.
  induction 1 as [| [now [cx cy]] moves Hnow _ IH]; intros h Hl Ht.
  - exists h. repeat split; assumption.
  - cbn [map move_event fst snd run].
    rewrite (dispatch_move_dropped h g d now cx cy Hl Ht Hnow).
    destruct (IH (host_throttles
                    (Throttle.run_timers now (resizeThrottle h)) (armed d) h))
      as (h' & Hrun & Hl' & Ht' & Hls & Hpf & Hrd).
    + exact Hl.
    + reflexivity.
    + exists h'. repeat split; assumption.
Qed.

(** The loop of [createParticles] makes eight draws for each particle. *)
Lemma createParticles_loop_draws (n : nat) (cw ch : jsnum) :
  forall (k : nat) (acc : list GalaxyParticle.t),
    snd (createParticles_loop rnd n k cw ch acc) = (k + 8 * n)%nat.
Proof.
  induction n as [| n IH]; intros k acc; cbn [createParticles_loop snd].
  - lia.
  - rewrite IH. unfold GalaxyParticle.draws_per_particle. lia.
Qed.

(** The "resize" listener on a resolved canvas runs to the end: the canvas
    takes the size of the box, and the collection is made anew with eight
    random draws for each particle. *)
Lemma on_resize_runs (h : Host) (g : t) (c : HTMLCanvasElement) :
  canvas g = Some c ->
  exists (k : nat) (ps : list GalaxyParticle.t),
    on_resize rnd tt (h, g) =
    Some (host_draws k h,
          set_particles ps
            (set_canvas
               (Some {| width := offsetWidth (surface_box h c);
                        height := offsetHeight (surface_box h c);
                        parentElement := parentElement c;
                        rect_left := rect_left c; rect_top := rect_top c |})
               g)) /\
    k = (randomDraws h + 8 * numParticles g)%nat /\
    List.length ps = numParticles g.
Proof.
  intros Hc. unfold on_resize, resizeCanvas. rewrite Hc.
  fold (surface_box h c). unfold createParticles.
  cbn [canvas set_canvas numParticles].
  destruct (numParticles g) as [| n] eqn:Hn.
  - exists (randomDraws h), []. split; [destruct h; reflexivity |].
    split; [lia | reflexivity].
  - pose proof (createParticles_loop_draws (S n)
                  (N2js (offsetWidth (surface_box h c)))
                  (N2js (offsetHeight (surface_box h c)))
                  (randomDraws h) []) as Hk.
    pose proof (createParticles_loop_length rnd (S n)
                  (N2js (offsetWidth (surface_box h c)))
                  (N2js (offsetHeight (surface_box h c)))
                  (randomDraws h) []) as Hlen.
    cbn [width height].
    destruct (createParticles_loop _ _ _ _ _ _) as [ps k].
    cbn [fst snd List.length] in Hk, Hlen.
    exists k, ps. split; [reflexivity |]. split; assumption.
Qed.

Lemma same_field_refl (g : t) (c : HTMLCanvasElement) :
  canvas g = Some c -> same_field g g.
Proof.
  intros Hc. unfold same_field. repeat split.
  exists c, c. repeat split; assumption.
Qed.

(** A resize that finds the throttle idle runs the listener, with the layout
    of that moment, and opens a window of 250 ms. *)
Lemma dispatch_resize_accepted (h : Host) (g : t) (c : HTMLCanvasElement)
    (now : Z) (b i : Box) :
  canvas g = Some c ->
  listening OnResize h = true ->
  Throttle.run_timers now (resizeThrottle h) = Throttle.create ->
  exists (h1 : Host) (g1 : t) (c1 : HTMLCanvasElement),
    dispatch rnd now (EvResize b i) (h, g) = Some (h1, g1) /\
    canvas g1 = Some c1 /\
    width c1 = offsetWidth (match parentElement c with
                            | Some _ => b
                            | None => i
                            end) /\
    height c1 = offsetHeight (match parentElement c with
                              | Some _ => b
                              | None => i
                              end) /\
    listening OnResize h1 = true /\
    resizeThrottle h1 = armed (now + 250) /\
    (parentElement c1 = None <-> parentElement c = None) /\
    numParticles g1 = numParticles g /\
    List.length (particles g1) = numParticles g /\
    randomDraws h1 = (randomDraws h + 8 * numParticles g)%nat.
Proof.
  intros Hc Hl Ht. unfold dispatch, relayout. rewrite Hc.
  rewrite listening_inner, listening_throttles, Hl.
  unfold Throttle.executedFunction.
  cbn [resizeThrottle host_throttles host_inner].
  rewrite Ht. cbn [Throttle.inThrottle Throttle.create negb Throttle.timers].
  match goal with
  | |- context [on_resize rnd tt (?hh, ?gg)] =>
      destruct (on_resize_runs hh gg _ eq_refl) as (k & ps & -> & Hk & Hlen)
  end.
  cbn [numParticles set_canvas randomDraws host_inner host_throttles]
    in Hk, Hlen.
  eexists; eexists; eexists.
  split; [reflexivity |].
  split; [reflexivity |].
  cbn. destruct (parentElement c);
    repeat split; try assumption; try discriminate.
Qed.

(** A resize inside the window changes the layout of the page and nothing
    of the field: the listener does not run. *)
Lemma dispatch_resize_dropped (h : Host) (g : t) (c : HTMLCanvasElement)
    (d now : Z) (b i : Box) :
  canvas g = Some c ->
  listening OnResize h = true ->
  resizeThrottle h = armed d ->
  (now < d)%Z ->
  exists (h1 : Host) (g1 : t) (c1 : HTMLCanvasElement),
    dispatch rnd now (EvResize b i) (h, g) = Some (h1, g1) /\
    same_field g g1 /\
    listening OnResize h1 = true /\
    resizeThrottle h1 = armed d /\
    randomDraws h1 = randomDraws h /\
    canvas g1 = Some c1 /\
    (parentElement c1 = None <-> parentElement c = None) /\
    numParticles g1 = numParticles g.
Proof.
  intros Hc Hl Ht Hnow. unfold dispatch, relayout. rewrite Hc.
  rewrite listening_inner, listening_throttles, Hl.
  unfold Throttle.executedFunction.
  cbn [resizeThrottle host_throttles host_inner].
  rewrite Ht, run_timers_armed_before by exact Hnow.
  cbn [Throttle.inThrottle armed negb].
  eexists; eexists; eexists. split; [reflexivity |].
  split; [| split; [exact Hl |]].
  - unfold same_field. cbn. repeat split.
    eexists; eexists. split; [exact Hc |]. repeat split.
  - split; [reflexivity |]. split; [reflexivity |].
    split; [reflexivity |].
    cbn. destruct (parentElement c);
      repeat split; try assumption; try discriminate.
Qed.

Lemma same_field_trans (g1 g2 g3 : t) :
  same_field g1 g2 -> same_field g2 g3 -> same_field g1 g3.
Proof.
  intros (Hp & Hm & Hx & c1 & c2 & Hc1 & Hc2 & Hw & Hh & Hl & Ht)
         (Hp' & Hm' & Hx' & c2' & c3 & Hc2' & Hc3 & Hw' & Hh' & Hl' & Ht').
  rewrite Hc2 in Hc2'. injection Hc2' as <-.
  unfold same_field.
  split; [congruence |]. split; [congruence |]. split; [congruence |].
  exists c1, c3. repeat split; congruence.
Qed.

(** All the resizes inside the window are dropped. *)
Lemma run_resizes_dropped (d : Z) (resizes : list (Z * (Box * Box))) :
  Forall (fun e => (fst e < d)%Z) resizes ->
  forall (h : Host) (g : t) (c : HTMLCanvasElement),
    canvas g = Some c ->
    listening OnResize h = true ->
    resizeThrottle h = armed d ->
    exists (h' : Host) (g' : t) (c' : HTMLCanvasElement),
      run rnd (map resize_event resizes) (h, g) = Some (h', g') /\
      same_field g g' /\
      randomDraws h' = randomDraws h /\
      listening OnResize h' = true /\
      resizeThrottle h' = armed d /\
      canvas g' = Some c' /\
      (parentElement c' = None <-> parentElement c = None) /\
      numParticles g' = numParticles g.
Proof.
  induction 1 as [| [now [b i]] resizes Hnow _ IH]; intros h g c Hc Hl Ht.
  - exists h, g, c. split; [reflexivity |].
    split; [exact (same_field_refl g c Hc) |].
    repeat split; try assumption; intros H; exact H.
  - cbn [map resize_event fst snd run].
    destruct (dispatch_resize_dropped h g c d now b i Hc Hl Ht Hnow)
      as (h1 & g1 & c1 & -> & Hsame & Hl1 & Ht1 & Hd1 & Hc1 & Hpar1 & Hn1).
    destruct (IH h1 g1 c1 Hc1 Hl1 Ht1)
      as (h' & g' & c' & Hrun & Hsame' & Hd' & Hl' & Ht' & Hc' & Hpar' & Hn').
    exists h', g', c'. split; [exact Hrun |]. split.
    + apply (same_field_trans g g1 g'); assumption.
    + split; [congruence |]. split; [exact Hl' |]. split; [exact Ht' |].
      split; [exact Hc' |]. split; [tauto | congruence].
Qed.

(** A frame leaves the pointer state alone. *)
Lemma dispatch_frame_mouse (now : Z) (h : Host) (g : t)
    (c : HTMLCanvasElement) (cmds : list CanvasCmd) :
  canvas g = Some c -> ctx g = Some cmds ->
  exists (h' : Host) (g' : t),
    dispatch rnd now EvFrame (h, g) = Some (h', g') /\
    mouse g' = mouse g.
Proof.
  intros Hc Hx. unfold dispatch. cbn [pendingFrames host_throttles].
  destruct (pendingFrames h) as [| f rest].
  - eexists; eexists. split; reflexivity.
  - unfold animate.
    set (g1 := set_animationId _ g).
    assert (Hc1 : canvas g1 = Some c) by exact Hc.
    rewrite (update_resolved _ g1 c Hc1).
    unfold draw. cbn [ctx canvas set_particles particles]. unfold g1.
    cbn [ctx canvas set_animationId]. rewrite Hx, Hc.
    destruct (perform _) as [made [e |]];
      eexists; eexists; split; reflexivity.
Qed.

(** C3, as the code has it. With the listeners bound and both throttles
    idle: a pointer move at [t0] is stored, the moves that follow inside the
    16 ms window are dropped, so the pointer state still is that of the
    first move, and the first move after the window is stored as it comes;
    a resize at [t0] runs the listener with the layout of that moment, the
    resizes that follow inside the 250 ms window change nothing of the
    field: no size is taken, no particle is created; and the first resize
    after the window runs the listener again, with the layout of its own
    moment: the canvas takes that size and the collection is made anew. *)
Theorem throttle_keeps_first_input (h : Host) (g : t) (c : HTMLCanvasElement)
    (t0 t1 t2 : Z) (x0 y0 x1 y1 : jsnum)
    (moves : list (Z * (jsnum * jsnum)))
    (b0 i0 b2 i2 : Box) (resizes : list (Z * (Box * Box))) :
  canvas g = Some c ->
  bound h ->
  Forall (fun e => (t0 <= fst e < t0 + 16)%Z) moves ->
  (t0 + 16 <= t1)%Z ->
  Forall (fun e => (t0 <= fst e < t0 + 250)%Z) resizes ->
  (t0 + 250 <= t2)%Z ->
  (exists h' h'' : Host,
     run rnd ((t0, EvMouseMove x0 y0) :: map move_event moves) (h, g)
       = Some (h', set_mouse (pointer_over c x0 y0) g) /\
     dispatch rnd t1 (EvMouseMove x1 y1)
       (h', set_mouse (pointer_over c x0 y0) g)
       = Some (h'', set_mouse (pointer_over c x1 y1) g)) /\
  (exists (h1 h' h'' : Host) (g1 g' g'' : t) (c1 c2 : HTMLCanvasElement),
     dispatch rnd t0 (EvResize b0 i0) (h, g) = Some (h1, g1) /\
     canvas g1 = Some c1 /\
     width c1 = offsetWidth (match parentElement c with
                             | Some _ => b0
                             | None => i0
                             end) /\
     height c1 = offsetHeight (match parentElement c with
                               | Some _ => b0
                               | None => i0
                               end) /\
     run rnd ((t0, EvResize b0 i0) :: map resize_event resizes) (h, g)
       = Some (h', g') /\
     same_field g1 g' /\
     randomDraws h' = randomDraws h1 /\
     dispatch rnd t2 (EvResize b2 i2) (h', g') = Some (h'', g'') /\
     canvas g'' = Some c2 /\
     width c2 = offsetWidth (match parentElement c with
                             | Some _ => b2
                             | None => i2
                             end) /\
     height c2 = offsetHeight (match parentElement c with
                               | Some _ => b2
                               | None => i2
                               end) /\
     List.length (particles g'') = numParticles g /\
     randomDraws h'' = (randomDraws h' + 8 * numParticles g)%nat).
Proof.
  intros Hc (Hlr & Hlm & _ & Htr & Htm) Hmoves Ht1 Hresizes Ht2. split.
  - assert (Hidle : Throttle.run_timers t0 (mouseThrottle h) = Throttle.create)
      by (rewrite Htm; reflexivity).
    pose proof (dispatch_move_accepted h g c t0 x0 y0 Hc Hlm Hidle) as Hfirst.
    set (h1 := host_throttles _ (armed (t0 + 16)) h) in Hfirst.
    destruct (run_moves_dropped (t0 + 16) (set_mouse (pointer_over c x0 y0) g)
                moves) with (h := h1)
      as (h' & Hrun & Hl' & Ht' & _).
    { apply (Forall_impl _ (P := fun e => (t0 <= fst e < t0 + 16)%Z));
        [intros e He; lia | exact Hmoves]. }
    { exact Hlm. }
    { reflexivity. }
    exists h',
      (host_throttles (Throttle.run_timers t1 (resizeThrottle h'))
         (armed (t1 + 16)) h').
    split.
    + cbn [run]. rewrite Hfirst. exact Hrun.
    + rewrite (dispatch_move_accepted h'
                 (set_mouse (pointer_over c x0 y0) g) c t1 x1 y1 Hc Hl');
        [reflexivity |].
      rewrite Ht'. apply run_timers_armed_due. exact Ht1.
  - assert (Hidle : Throttle.run_timers t0 (resizeThrottle h) = Throttle.create)
      by (rewrite Htr; reflexivity).
    destruct (dispatch_resize_accepted h g c t0 b0 i0 Hc Hlr Hidle)
      as (h1 & g1 & c1 & Hfirst & Hc1 & Hw & Hh & Hl1 & Ht1' & Hpar1 & Hn1
          & _ & _).
    destruct (run_resizes_dropped (t0 + 250) resizes) with (h := h1) (g := g1)
      (c := c1)
      as (h' & g' & c' & Hrun & Hsame & Hdraws & Hl' & Ht' & Hc' & Hpar'
          & Hn'); try assumption.
    { apply (Forall_impl _ (P := fun e => (t0 <= fst e < t0 + 250)%Z));
        [intros e He; lia | exact Hresizes]. }
    assert (Hdue : Throttle.run_timers t2 (resizeThrottle h')
                   = Throttle.create).
    { rewrite Ht'. apply run_timers_armed_due. exact Ht2. }
    destruct (dispatch_resize_accepted h' g' c' t2 b2 i2 Hc' Hl' Hdue)
      as (h'' & g'' & c2 & Hlast & Hc2 & Hw2 & Hh2 & _ & _ & _ & _ & Hlen2
          & Hd2).
    assert (Hsame_parent :
              forall (b i : Box),
                match parentElement c' with Some _ => b | None => i end
                = match parentElement c with Some _ => b | None => i end).
    { intros b i.
      destruct (parentElement c') as [p' |] eqn:E';
        destruct (parentElement c) as [p0 |] eqn:E0; try reflexivity.
      - assert (Hnone : parentElement c1 = None) by (apply Hpar1; reflexivity).
        apply Hpar' in Hnone. discriminate.
      - assert (Hnone : parentElement c1 = None)
          by (apply Hpar'; reflexivity).
        apply Hpar1 in Hnone. discriminate. }
    rewrite Hsame_parent in Hw2, Hh2.
    exists h1, h', h'', g1, g', g'', c1, c2.
    split; [exact Hfirst |]. split; [exact Hc1 |].
    split; [exact Hw |]. split; [exact Hh |].
    split; [cbn [run]; rewrite Hfirst; exact Hrun |].
    split; [exact Hsame |]. split; [exact Hdraws |].
    split; [exact Hlast |]. split; [exact Hc2 |].
    split; [exact Hw2 |]. split; [exact Hh2 |].
    split; [rewrite Hlen2; congruence | rewrite Hd2; congruence].
Qed.

End Throttling.

Lemma host_bound_is_bound : bound host_bound.
Proof. unfold bound. repeat split. Qed.

Lemma throttle_keeps_first_input_witness :
  (exists h' h'' : Host,
     GalaxyBackground.run rnd_half
       ((0%Z, EvMouseMove (Fin 10) (Fin 10))
        :: map move_event [(5%Z, (Fin 20, Fin 20))])
       (host_bound, field_200)
       = Some (h', GalaxyBackground.set_mouse
                     (pointer_over canvas_800_600 (Fin 10) (Fin 10))
                     field_200) /\
     GalaxyBackground.dispatch rnd_half 16 (EvMouseMove (Fin 30) (Fin 30))
       (h', GalaxyBackground.set_mouse
              (pointer_over canvas_800_600 (Fin 10) (Fin 10)) field_200)
       = Some (h'', GalaxyBackground.set_mouse
                      (pointer_over canvas_800_600 (Fin 30) (Fin 30))
                      field_200)) /\
  (exists (h1 h' h'' : Host) (g1 g' g'' : GalaxyBackground.t)
          (c1 c2 : HTMLCanvasElement),
     GalaxyBackground.dispatch rnd_half 0
       (EvResize {| offsetWidth := 640; offsetHeight := 480 |}
          {| offsetWidth := 1024; offsetHeight := 768 |})
       (host_bound, field_200) = Some (h1, g1) /\
     GalaxyBackground.canvas g1 = Some c1 /\
     width c1 = 640%N /\
     height c1 = 480%N /\
     GalaxyBackground.run rnd_half
       ((0%Z, EvResize {| offsetWidth := 640; offsetHeight := 480 |}
                {| offsetWidth := 1024; offsetHeight := 768 |})
        :: map resize_event
             [(100%Z, ({| offsetWidth := 320; offsetHeight := 240 |},
                       {| offsetWidth := 1024; offsetHeight := 768 |}))])
       (host_bound, field_200) = Some (h', g') /\
     same_field g1 g' /\
     randomDraws h' = randomDraws h1 /\
     GalaxyBackground.dispatch rnd_half 250
       (EvResize {| offsetWidth := 1280; offsetHeight := 720 |}
          {| offsetWidth := 1280; offsetHeight := 800 |})
       (h', g') = Some (h'', g'') /\
     GalaxyBackground.canvas g'' = Some c2 /\
     width c2 = 1280%N /\
     height c2 = 720%N /\
     List.length (GalaxyBackground.particles g'') = 200%nat /\
     randomDraws h'' = (randomDraws h' + 8 * 200)%nat).
Proof.
  apply (throttle_keeps_first_input rnd_half host_bound field_200
           canvas_800_600 0 16 250 (Fin 10) (Fin 10) (Fin 30) (Fin 30)
           [(5%Z, (Fin 20, Fin 20))]
           {| offsetWidth := 640; offsetHeight := 480 |}
           {| offsetWidth := 1024; offsetHeight := 768 |}
           {| offsetWidth := 1280; offsetHeight := 720 |}
           {| offsetWidth := 1280; offsetHeight := 800 |}
           [(100%Z, ({| offsetWidth := 320; offsetHeight := 240 |},
                     {| offsetWidth := 1024; offsetHeight := 768 |}))]).
  - reflexivity.
  - exact host_bound_is_bound.
  - repeat constructor; cbn; lia.
  - lia.
  - repeat constructor; cbn; lia.
  - lia.
Defined.

(** C3 fails as stated: two pointer moves arrive 5 ms apart, at (10, 10)
    and then at (20, 20), and a frame runs at 16 ms, when the window is
    over.  The pointer state the frame reads is that of the first move, not
    that of the most recent one, which was dropped for good. *)
Lemma throttle_latest_input_counterexample :
  exists (h' : Host) (g' : GalaxyBackground.t),
    GalaxyBackground.run rnd_half
      [(0%Z, EvMouseMove (Fin 10) (Fin 10));
       (5%Z, EvMouseMove (Fin 20) (Fin 20));
       (16%Z, EvFrame)]
      (host_bound, field_200) = Some (h', g') /\
    GalaxyBackground.mouse g' = pointer_over canvas_800_600 (Fin 10) (Fin 10) /\
    GalaxyBackground.mouse g' <> pointer_over canvas_800_600 (Fin 20) (Fin 20).
Proof.
  pose proof (dispatch_move_accepted rnd_half host_bound field_200
                canvas_800_600 0 (Fin 10) (Fin 10) eq_refl eq_refl eq_refl)
    as H0.
  set (h1 := GalaxyBackground.host_throttles _ _ host_bound) in H0.
  set (g1 := GalaxyBackground.set_mouse _ field_200) in H0.
  pose proof (dispatch_move_dropped rnd_half h1 g1 16 5 (Fin 20) (Fin 20)
                eq_refl eq_refl eq_refl) as H5.
  set (h2 := GalaxyBackground.host_throttles _ _ h1) in H5.
  destruct (dispatch_frame_mouse rnd_half 16 h2 g1 canvas_800_600 []
              eq_refl eq_refl) as (h' & g' & H16 & Hm).
  exists h', g'. split; [| split].
  - cbn [GalaxyBackground.run]. rewrite H0, H5, H16. reflexivity.
  - rewrite Hm. reflexivity.
  - rewrite Hm. unfold g1, pointer_over; cbn.
    intros Heq. injection Heq as Heq _. lra.
Qed.

(** * Further properties of the particle field *)

(** ** Sequences of updates *)

Section Sequences.
Import GalaxyParticle.

Lemma updates_cons (a : Mouse * jsnum * jsnum)
    (args : list (Mouse * jsnum * jsnum)) (p : t) :
  updates (a :: args) p =
  updates args (update (fst (fst a)) (snd (fst a)) (snd a) p).
Proof. reflexivity. Qed.

End Sequences.

(** ** The pointer out of reach, and particles out of the plane *)

Section Reach.
Import GalaxyParticle.


Lemma add_NaN_l (a : jsnum) : (NaN + a)%js = NaN.
Proof. reflexivity. Qed.

Lemma add_NaN_r (a : jsnum) : (a + NaN)%js = NaN.
Proof. destruct a; reflexivity. Qed.

Lemma sub_NaN_l (a : jsnum) : (NaN - a)%js = NaN.
Proof. reflexivity. Qed.

Lemma sub_NaN_r (a : jsnum) : (a - NaN)%js = NaN.
Proof. destruct a; reflexivity. Qed.

Lemma mul_NaN_l (a : jsnum) : (NaN * a)%js = NaN.
Proof. reflexivity. Qed.

(** The mouse interaction block never reads a distance off a NaN
    coordinate: the test [distance < 200] fails. *)
Lemma mouse_interaction_NaN_x (m : Mouse) (y1 : jsnum) :
  mouse_interaction m NaN y1 = (NaN, y1).
Proof.
  unfold mouse_interaction.
  destruct (mouse_x m) as [mx |]; [| reflexivity].
  destruct (mouse_y m) as [my |]; [| reflexivity].
  rewrite sub_NaN_r, mul_NaN_l, add_NaN_l. reflexivity.
Qed.

Lemma mouse_interaction_NaN_y (m : Mouse) (x1 : jsnum) :
  mouse_interaction m x1 NaN = (x1, NaN).
Proof.
  unfold mouse_interaction.
  destruct (mouse_x m) as [mx |]; [| reflexivity].
  destruct (mouse_y m) as [my |]; [| reflexivity].
  rewrite sub_NaN_r, mul_NaN_l, add_NaN_r. reflexivity.
Qed.

(** X3. A particle whose [x] is NaN is lost for good: whatever the pointers
    and the dimensions of the updates that follow, [x] stays NaN, and each
    of these updates ignores the pointer. *)
Theorem NaN_position_persists (args : list (Mouse * jsnum * jsnum)) :
  forall p : t,
    x p = NaN ->
    x (updates args p) = NaN /\
    forall (m : Mouse) (cw ch : jsnum),
      update m cw ch (updates args p)
      = update mouse_null cw ch (updates args p).
Proof.
  assert (Hone : forall (m : Mouse) (cw ch : jsnum) (q : t),
             x q = NaN ->
             x (update m cw ch q) = NaN /\
             update m cw ch q = update mouse_null cw ch q).
  { intros m cw ch q Hq. unfold update. rewrite Hq, add_NaN_l.
    rewrite mouse_interaction_NaN_x, mouse_interaction_null.
    split; reflexivity. }
  induction args as [| [[m cw] ch] args IH]; intros p Hp.
  - split; [exact Hp |]. intros m cw ch. apply Hone. exact Hp.
  - rewrite updates_cons. cbn [fst snd]. apply IH.
    apply Hone. exact Hp.
Qed.

End Reach.


Lemma particle_lost_x : GalaxyParticle.x particle_lost = NaN.
Proof.
  unfold particle_lost.
  apply (update_coincident_pointer (Fin 800) (Fin 600)
           (particle_at 100 100 0 0) 100 100 0 0); reflexivity.
Qed.

Lemma NaN_position_persists_witness :
  GalaxyParticle.x
    (updates [(mouse_at 10 10, Fin 800, Fin 600);
              (mouse_null, Fin 800, Fin 600)] particle_lost) = NaN /\
  forall (m : Mouse) (cw ch : jsnum),
    GalaxyParticle.update m cw ch
      (updates [(mouse_at 10 10, Fin 800, Fin 600);
                (mouse_null, Fin 800, Fin 600)] particle_lost)
    = GalaxyParticle.update mouse_null cw ch
        (updates [(mouse_at 10 10, Fin 800, Fin 600);
                  (mouse_null, Fin 800, Fin 600)] particle_lost).
Proof.
  apply (NaN_position_persists
           [(mouse_at 10 10, Fin 800, Fin 600); (mouse_null, Fin 800, Fin 600)]
           particle_lost).
  exact particle_lost_x.
Defined.

(** ** More on the connection pass *)

Section ConnectionFacts.
Import GalaxyBackground.

Lemma connection_NaN_left (ps : list GalaxyParticle.t) (i j : nat)
    (p : GalaxyParticle.t) :
  nth_error ps i = Some p ->
  GalaxyParticle.x p = NaN \/ GalaxyParticle.y p = NaN ->
  connection ps i j = [].
Proof.
  intros Hi Hp. unfold connection. rewrite Hi.
  destruct (nth_error ps j) as [q |]; [| reflexivity].
  destruct Hp as [Hp | Hp]; rewrite Hp.
  - rewrite sub_NaN_l, mul_NaN_l, add_NaN_l. reflexivity.
  - rewrite sub_NaN_l, mul_NaN_l, add_NaN_r. reflexivity.
Qed.

Lemma connection_NaN_right (ps : list GalaxyParticle.t) (i j : nat)
    (p : GalaxyParticle.t) :
  nth_error ps j = Some p ->
  GalaxyParticle.x p = NaN \/ GalaxyParticle.y p = NaN ->
  connection ps i j = [].
Proof.
  intros Hj Hp. unfold connection. rewrite Hj.
  destruct (nth_error ps i) as [q |]; [| reflexivity].
  destruct Hp as [Hp | Hp]; rewrite Hp.
  - rewrite sub_NaN_r, mul_NaN_l, add_NaN_l. reflexivity.
  - rewrite sub_NaN_r, mul_NaN_l, add_NaN_r. reflexivity.
Qed.

(** X4. A particle with a NaN coordinate is joined to no other particle:
    no line of the connection pass starts or ends at it. *)
Theorem lost_particle_has_no_line (ps : list GalaxyParticle.t) (k : nat)
    (p : GalaxyParticle.t) :
  nth_error ps k = Some p ->
  GalaxyParticle.x p = NaN \/ GalaxyParticle.y p = NaN ->
  Forall (fun l => line_i l <> k /\ line_j l <> k) (connections ps).
Proof.
  intros Hk Hp. apply Forall_forall. intros l Hl.
  apply in_connections in Hl. destruct Hl as [_ Hl].
  split; intros Heq; rewrite Heq in Hl.
  - rewrite (connection_NaN_left ps k _ p Hk Hp) in Hl. exact Hl.
  - rewrite (connection_NaN_right ps _ k p Hk Hp) in Hl. exact Hl.
Qed.

(** A distance that passes a test [distance < c] was computed from finite
    differences. *)
Lemma norm_lt_finite (dx dy : jsnum) (c : R) :
  (Math_sqrt (dx * dx + dy * dy) <? Fin c)%js = true ->
  exists a b : R, dx = Fin a /\ dy = Fin b.
Proof.
  destruct dx as [a | | |], dy as [b | | |]; cbn;
    try discriminate; try (intros _; exists a, b; split; reflexivity).
  all: try (destruct (Rltb _ 0); cbn; discriminate).
Qed.

Lemma sub_finite (u v : jsnum) (d : R) :
  (u - v)%js = Fin d -> exists a b : R, u = Fin a /\ v = Fin b.
Proof.
  destruct u as [a | | |], v as [b | | |]; cbn; try discriminate.
  intros _. exists a, b. split; reflexivity.
Qed.

(** X5. Every line of the connection pass joins two particles with finite
    coordinates and has a finite opacity in (0, 0.3]. *)
Theorem line_opacity_range (ps : list GalaxyParticle.t) :
  Forall
    (fun l =>
       (exists o : R, line_opacity l = Fin o /\ 0 < o <= 0.3) /\
       (exists a b c d : R,
          line_from l = (Fin a, Fin b) /\ line_to l = (Fin c, Fin d)))
    (connections ps).
Proof.
  apply Forall_forall. intros l Hl.
  apply in_connections in Hl. destruct Hl as [_ Hl].
  pose proof Hl as Hl'. unfold connection in Hl'.
  destruct (nth_error ps (line_i l)) as [pi |] eqn:Hi; [| destruct Hl'].
  destruct (nth_error ps (line_j l)) as [pj |] eqn:Hj; [| destruct Hl'].
  destruct (_ <? _)%js eqn:Hlt; [| destruct Hl'].
  clear Hl'.
  destruct (norm_lt_finite _ _ _ Hlt) as (dx & dy & Hdx & Hdy).
  destruct (sub_finite _ _ _ Hdx) as (a & c & Ha & Hc).
  destruct (sub_finite _ _ _ Hdy) as (b & d & Hb & Hd).
  rewrite (connection_finite ps _ _ pi pj a b c d Hi Hj Ha Hb Hc Hd)
    in Hl.
  rewrite Ha, Hb, Hc, Hd, interaction_distance in Hlt. cbn [lt] in Hlt.
  rewrite Hlt in Hl. destruct Hl as [<- | []]. cbn.
  apply Rltb_spec in Hlt. pose proof (dist_nonneg a b c d) as Hpos.
  split.
  - exists (opacity_at (dist a b c d)). split; [reflexivity |].
    unfold opacity_at. lra.
  - exists a, b, c, d. split; reflexivity.
Qed.

Lemma NoDup_flat_map_keyed {A B K : Type} (key : B -> K) (tag : K -> A)
    (f : A -> list B) (xs : list A) :
  NoDup xs ->
  (forall a, NoDup (map key (f a))) ->
  (forall a b, In b (f a) -> tag (key b) = a) ->
  NoDup (map key (flat_map f xs)).
Proof.
  intros Hxs Hf Htag. induction Hxs as [| a xs Ha _ IH]; cbn.
  - constructor.
  - rewrite map_app. apply NoDup_app; [apply Hf | exact IH |].
    intros k Hk1 Hk2.
    apply in_map_iff in Hk1. destruct Hk1 as (b1 & <- & Hb1).
    apply in_map_iff in Hk2. destruct Hk2 as (b2 & Heq & Hb2).
    apply in_flat_map in Hb2. destruct Hb2 as (a' & Ha' & Hb2).
    apply Ha. rewrite <- (Htag a b1 Hb1), <- Heq, (Htag a' b2 Hb2).
    exact Ha'.
Qed.

(** X6. The connection pass strokes a pair of particles at most once, and
    each line takes six calls on the context. *)
Theorem each_pair_once (ps : list GalaxyParticle.t) :
  NoDup (map line_pair (connections ps)) /\
  List.length (drawConnections ps) = (6 * List.length (connections ps))%nat.
Proof.
  split.
  - unfold connections.
    apply (NoDup_flat_map_keyed line_pair fst); [apply seq_NoDup | |].
    + intros i.
      apply (NoDup_flat_map_keyed line_pair snd); [apply seq_NoDup | |].
      * intros j. unfold connection.
        destruct (nth_error ps i); [| constructor].
        destruct (nth_error ps j); [| constructor].
        destruct (_ <? _)%js; repeat constructor. intros [].
      * intros j l Hl. apply connection_indices in Hl. apply Hl.
    + intros i l Hl. apply in_flat_map in Hl. destruct Hl as (j & _ & Hl).
      apply connection_indices in Hl. apply Hl.
  - unfold drawConnections.
    induction (connections ps) as [| l ls IH]; [reflexivity |].
    cbn [flat_map]. rewrite length_app, IH. cbn [stroke_line List.length].
    lia.
Qed.

End ConnectionFacts.

Lemma lost_particle_has_no_line_witness :
  Forall
    (fun l => GalaxyBackground.line_i l <> 0%nat /\
              GalaxyBackground.line_j l <> 0%nat)
    (GalaxyBackground.connections
       [particle_lost; particle_at 100 0 0 0; particle_at 0 0 0 0]).
Proof.
  apply (lost_particle_has_no_line
           [particle_lost; particle_at 100 0 0 0; particle_at 0 0 0 0]
           0 particle_lost).
  - reflexivity.
  - left. exact particle_lost_x.
Defined.

(** ** What the constructor draws *)

Section Draws.
Import GalaxyParticle.
Variable rnd : nat -> R.

(** The loop of [createParticles] makes the particles one after the other,
    each from its own eight draws. *)
Lemma createParticles_loop_map (n : nat) (cw ch : jsnum) :
  forall (k : nat) (acc : list t),
    GalaxyBackground.createParticles_loop rnd n k cw ch acc =
    (acc ++ map (fun i => constructor rnd (k + 8 * i) cw ch) (seq 0 n),
     (k + 8 * n)%nat).
Proof.
  induction n as [| n IH]; intros k acc;
    cbn [GalaxyBackground.createParticles_loop].
  - cbn [seq map]. rewrite app_nil_r. f_equal. lia.
  - rewrite IH. unfold draws_per_particle. f_equal; [| lia].
    rewrite <- app_assoc. f_equal. cbn [seq map app].
    f_equal; [f_equal; lia |].
    rewrite <- seq_shift, map_map. apply map_ext.
    intros i. f_equal. lia.
Qed.

(** [createParticles()] on a resolved canvas, in full. *)
Lemma createParticles_result (h : Host) (g : GalaxyBackground.t)
    (c : HTMLCanvasElement) :
  GalaxyBackground.canvas g = Some c ->
  exists h' : Host,
    GalaxyBackground.createParticles rnd (h, g) =
    Some (h',
          GalaxyBackground.set_particles
            (map (fun i => constructor rnd (randomDraws h + 8 * i)
                             (N2js (width c)) (N2js (height c)))
               (seq 0 (GalaxyBackground.numParticles g))) g) /\
    randomDraws h'
      = (randomDraws h + 8 * GalaxyBackground.numParticles g)%nat /\
    listeners h' = listeners h /\
    pendingFrames h' = pendingFrames h.
Proof.
  intros Hc. unfold GalaxyBackground.createParticles. rewrite Hc.
  destruct (GalaxyBackground.numParticles g) as [| n] eqn:Hn.
  - exists h. repeat split. lia.
  - rewrite <- Hn, createParticles_loop_map. cbn [app].
    eexists. split; [reflexivity |]. repeat split.
Qed.

(** X7. [createParticles] on a resolved canvas replaces the collection by
    [numParticles] particles, the [i]-th made from the draws number
    [8 * i] to [8 * i + 7] counted from the draws made before, and uses up
    exactly [8 * numParticles] draws. *)
Theorem createParticles_draws (h : Host) (g : GalaxyBackground.t)
    (c : HTMLCanvasElement) :
  GalaxyBackground.canvas g = Some c ->
  exists h' : Host,
    GalaxyBackground.createParticles rnd (h, g) =
    Some (h',
          GalaxyBackground.set_particles
            (map (fun i => constructor rnd (randomDraws h + 8 * i)
                             (N2js (width c)) (N2js (height c)))
               (seq 0 (GalaxyBackground.numParticles g))) g) /\
    randomDraws h'
      = (randomDraws h + 8 * GalaxyBackground.numParticles g)%nat /\
    listeners h' = listeners h /\
    pendingFrames h' = pendingFrames h.
Proof.
  intros Hc.
  destruct (createParticles_result h g c Hc) as (h' & Hrun & Hk & Hl & Hp).
  exists h'. split; [exact Hrun |]. split; [exact Hk |].
  split; [exact Hl | exact Hp].
Qed.

Hypothesis rnd_range : forall n : nat, 0 <= rnd n < 1.

(** A particle the constructor makes is a legal start of a flight. *)
Lemma constructor_initial_draw (k : nat) (W H : N) :
  initial_draw (IZR (Z.of_N W)) (IZR (Z.of_N H))
    (constructor rnd k (N2js W) (N2js H)).
Proof.
  pose proof (rnd_range k) as H0. pose proof (rnd_range (k + 1)) as H1.
  pose proof (rnd_range (k + 4)) as H4. pose proof (rnd_range (k + 5)) as H5.
  assert (HW : 0 <= IZR (Z.of_N W)) by apply IZR_le, N2Z.is_nonneg.
  assert (HH : 0 <= IZR (Z.of_N H)) by apply IZR_le, N2Z.is_nonneg.
  exists (rnd k * IZR (Z.of_N W)), (rnd (k + 1)%nat * IZR (Z.of_N H)),
    ((rnd (k + 4)%nat - 0.5) * 0.5), ((rnd (k + 5)%nat - 0.5) * 0.5).
  repeat split; try reflexivity; nra.
Qed.

(** X8. A particle the constructor makes for a surface of [W] x [H] pixels
    lies inside the surface with each speed in [-0.25, 0.25], has one of
    the ten colours of the palette, a phase in [0, 2 pi) and a pulse speed
    in [0.02, 0.05), and starts at its base radius. *)
Theorem constructor_ranges (k : nat) (W H : N) :
  let p := constructor rnd k (N2js W) (N2js H) in
  initial_draw (IZR (Z.of_N W)) (IZR (Z.of_N H)) p /\
  (exists c : string, color p = Some c /\ In c colors) /\
  (exists phi s : R,
     pulsePhase p = Fin phi /\ 0 <= phi < 2 * PI /\
     pulseSpeed p = Fin s /\ 0.02 <= s < 0.05) /\
  radius p = baseRadius p.
Proof.
  intros p.
  pose proof (rnd_range k) as H0. pose proof (rnd_range (k + 1)) as H1.
  pose proof (rnd_range (k + 3)) as H3. pose proof (rnd_range (k + 4)) as H4.
  pose proof (rnd_range (k + 5)) as H5. pose proof (rnd_range (k + 6)) as H6.
  pose proof (rnd_range (k + 7)) as H7.
  assert (HW : 0 <= IZR (Z.of_N W)) by apply IZR_le, N2Z.is_nonneg.
  assert (HH : 0 <= IZR (Z.of_N H)) by apply IZR_le, N2Z.is_nonneg.
  split; [| split; [| split]].
  - apply constructor_initial_draw.
  - assert (Hten : INR (List.length colors) = 10) by (cbn; lra).
    destruct (base_Int_part (rnd (k + 3)%nat * INR (List.length colors)))
      as [Hlo Hhi].
    set (z := Int_part (rnd (k + 3)%nat * INR (List.length colors))) in *.
    rewrite Hten in Hlo, Hhi.
    assert (Hz : (0 <= z < 10)%Z).
    { split.
      - apply Z.lt_succ_r. apply lt_IZR. rewrite succ_IZR. lra.
      - apply lt_IZR. lra. }
    assert (Hidx : (Z.to_nat z < List.length colors)%nat) by (cbn; lia).
    apply nth_error_Some in Hidx.
    destruct (nth_error colors (Z.to_nat z)) as [c |] eqn:Hc;
      [| contradiction].
    exists c. split; [exact Hc | exact (nth_error_In _ _ Hc)].
  - pose proof PI_RGT_0 as Hpi.
    exists (rnd (k + 6)%nat * PI * 2), (0.02 + rnd (k + 7)%nat * 0.03).
    repeat split; try reflexivity; nra.
  - reflexivity.
Qed.

(** X9. The particles [createParticles] makes, updated any number of times
    with the pointer null, stay within one unit of the surface and keep the
    magnitudes of their speeds: creation and flight fit together whatever
    the size of the canvas. *)
Theorem created_particles_stay_near (n : nat) (h : Host)
    (g : GalaxyBackground.t) (c : HTMLCanvasElement) :
  GalaxyBackground.canvas g = Some c ->
  GalaxyBackground.mouse g = mouse_null ->
  exists (h' : Host) (g0 g' : GalaxyBackground.t),
    GalaxyBackground.createParticles rnd (h, g) = Some (h', g0) /\
    update_steps n (h', g0) = Some (h', g') /\
    List.length (GalaxyBackground.particles g')
      = GalaxyBackground.numParticles g /\
    Forall2
      (within_margin (IZR (Z.of_N (width c))) (IZR (Z.of_N (height c))))
      (GalaxyBackground.particles g0) (GalaxyBackground.particles g').
Proof.
  intros Hc Hm.
  destruct (createParticles_result h g c Hc) as (h' & Hcreate & _).
  set (ps := map _ (seq 0 (GalaxyBackground.numParticles g))) in Hcreate.
  set (g0 := GalaxyBackground.set_particles ps g) in *.
  assert (Hinit : Forall (initial_draw (IZR (Z.of_N (width c)))
                            (IZR (Z.of_N (height c)))) ps).
  { apply Forall_forall. intros p Hp. apply in_map_iff in Hp.
    destruct Hp as (i & <- & _). apply constructor_initial_draw. }
  destruct (update_steps_flight n h' c 0.25 ps g0) as (g' & Hrun & Hinv).
  - exact Hc.
  - exact Hm.
  - apply (Forall2_diag _ _ ps (fun p => flight_start _ _ p) Hinit).
  - exists h', g0, g'. split; [exact Hcreate |]. split; [exact Hrun |].
    split.
    + rewrite <- (Forall2_length Hinv). unfold ps.
      rewrite length_map, length_seq. reflexivity.
    + apply (Forall2_weaken _ _ _ _ (flight_within_margin _ _) Hinv).
Qed.

End Draws.

Lemma createParticles_draws_witness :
  exists h' : Host,
    GalaxyBackground.createParticles rnd_half (host_idle, field_200) =
    Some (h',
          GalaxyBackground.set_particles
            (map (fun i =>
                    GalaxyParticle.constructor rnd_half
                      (randomDraws host_idle + 8 * i)
                      (N2js (width canvas_800_600))
                      (N2js (height canvas_800_600)))
               (seq 0 (GalaxyBackground.numParticles field_200)))
            field_200) /\
    randomDraws h'
      = (randomDraws host_idle
         + 8 * GalaxyBackground.numParticles field_200)%nat /\
    listeners h' = listeners host_idle /\
    pendingFrames h' = pendingFrames host_idle.
Proof.
  apply (createParticles_draws rnd_half host_idle field_200 canvas_800_600).
  reflexivity.
Defined.

Lemma constructor_ranges_witness :
  let p := GalaxyParticle.constructor rnd_half 0 (N2js 800) (N2js 600) in
  initial_draw (IZR (Z.of_N 800)) (IZR (Z.of_N 600)) p /\
  (exists c : string,
     GalaxyParticle.color p = Some c /\ In c GalaxyParticle.colors) /\
  (exists phi s : R,
     GalaxyParticle.pulsePhase p = Fin phi /\ 0 <= phi < 2 * PI /\
     GalaxyParticle.pulseSpeed p = Fin s /\ 0.02 <= s < 0.05) /\
  GalaxyParticle.radius p = GalaxyParticle.baseRadius p.
Proof.
  apply (constructor_ranges rnd_half rnd_half_range 0 800 600).
Defined.

Lemma created_particles_stay_near_witness :
  exists (h' : Host) (g0 g' : GalaxyBackground.t),
    GalaxyBackground.createParticles rnd_half (host_idle, field_200)
      = Some (h', g0) /\
    update_steps 60 (h', g0) = Some (h', g') /\
    List.length (GalaxyBackground.particles g')
      = GalaxyBackground.numParticles field_200 /\
    Forall2
      (within_margin (IZR (Z.of_N (width canvas_800_600)))
         (IZR (Z.of_N (height canvas_800_600))))
      (GalaxyBackground.particles g0) (GalaxyBackground.particles g').
Proof.
  apply (created_particles_stay_near rnd_half rnd_half_range 60 host_idle
           field_200 canvas_800_600); reflexivity.
Defined.

(** ** The pointer state and the frame loop *)

Section Loop.
Import GalaxyBackground.
Variable rnd : nat -> R.

(** What each listener and [animate] leave alone. *)
Lemma on_resize_effect (h h' : Host) (g g' : t) :
  on_resize rnd tt (h, g) = Some (h', g') ->
  mouse g' = mouse g /\ animationId g' = animationId g /\
  listeners h' = listeners h /\ pendingFrames h' = pendingFrames h /\
  frameRequests h' = frameRequests h.
Proof.
  unfold on_resize, resizeCanvas.
  destruct (canvas g) as [c |]; [| discriminate].
  unfold createParticles. cbn [canvas set_canvas numParticles].
  destruct (numParticles g).
  - intros H. injection H as <- <-. repeat split.
  - destruct (createParticles_loop _ _ _ _ _ _) as [ps k].
    intros H. injection H as <- <-. repeat split.
Qed.

Lemma on_mousemove_effect (e : jsnum * jsnum) (h h' : Host) (g g' : t) :
  on_mousemove e (h, g) = Some (h', g') ->
  pointer_ok (mouse g') /\ animationId g' = animationId g /\ h' = h.
Proof.
  unfold on_mousemove. destruct (canvas g) as [c |]; [| discriminate].
  intros H. injection H as <- <-. split; [| split; reflexivity].
  right. eexists; eexists. split; reflexivity.
Qed.

Lemma draw_effect (h h' : Host) (g g' : t) :
  draw (h, g) = Returns (h', g') \/
  (exists e, draw (h, g) = Throws e (h', g')) ->
  h' = h /\ mouse g' = mouse g /\ animationId g' = animationId g /\
  particles g' = particles g.
Proof.
  unfold draw.
  destruct (ctx g) as [cmds |].
  - destruct (canvas g) as [c |].
    + destruct (perform _) as [made [e |]].
      * intros [H | [e' H]]; [discriminate |].
        injection H as _ <- <-. repeat split.
      * intros [H | [e' H]]; [| discriminate].
        injection H as <- <-. repeat split.
    + intros [H | [e' H]]; [discriminate |].
      injection H as _ <- <-. repeat split.
  - intros [H | [e' H]]; [discriminate |].
    injection H as _ <- <-. repeat split.
Qed.

Lemma animate_effect (h h' : Host) (g g' : t) :
  animate (h, g) = Returns (h', g') \/
  (exists e, animate (h, g) = Throws e (h', g')) ->
  mouse g' = mouse g /\
  animationId g' = Some (S (frameRequests h)) /\
  pendingFrames h' = pendingFrames h ++ [S (frameRequests h)] /\
  frameRequests h' = S (frameRequests h) /\
  listeners h' = listeners h /\
  List.length (particles g') = List.length (particles g).
Proof.
  unfold animate.
  destruct (update _) as [[h2 g2] |] eqn:Hu.
  - intros Hd. apply draw_effect in Hd. destruct Hd as (-> & Hm & Ha & Hp).
    unfold update in Hu. cbn [particles canvas set_animationId] in Hu.
    destruct (particles g) as [| p ps] eqn:Hps.
    + injection Hu as <- <-. rewrite Hm, Ha, Hp. cbn. rewrite Hps.
      repeat split.
    + destruct (canvas g); [| discriminate].
      injection Hu as <- <-. rewrite Hm, Ha, Hp. cbn.
      rewrite length_map. repeat split.
  - intros [H | [e H]]; [discriminate |].
    injection H as _ <- <-. repeat split.
Qed.

(** What one event keeps: the pointer well formed, the loop running, the
    listeners bound. *)
Lemma dispatch_keeps (now : Z) (ev : Event) (w w' : World) :
  dispatch rnd now ev w = Some w' ->
  pointer_ok (mouse (snd w)) ->
  looping w ->
  pointer_ok (mouse (snd w')) /\ looping w' /\
  listeners (fst w') = listeners (fst w).
Proof.
  destruct w as [h g], w' as [h' g']. unfold dispatch.
  set (h0 := host_throttles _ _ h). cbn [fst snd].
  intros Hd Hptr (id & Hid & Hpend & Hreq). cbn [fst snd] in *.
  assert (Hpend0 : pendingFrames h0 = [S id]) by exact Hpend.
  assert (Hreq0 : frameRequests h0 = S id) by exact Hreq.
  assert (Hl0 : listeners h0 = listeners h) by reflexivity.
  clearbody h0.
  destruct ev as [container inner | cx cy | |].
  - destruct (relayout container inner (h0, g)) as [h1 g1] eqn:Hrel.
    assert (Hrel' : mouse g1 = mouse g /\ animationId g1 = animationId g /\
                    listeners h1 = listeners h0 /\
                    pendingFrames h1 = pendingFrames h0 /\
                    frameRequests h1 = frameRequests h0).
    { unfold relayout in Hrel. destruct (canvas g);
        injection Hrel as <- <-; repeat split. }
    destruct Hrel' as (Rm & Ra & Rl & Rp & Rf).
    destruct (listening OnResize h1).
    + unfold Throttle.executedFunction in Hd.
      destruct (negb _).
      * destruct (on_resize rnd tt (h1, g1)) as [[h2 g2] |] eqn:Hres;
          [| discriminate].
        injection Hd as <- <-.
        destruct (on_resize_effect _ _ _ _ Hres) as (Em & Ea & El & Ep & Ef).
        split; [rewrite Em, Rm; exact Hptr |].
        split; [| cbn; congruence].
        exists id. cbn. repeat split; congruence.
      * injection Hd as <- <-.
        split; [rewrite Rm; exact Hptr |].
        split; [| cbn; congruence].
        exists id. cbn. repeat split; congruence.
    + injection Hd as <- <-.
      split; [rewrite Rm; exact Hptr |].
      split; [| congruence].
      exists id. cbn [fst snd]. repeat split; congruence.
  - destruct (listening OnMouseMove h0).
    + unfold Throttle.executedFunction in Hd.
      destruct (negb _).
      * destruct (on_mousemove (cx, cy) (h0, g)) as [[h2 g2] |] eqn:Hmv;
          [| discriminate].
        injection Hd as <- <-.
        destruct (on_mousemove_effect _ _ _ _ _ Hmv) as (Em & Ea & ->).
        split; [exact Em |]. split; [| exact Hl0].
        exists id. cbn. repeat split; congruence.
      * injection Hd as <- <-.
        split; [exact Hptr |]. split; [| exact Hl0].
        exists id. cbn. repeat split; congruence.
    + injection Hd as <- <-.
      split; [exact Hptr |]. split; [| exact Hl0].
      exists id. cbn [fst snd]. repeat split; congruence.
  - destruct (listening OnMouseLeave h0).
    + unfold on_mouseleave in Hd. injection Hd as <- <-.
      split; [left; split; reflexivity |]. split; [| exact Hl0].
      exists id. cbn. repeat split; congruence.
    + injection Hd as <- <-.
      split; [exact Hptr |]. split; [| exact Hl0].
      exists id. cbn [fst snd]. repeat split; congruence.
  - rewrite Hpend0 in Hd.
    destruct (animate _) as [[h5 g5] | e [h5 g5]] eqn:Ha.
    + injection Hd as <- <-.
      destruct (animate_effect _ _ _ _ (or_introl Ha))
        as (Em & Ea & Ep & Ef & El & _).
      cbn in Ea, Ep, Ef, El.
      split; [rewrite Em; exact Hptr |]. split; [| congruence].
      exists (frameRequests h0). repeat split; assumption.
    + injection Hd as <- <-.
      destruct (animate_effect _ _ _ _ (or_intror (ex_intro _ e Ha)))
        as (Em & Ea & Ep & Ef & El & _).
      cbn in Ea, Ep, Ef, El.
      split; [rewrite Em; exact Hptr |]. split; [| cbn; congruence].
      exists (frameRequests h0). cbn. repeat split; assumption.
Qed.

Lemma run_keeps (evs : list (Z * Event)) :
  forall w w' : World,
    run rnd evs w = Some w' ->
    pointer_ok (mouse (snd w)) ->
    looping w ->
    pointer_ok (mouse (snd w')) /\ looping w' /\
    listeners (fst w') = listeners (fst w).
Proof.
  induction evs as [| [now ev] evs IH]; intros w w' Hrun Hptr Hloop.
  - injection Hrun as <-. repeat split; assumption.
  - cbn [run] in Hrun.
    destruct (dispatch rnd now ev w) as [w1 |] eqn:Hd; [| discriminate].
    destruct (dispatch_keeps now ev w w1 Hd Hptr Hloop) as (P1 & L1 & E1).
    destruct (IH w1 w' Hrun P1 L1) as (P2 & L2 & E2).
    repeat split; try assumption. congruence.
Qed.

(** What construction on a resolved canvas sets up. *)
Lemma constructor_keeps (h : Host) (id : string) (c : HTMLCanvasElement)
    (w : World) :
  constructor rnd h id (Some c) = Some w ->
  pendingFrames h = [] ->
  mouse (snd w) = mouse_null /\ looping w /\
  listeners (fst w)
    = listeners h ++ [OnResize; OnMouseMove; OnMouseLeave].
Proof.
  unfold constructor, init. cbn [canvas].
  unfold resizeCanvas. cbn [canvas set_ctx].
  unfold createParticles. cbn [canvas set_canvas numParticles set_ctx].
  destruct (createParticles_loop _ _ _ _ _ _) as [ps k].
  unfold bindEvents. cbn [canvas set_particles set_canvas set_ctx].
  match goal with
  | |- context [animate ?w0] =>
      destruct (animate w0) as [[h5 g5] | e w5] eqn:Ha; [| discriminate]
  end.
  intros H Hp. injection H as <-.
  destruct (animate_effect _ _ _ _ (or_introl Ha))
    as (Em & Ea & Ep & Ef & El & _).
  cbn in Em, Ea, Ep, Ef, El. cbn [fst snd].
  split; [exact Em |]. split.
  - exists (frameRequests h). cbn. rewrite Hp in Ep.
    repeat split; assumption.
  - cbn. rewrite El, <- !app_assoc. reflexivity.
Qed.

End Loop.

Section Lifecycle.
Import GalaxyBackground.
Variable rnd : nat -> R.
Hypothesis rnd_range : forall n : nat, 0 <= rnd n < 1.

Lemma listening_bound (h : Host) (l : Listener) (ls : list Listener) :
  listeners h = ls ++ [OnResize; OnMouseMove; OnMouseLeave] ->
  listening l h = true.
Proof.
  intros Hl. unfold listening. rewrite Hl, existsb_app.
  destruct l; cbn; apply orb_true_r.
Qed.

(** Construction and any run of events after it. *)
Lemma field_runs (h : Host) (id : string) (c : HTMLCanvasElement)
    (evs : list (Z * Event)) :
  pendingFrames h = [] ->
  exists w w' : World,
    constructor rnd h id (Some c) = Some w /\
    run rnd evs w = Some w' /\
    pointer_ok (mouse (snd w')) /\
    looping w' /\
    listeners (fst w')
      = listeners h ++ [OnResize; OnMouseMove; OnMouseLeave].
Proof.
  intros Hp.
  destruct (constructor_live rnd rnd_range h id c) as (w & Hw & Hlive).
  destruct (run_live rnd rnd_range evs w Hlive) as (w' & Hrun & _).
  destruct (constructor_keeps rnd h id c w Hw Hp) as (Hm & Hloop & Hls).
  assert (Hptr : pointer_ok (mouse (snd w))).
  { rewrite Hm. left. split; reflexivity. }
  destruct (run_keeps rnd evs w w' Hrun Hptr Hloop) as (P & L & E).
  exists w, w'. repeat split; try assumption. congruence.
Qed.


(** A frame callback that finds no frame pending does nothing. *)
Lemma frames_idle (t0 : Z) (n : nat) (g : t) :
  forall (k : nat) (h : Host),
    pendingFrames h = [] ->
    exists h' : Host,
      run rnd (map (fun i => ((t0 + 16 * Z.of_nat i)%Z, EvFrame)) (seq k n))
        (h, g) = Some (h', g) /\
      pendingFrames h' = [] /\
      frameRequests h' = frameRequests h /\
      listeners h' = listeners h.
Proof.
  induction n as [| n IH]; intros k h Hp.
  - exists h. repeat split; assumption.
  - cbn [seq map run]. unfold dispatch.
    cbn [pendingFrames host_throttles]. rewrite Hp.
    destruct (IH (S k) (host_throttles
                          (Throttle.run_timers (t0 + 16 * Z.of_nat k)
                             (resizeThrottle h))
                          (Throttle.run_timers (t0 + 16 * Z.of_nat k)
                             (mouseThrottle h)) h) Hp)
      as (h' & Hrun & Hp' & Hf' & Hl').
    exists h'. repeat split; assumption.
Qed.

(** X12. [destroy], at any moment of the life of the field, cancels the
    pending frame and empties the collection: the frame callbacks that come
    afterwards find nothing pending, request no frame and leave the field
    as it is. *)
Theorem destroy_stops_the_loop (h : Host) (id : string)
    (c : HTMLCanvasElement) (evs : list (Z * Event)) (t0 : Z) (n : nat) :
  pendingFrames h = [] ->
  exists w w1 w2 w3 : World,
    constructor rnd h id (Some c) = Some w /\
    run rnd evs w = Some w1 /\
    destroy w1 = Some w2 /\
    particles (snd w2) = [] /\
    pendingFrames (fst w2) = [] /\
    run rnd (frames t0 n) w2 = Some w3 /\
    snd w3 = snd w2 /\
    pendingFrames (fst w3) = [] /\
    frameRequests (fst w3) = frameRequests (fst w1).
Proof.
  intros Hp.
  destruct (field_runs h id c evs Hp)
    as (w & w1 & Hw & Hrun & _ & (k & Hid & Hpend & Hreq) & _).
  destruct w1 as [h1 g1]. cbn [fst snd] in *.
  assert (Hd : exists h2, destroy (h1, g1) = Some (h2, set_particles [] g1)
                          /\ pendingFrames h2 = []
                          /\ frameRequests h2 = frameRequests h1).
  { unfold destroy. rewrite Hid, Hpend. cbn [filter].
    rewrite Nat.eqb_refl. cbn [negb].
    eexists. split; [reflexivity |]. split; reflexivity. }
  destruct Hd as (h2 & Hd & Hp2 & Hf2).
  destruct (frames_idle t0 n (set_particles [] g1) 0 h2 Hp2)
    as (h3 & Hrun3 & Hp3 & Hf3 & _).
  exists w, (h1, g1), (h2, set_particles [] g1), (h3, set_particles [] g1).
  cbn [fst snd]. repeat split; try assumption. congruence.
Qed.

(** X13. [destroy] unbinds nothing: the "resize" listener is still bound
    afterwards, and when it runs it fills the collection again with the
    configured number of particles, which no frame will draw. *)
Theorem destroy_leaves_listeners (h : Host) (id : string)
    (c : HTMLCanvasElement) (evs : list (Z * Event)) :
  pendingFrames h = [] ->
  exists w w1 w2 w3 : World,
    constructor rnd h id (Some c) = Some w /\
    run rnd evs w = Some w1 /\
    destroy w1 = Some w2 /\
    particles (snd w2) = [] /\
    listening OnResize (fst w2) = true /\
    listening OnMouseMove (fst w2) = true /\
    on_resize rnd tt w2 = Some w3 /\
    List.length (particles (snd w3)) = 200%nat /\
    pendingFrames (fst w3) = [].
Proof.
  intros Hp.
  destruct (constructor_live rnd rnd_range h id c) as (w & Hw & Hlive).
  destruct (run_live rnd rnd_range evs w Hlive) as (w1 & Hrun & Hlive1).
  destruct (constructor_keeps rnd h id c w Hw Hp) as (Hm & Hloop & Hls).
  assert (Hptr : pointer_ok (mouse (snd w))).
  { rewrite Hm. left. split; reflexivity. }
  destruct (run_keeps rnd evs w w1 Hrun Hptr Hloop)
    as (_ & (k & Hid & Hpend & Hreq) & E).
  destruct w1 as [h1 g1]. cbn [fst snd] in *.
  destruct Hlive1 as ((c1 & Hc1) & _ & Hn1 & _). cbn [fst snd] in *.
  set (h2 := host_frames (frameRequests h1) [] h1).
  assert (Hd : destroy (h1, g1) = Some (h2, set_particles [] g1)).
  { unfold destroy. rewrite Hid, Hpend. cbn [filter].
    rewrite Nat.eqb_refl. reflexivity. }
  assert (Hl2 : listeners h2 = listeners h
                               ++ [OnResize; OnMouseMove; OnMouseLeave])
    by (cbn; congruence).
  destruct (on_resize_spec rnd rnd_range h2 (set_particles [] g1) c1 Hc1)
    as (h3 & g3 & c3 & Hres & _ & _ & _ & _ & _ & Hlen & _ & _ & Hp3 & _).
  exists w, (h1, g1), (h2, set_particles [] g1), (h3, g3).
  cbn [fst snd].
  split; [exact Hw |]. split; [exact Hrun |]. split; [exact Hd |].
  split; [reflexivity |].
  split; [exact (listening_bound h2 OnResize _ Hl2) |].
  split; [exact (listening_bound h2 OnMouseMove _ Hl2) |].
  split; [exact Hres |].
  split; [rewrite Hlen; exact Hn1 | rewrite Hp3; reflexivity].
Qed.

End Lifecycle.


Lemma destroy_stops_the_loop_witness :
  exists w w1 w2 w3 : GalaxyBackground.World,
    GalaxyBackground.constructor rnd_half host_idle "services-galaxy"
      (Some canvas_800_600) = Some w /\
    GalaxyBackground.run rnd_half [(16%Z, EvFrame); (32%Z, EvFrame)] w
      = Some w1 /\
    GalaxyBackground.destroy w1 = Some w2 /\
    GalaxyBackground.particles (snd w2) = [] /\
    pendingFrames (fst w2) = [] /\
    GalaxyBackground.run rnd_half (frames 48 3) w2 = Some w3 /\
    snd w3 = snd w2 /\
    pendingFrames (fst w3) = [] /\
    frameRequests (fst w3) = frameRequests (fst w1).
Proof.
  apply (destroy_stops_the_loop rnd_half rnd_half_range host_idle
           "services-galaxy" canvas_800_600).
  reflexivity.
Defined.

Lemma destroy_leaves_listeners_witness :
  exists w w1 w2 w3 : GalaxyBackground.World,
    GalaxyBackground.constructor rnd_half host_idle "services-galaxy"
      (Some canvas_800_600) = Some w /\
    GalaxyBackground.run rnd_half [(16%Z, EvFrame)] w = Some w1 /\
    GalaxyBackground.destroy w1 = Some w2 /\
    GalaxyBackground.particles (snd w2) = [] /\
    GalaxyBackground.listening OnResize (fst w2) = true /\
    GalaxyBackground.listening OnMouseMove (fst w2) = true /\
    GalaxyBackground.on_resize rnd_half tt w2 = Some w3 /\
    List.length (GalaxyBackground.particles (snd w3)) = 200%nat /\
    pendingFrames (fst w3) = [].
Proof.
  apply (destroy_leaves_listeners rnd_half rnd_half_range host_idle
           "services-galaxy" canvas_800_600).
  reflexivity.
Defined.

(** ** Frames on a field with a lost particle *)

Section LostFrames.
Import GalaxyBackground.
Variable rnd : nat -> R.

(** A sequence of calls one of which the context refuses does not go
    through. *)
Lemma perform_throws (calls : list CanvasCmd) :
  Exists (fun c => call_error c <> None) calls ->
  exists (made : list CanvasCmd) (e : Exception),
    perform calls = (made, Some e).
Proof.
  induction 1 as [c calls Hc | c calls _ IH]; cbn [perform].
  - destruct (call_error c) as [e |]; [| contradiction].
    exists [], e. reflexivity.
  - destruct (call_error c) as [e |]; [exists [], e; reflexivity |].
    destruct IH as (made & e & ->). exists (c :: made), e. reflexivity.
Qed.

(** [update] leaves a lost particle lost, whatever the pointer. *)
Lemma update_lost (m : Mouse) (cw ch : jsnum) (p : GalaxyParticle.t) :
  lost p -> lost (GalaxyParticle.update m cw ch p).
Proof.
  unfold lost. intros Hp. unfold GalaxyParticle.update.
  rewrite Hp, add_NaN_l, mouse_interaction_NaN_x. reflexivity.
Qed.

(** The first call of [draw] on a lost particle is refused. *)
Lemma draw_lost (p : GalaxyParticle.t) :
  lost p -> Exists (fun c => call_error c <> None) (GalaxyParticle.draw p).
Proof.
  unfold lost. intros Hp. unfold GalaxyParticle.draw. rewrite Hp.
  cbn [app]. apply Exists_cons_hd. cbn. discriminate.
Qed.

(** A frame on a field with a lost particle: the next frame is requested,
    the particles are updated, and the drawing throws. *)
Lemma animate_lost (h : Host) (g : t) (c : HTMLCanvasElement)
    (cmds : list CanvasCmd) :
  canvas g = Some c -> ctx g = Some cmds ->
  Exists lost (particles g) ->
  exists (e : Exception) (h' : Host) (g' : t) (made : list CanvasCmd),
    animate (h, g) = Throws e (h', g') /\
    console h' = console h /\
    canvas g' = Some c /\ ctx g' = Some (cmds ++ made) /\
    Exists lost (particles g').
Proof.
  intros Hc Hx Hlost. unfold animate.
  set (g1 := set_animationId _ g).
  assert (Hc1 : canvas g1 = Some c) by exact Hc.
  rewrite (update_resolved _ g1 c Hc1).
  unfold draw. cbn [ctx canvas set_particles particles]. unfold g1.
  cbn [ctx canvas set_animationId particles]. rewrite Hx, Hc.
  set (ps := map _ (particles g)).
  assert (Hps : Exists lost ps).
  { unfold ps. apply Exists_exists in Hlost.
    destruct Hlost as (p & Hin & Hp). apply Exists_exists.
    exists (GalaxyParticle.update (mouse g) (N2js (width c))
              (N2js (height c)) p).
    split; [apply in_map; exact Hin | apply update_lost; exact Hp]. }
  destruct (perform_throws
              ([ SetFillStyle (Rgba 0 0 0 (Fin 0.05));
                 FillRect (Fin 0) (Fin 0) (N2js (width c))
                   (N2js (height c)) ]
               ++ drawConnections ps ++ flat_map GalaxyParticle.draw ps))
    as (made & e & ->).
  { apply Exists_app. right. apply Exists_app. right.
    apply Exists_exists in Hps. destruct Hps as (p & Hin & Hp).
    pose proof (draw_lost p Hp) as Hd. apply Exists_exists in Hd.
    destruct Hd as (cmd & Hcmd & Herr).
    apply Exists_exists. exists cmd. split; [| exact Herr].
    apply in_flat_map. exists p. split; assumption. }
  exists e. eexists; eexists; exists made.
  split; [reflexivity |]. cbn. repeat split; assumption.
Qed.

Ltac count_frames H :=
  rewrite ?H; unfold frame_events; cbn [filter snd List.length]; lia.

Lemma uncaught_log (log : list ConsoleEntry) (e : Exception) :
  uncaught (log ++ [Uncaught e]) = S (uncaught log).
Proof.
  unfold uncaught. rewrite filter_app, length_app. cbn. lia.
Qed.

(** One event other than a resize, on a running field with a lost
    particle: a frame throws, the pointer events leave the particles
    alone; the loop goes on. *)
Lemma dispatch_lost (now : Z) (ev : Event) (h : Host) (g : t)
    (c : HTMLCanvasElement) (cmds : list CanvasCmd) :
  canvas g = Some c -> ctx g = Some cmds ->
  looping (h, g) ->
  Exists lost (particles g) ->
  is_resize ev = false ->
  exists (h' : Host) (g' : t) (cmds' : list CanvasCmd),
    dispatch rnd now ev (h, g) = Some (h', g') /\
    canvas g' = Some c /\ ctx g' = Some cmds' /\
    looping (h', g') /\
    Exists lost (particles g') /\
    uncaught (console h')
    = (uncaught (console h)
       + frame_events [(now, ev)])%nat.
Proof.
  intros Hc Hx (id & Hid & Hpend & Hreq) Hlost Hev.
  cbn [fst snd] in Hid, Hpend, Hreq.
  unfold dispatch.
  set (h0 := host_throttles _ _ h).
  assert (Hpend0 : pendingFrames h0 = [S id]) by exact Hpend.
  assert (Hreq0 : frameRequests h0 = S id) by exact Hreq.
  assert (Hcon0 : console h0 = console h) by reflexivity.
  clearbody h0.
  destruct ev as [container inner | cx cy | |]; [discriminate | | |].
  - destruct (listening OnMouseMove h0).
    + unfold Throttle.executedFunction.
      destruct (negb _).
      * unfold on_mousemove. rewrite Hc.
        eexists; eexists; exists cmds. split; [reflexivity |].
        cbn [canvas ctx particles set_mouse console host_throttles].
        split; [exact Hc |]. split; [exact Hx |].
        split; [exists id; cbn; repeat split; assumption |].
        split; [exact Hlost |]. count_frames Hcon0.
      * eexists; eexists; exists cmds. split; [reflexivity |].
        cbn [canvas ctx particles set_mouse console host_throttles].
        split; [exact Hc |]. split; [exact Hx |].
        split; [exists id; cbn; repeat split; assumption |].
        split; [exact Hlost |]. count_frames Hcon0.
    + eexists; eexists; exists cmds. split; [reflexivity |].
      split; [exact Hc |]. split; [exact Hx |].
      split; [exists id; cbn; repeat split; assumption |].
      split; [exact Hlost |]. count_frames Hcon0.
  - destruct (listening OnMouseLeave h0).
    + unfold on_mouseleave.
      eexists; eexists; exists cmds. split; [reflexivity |].
      cbn [canvas ctx particles set_mouse console host_throttles].
      split; [exact Hc |]. split; [exact Hx |].
      split; [exists id; cbn; repeat split; assumption |].
      split; [exact Hlost |]. count_frames Hcon0.
    + eexists; eexists; exists cmds. split; [reflexivity |].
      split; [exact Hc |]. split; [exact Hx |].
      split; [exists id; cbn; repeat split; assumption |].
      split; [exact Hlost |]. count_frames Hcon0.
  - rewrite Hpend0.
    destruct (animate_lost (host_frames (frameRequests h0) [] h0) g c cmds
                Hc Hx Hlost)
      as (e & h' & g' & made & Ha & Hcon & Hc' & Hx' & Hlost').
    rewrite Ha.
    destruct (animate_effect _ _ _ _ (or_intror (ex_intro _ e Ha)))
      as (_ & Ea & Ep & Ef & _).
    cbn in Ea, Ep, Ef.
    eexists; eexists; exists (cmds ++ made). split; [reflexivity |].
    split; [exact Hc' |]. split; [exact Hx' |].
    split.
    { exists (frameRequests h0). cbn. repeat split; assumption. }
    split; [exact Hlost' |].
    cbn [console host_log]. rewrite uncaught_log, Hcon.
    cbn [console host_frames]. count_frames Hcon0.
Qed.

(** X28. Once a particle is lost, every frame throws: on a running field
    one of whose particles has a NaN abscissa, whatever pointer events and
    frames follow (no resize among them), each frame requests the next
    one, updates the particles and then throws in [draw], which the host
    reports; the particle stays lost, so that the count of reported
    exceptions grows by one with every frame. *)
Theorem lost_particle_breaks_every_frame (evs : list (Z * Event)) :
  forall (h : Host) (g : t) (c : HTMLCanvasElement) (cmds : list CanvasCmd),
    canvas g = Some c -> ctx g = Some cmds ->
    looping (h, g) ->
    Exists lost (particles g) ->
    Forall (fun e => is_resize (snd e) = false) evs ->
    exists (h' : Host) (g' : t),
      run rnd evs (h, g) = Some (h', g') /\
      looping (h', g') /\
      Exists lost (particles g') /\
      uncaught (console h')
      = (uncaught (console h) + frame_events evs)%nat.
Proof.
  induction evs as [| [now ev] evs IH];
    intros h g c cmds Hc Hx Hloop Hlost Hevs.
  - exists h, g. split; [reflexivity |]. split; [exact Hloop |].
    split; [exact Hlost |]. cbn. lia.
  - inversion Hevs as [| e0 evs0 Hev Hrest]; subst.
    cbn [snd] in Hev. cbn [run].
    destruct (dispatch_lost now ev h g c cmds Hc Hx Hloop Hlost Hev)
      as (h1 & g1 & cmds1 & -> & Hc1 & Hx1 & Hloop1 & Hlost1 & Hn1).
    destruct (IH h1 g1 c cmds1 Hc1 Hx1 Hloop1 Hlost1 Hrest)
      as (h' & g' & Hrun & Hloop' & Hlost' & Hn').
    exists h', g'. split; [exact Hrun |]. split; [exact Hloop' |].
    split; [exact Hlost' |]. rewrite Hn', Hn1.
    unfold frame_events. cbn [filter snd].
    destruct ev; cbn [List.length]; lia.
Qed.
End LostFrames.

Lemma lost_particle_breaks_every_frame_witness :
  exists (h' : Host) (g' : GalaxyBackground.t),
    GalaxyBackground.run rnd_half
      [(16%Z, EvFrame); (20%Z, EvMouseMove (Fin 10) (Fin 10));
       (32%Z, EvFrame)] (host_bound, field_lost) = Some (h', g') /\
    looping (h', g') /\
    Exists lost (GalaxyBackground.particles g') /\
    uncaught (console h')
    = (uncaught (console host_bound)
       + frame_events
           [(16%Z, EvFrame); (20%Z, EvMouseMove (Fin 10) (Fin 10));
            (32%Z, EvFrame)])%nat.
Proof.
  apply (lost_particle_breaks_every_frame rnd_half
           [(16%Z, EvFrame); (20%Z, EvMouseMove (Fin 10) (Fin 10));
            (32%Z, EvFrame)]
           host_bound field_lost canvas_800_600 []).
  - reflexivity.
  - reflexivity.
  - exists 0%nat. repeat split.
  - apply Exists_cons_hd. exact particle_lost_x.
  - repeat constructor.
Defined.

(** * The utilities and the other animations *)

(** ** Comparisons and clamps on finite numbers *)

Section Clamp.

Lemma le_Fin (a b : R) : le (Fin a) (Fin b) = negb (Rltb b a).
Proof. reflexivity. Qed.

Lemma le_Fin_true (a b : R) : a <= b -> le (Fin a) (Fin b) = true.
Proof. intros H. rewrite le_Fin, Rltb_false by lra. reflexivity. Qed.

Lemma le_Fin_false (a b : R) : b < a -> le (Fin a) (Fin b) = false.
Proof. intros H. rewrite le_Fin, Rltb_true by lra. reflexivity. Qed.

Lemma le_Fin_spec (a b : R) : le (Fin a) (Fin b) = true <-> a <= b.
Proof.
  split.
  - intros H. destruct (Rle_or_lt a b) as [Hle | Hlt]; [exact Hle |].
    rewrite le_Fin_false in H by exact Hlt. discriminate.
  - apply le_Fin_true.
Qed.

Lemma Math_max_Fin (a b : R) : Math_max (Fin a) (Fin b) = Fin (Rmax a b).
Proof.
  cbn. unfold Rltb, Rmax.
  destruct (Rlt_dec a b), (Rle_dec a b); apply Fin_eq; lra.
Qed.

Lemma Math_min_Fin (a b : R) : Math_min (Fin a) (Fin b) = Fin (Rmin a b).
Proof.
  cbn. unfold Rltb, Rmin.
  destruct (Rlt_dec b a), (Rle_dec a b); apply Fin_eq; lra.
Qed.

Lemma floorZ_bounds (r : R) : IZR (floorZ r) <= r < IZR (floorZ r) + 1.
Proof. unfold floorZ. destruct (base_Int_part r). lra. Qed.

Lemma floorZ_mono (a b : R) : a <= b -> (floorZ a <= floorZ b)%Z.
Proof.
  intros H. pose proof (floorZ_bounds a). pose proof (floorZ_bounds b).
  apply Z.lt_succ_r. apply lt_IZR. rewrite succ_IZR. lra.
Qed.

Lemma floorZ_range (r : R) (lo hi : Z) :
  IZR lo <= r < IZR hi -> (lo <= floorZ r < hi)%Z.
Proof.
  intros H. pose proof (floorZ_bounds r). split.
  - apply Z.lt_succ_r. apply lt_IZR. rewrite succ_IZR. lra.
  - apply lt_IZR. lra.
Qed.

End Clamp.

(** ** The viewport test *)

Section ViewportTest.

(** X14. On finite numbers, [isInViewport] holds exactly when the rectangle
    lies within the window grown by the threshold on every side, the window
    size being the inner size or, when that is 0, the client size of the
    document; so a larger threshold accepts whatever a smaller one
    accepts. *)
Theorem isInViewport_spec (v : Viewport) (rect : DOMRect)
    (wh ww a b c d t : R) :
  js_or (vp_innerHeight v) (vp_clientHeight v) = Fin wh ->
  js_or (vp_innerWidth v) (vp_clientWidth v) = Fin ww ->
  top rect = Fin a -> left rect = Fin b ->
  bottom rect = Fin c -> right rect = Fin d ->
  (isInViewport v rect (Fin t) = true <->
   - t <= a /\ - t <= b /\ c <= wh + t /\ d <= ww + t) /\
  (forall t' : R,
     t <= t' ->
     isInViewport v rect (Fin t) = true ->
     isInViewport v rect (Fin t') = true).
Proof.
  intros Hh Hw Ha Hb Hc Hd.
  assert (Hspec : forall u : R,
             isInViewport v rect (Fin u) = true <->
             - u <= a /\ - u <= b /\ c <= wh + u /\ d <= ww + u).
  { intros u. unfold isInViewport.
    rewrite Hh, Hw, Ha, Hb, Hc, Hd. unfold ge. cbn [neg add].
    rewrite !andb_true_iff, !le_Fin_spec. tauto. }
  split; [apply Hspec |].
  intros t' Ht H. apply Hspec. apply Hspec in H. lra.
Qed.

(** X15. [animateOnScroll] throws on a null element; on an element with a
    finite rectangle it adds the class at once exactly when the rectangle is
    within 100 px of the window on every side, and observes the element
    otherwise. *)
Theorem animateOnScroll_outcomes (v : Viewport) (rect : DOMRect)
    (wh ww a b c d : R) :
  js_or (vp_innerHeight v) (vp_clientHeight v) = Fin wh ->
  js_or (vp_innerWidth v) (vp_clientWidth v) = Fin ww ->
  top rect = Fin a -> left rect = Fin b ->
  bottom rect = Fin c -> right rect = Fin d ->
  animateOnScroll v None = None /\
  (- 100 <= a /\ - 100 <= b /\ c <= wh + 100 /\ d <= ww + 100 ->
   animateOnScroll v (Some rect) = Some (AddedClass "aos-animate")) /\
  (~ (- 100 <= a /\ - 100 <= b /\ c <= wh + 100 /\ d <= ww + 100) ->
   animateOnScroll v (Some rect) = Some Observing).
Proof.
  intros Hh Hw Ha Hb Hc Hd.
  assert (Hspec : isInViewport v rect (Fin 100) = true <->
                  - 100 <= a /\ - 100 <= b /\ c <= wh + 100 /\ d <= ww + 100).
  { unfold isInViewport.
    rewrite Hh, Hw, Ha, Hb, Hc, Hd. unfold ge. cbn [neg add].
    rewrite !andb_true_iff, !le_Fin_spec. tauto. }
  split; [reflexivity |]. unfold animateOnScroll. split.
  - intros Hin. apply Hspec in Hin. rewrite Hin. reflexivity.
  - intros Hout. destruct (isInViewport v rect (Fin 100)) eqn:E;
      [| reflexivity].
    exfalso. apply Hout. apply Hspec. reflexivity.
Qed.

End ViewportTest.

Lemma js_or_nonzero (x : R) (b : jsnum) : x <> 0 -> js_or (Fin x) b = Fin x.
Proof.
  intros H. unfold js_or, truthy. rewrite Reqb_false by exact H. reflexivity.
Qed.

Lemma isInViewport_spec_witness :
  (isInViewport viewport_1024_768 rect_near_top (Fin 50) = true <->
   - 50 <= - 40 /\ - 50 <= 10 /\ 60 <= 768 + 50 /\ 300 <= 1024 + 50) /\
  (forall t' : R,
     50 <= t' ->
     isInViewport viewport_1024_768 rect_near_top (Fin 50) = true ->
     isInViewport viewport_1024_768 rect_near_top (Fin t') = true).
Proof.
  apply (isInViewport_spec viewport_1024_768 rect_near_top
           768 1024 (- 40) 10 60 300 50); try reflexivity.
  - apply js_or_nonzero. lra.
  - apply js_or_nonzero. lra.
Defined.

Lemma animateOnScroll_outcomes_witness :
  animateOnScroll viewport_1024_768 None = None /\
  (- 100 <= - 40 /\ - 100 <= 10 /\ 60 <= 768 + 100 /\ 300 <= 1024 + 100 ->
   animateOnScroll viewport_1024_768 (Some rect_near_top)
   = Some (AddedClass "aos-animate")) /\
  (~ (- 100 <= - 40 /\ - 100 <= 10 /\ 60 <= 768 + 100 /\ 300 <= 1024 + 100) ->
   animateOnScroll viewport_1024_768 (Some rect_near_top) = Some Observing).
Proof.
  apply (animateOnScroll_outcomes viewport_1024_768 rect_near_top
           768 1024 (- 40) 10 60 300); try reflexivity.
  - apply js_or_nonzero. lra.
  - apply js_or_nonzero. lra.
Defined.

(** ** The services scroll animation *)

Section ServicesScroll.
Import ServicesScrollAnimation.

Lemma clamp01_range (x : R) : 0 <= Rmax 0 (Rmin 1 x) <= 1.
Proof.
  split; [apply Rmax_l |].
  apply Rmax_lub; [lra | apply Rmin_l].
Qed.

Lemma clamp01_low (x : R) : x <= 0 -> Rmax 0 (Rmin 1 x) = 0.
Proof.
  intros H. rewrite Rmin_right by lra. apply Rmax_left. exact H.
Qed.

Lemma clamp01_high (x : R) : 1 <= x -> Rmax 0 (Rmin 1 x) = 1.
Proof.
  intros H. rewrite Rmin_left by lra. apply Rmax_right. lra.
Qed.

(** X16. For a section with a finite rectangle in a window of positive
    height, the three branches of [updateScrollProgress] amount to one
    formula: the progress is [(windowHeight - top) / (windowHeight +
    height / 2)] clamped to [0, 1]; it is 0 while the section starts at or
    below the bottom of the window and 1 once its top is half its height
    above the window's top. *)
Theorem scroll_progress_clamped (s : t) (tp h wh : R) :
  servicesSection s =
    Some {| rect_top := Fin tp; rect_height := Fin h;
            rect_bottom := Fin (tp + h) |} ->
  0 < wh -> 0 <= h ->
  scrollProgress (updateScrollProgress (Fin wh) s)
    = Fin (Rmax 0 (Rmin 1 ((wh - tp) / (wh + h * 0.5)))) /\
  0 <= Rmax 0 (Rmin 1 ((wh - tp) / (wh + h * 0.5))) <= 1 /\
  (wh <= tp -> scrollProgress (updateScrollProgress (Fin wh) s) = Fin 0) /\
  (tp <= - (h * 0.5) ->
   scrollProgress (updateScrollProgress (Fin wh) s) = Fin 1).
Proof.
  intros Hs Hwh Hh.
  set (x := (wh - tp) / (wh + h * 0.5)).
  assert (HD : 0 < wh + h * 0.5) by lra.
  assert (Hx : x * (wh + h * 0.5) = wh - tp).
  { unfold x. field. lra. }
  assert (Hmain : scrollProgress (updateScrollProgress (Fin wh) s)
                  = Fin (Rmax 0 (Rmin 1 x))).
  { unfold updateScrollProgress. rewrite Hs.
    cbn [rect_top rect_height rect_bottom]. unfold ge, gt.
    destruct (Rle_or_lt tp wh) as [Htop | Htop].
    - rewrite (le_Fin_true tp wh Htop). cbn [andb].
      destruct (Rle_or_lt 0 (tp + h)) as [Hbot | Hbot].
      + rewrite (le_Fin_true 0 (tp + h) Hbot).
        cbn [set_progress scrollProgress].
        unfold sub. cbn [neg add mul].
        rewrite div_Fin by lra.
        rewrite Math_min_Fin, Math_max_Fin. reflexivity.
      + rewrite (le_Fin_false 0 (tp + h) Hbot).
        cbn [lt]. rewrite Rltb_false by lra.
        cbn [set_progress scrollProgress].
        rewrite clamp01_high; [reflexivity | nra].
    - rewrite (le_Fin_false tp wh Htop). cbn [andb lt].
      rewrite Rltb_true by lra.
      cbn [set_progress scrollProgress].
      rewrite clamp01_low; [reflexivity | nra]. }
  split; [exact Hmain |]. split; [apply clamp01_range |]. split.
  - intros Hlow. rewrite Hmain, clamp01_low; [reflexivity | nra].
  - intros Hhigh. rewrite Hmain, clamp01_high; [reflexivity | nra].
Qed.

Lemma stage_of_Fin (p : R) :
  stage_of (Fin p) = Fin (Rmin (7 - 1) (IZR (floorZ (p * 7)))).
Proof.
  unfold stage_of. cbn [mul Math_floor]. apply Math_min_Fin.
Qed.

Lemma Rmin_IZR (a b : Z) : Rmin (IZR a) (IZR b) = IZR (Z.min a b).
Proof.
  destruct (Z.le_ge_cases a b) as [H | H].
  - rewrite Z.min_l by exact H. apply Rmin_left. apply IZR_le. exact H.
  - rewrite Z.min_r by exact H. apply Rmin_right. apply IZR_le. exact H.
Qed.

(** X17. For a progress in [0, 1] the stage is a whole number from 0 to 6;
    it does not decrease when the progress grows, and it is 6 exactly from
    progress 6/7 on. *)
Theorem stage_range (p q : R) :
  0 <= p -> p <= q -> q <= 1 ->
  exists k m : Z,
    stage_of (Fin p) = Fin (IZR k) /\
    stage_of (Fin q) = Fin (IZR m) /\
    (0 <= k <= m)%Z /\ (m <= 6)%Z /\
    (k = 6%Z <-> 6 / 7 <= p).
Proof.
  intros Hp Hpq Hq.
  exists (Z.min 6 (floorZ (p * 7))), (Z.min 6 (floorZ (q * 7))).
  rewrite !stage_of_Fin.
  replace (7 - 1) with (IZR 6) by (simpl; lra).
  rewrite !Rmin_IZR.
  assert (Hfp : (0 <= floorZ (p * 7) < 8)%Z)
    by (apply floorZ_range; simpl; lra).
  assert (Hfq : (0 <= floorZ (q * 7) < 8)%Z)
    by (apply floorZ_range; simpl; lra).
  assert (Hmono : (floorZ (p * 7) <= floorZ (q * 7))%Z)
    by (apply floorZ_mono; lra).
  pose proof (floorZ_bounds (p * 7)) as Hb.
  split; [reflexivity |]. split; [reflexivity |].
  split; [lia |]. split; [lia |].
  split.
  - intros Hk.
    assert (H6 : (6 <= floorZ (p * 7))%Z) by lia.
    apply IZR_le in H6. simpl in H6. lra.
  - intros H67.
    assert (H6 : (6 <= floorZ (p * 7) < 8)%Z)
      by (apply floorZ_range; simpl; lra).
    lia.
Qed.

(** The end of the proof below, once the base delay [r] of the item is
    known to be a non-negative real. *)
End ServicesScroll.

Lemma scroll_progress_clamped_witness :
  ServicesScrollAnimation.scrollProgress
    (ServicesScrollAnimation.updateScrollProgress (Fin 768) services_example)
    = Fin (Rmax 0 (Rmin 1 ((768 - 300) / (768 + 900 * 0.5)))) /\
  0 <= Rmax 0 (Rmin 1 ((768 - 300) / (768 + 900 * 0.5))) <= 1 /\
  (768 <= 300 ->
   ServicesScrollAnimation.scrollProgress
     (ServicesScrollAnimation.updateScrollProgress (Fin 768)
        services_example) = Fin 0) /\
  (300 <= - (900 * 0.5) ->
   ServicesScrollAnimation.scrollProgress
     (ServicesScrollAnimation.updateScrollProgress (Fin 768)
        services_example) = Fin 1).
Proof.
  apply (scroll_progress_clamped services_example 300 900 768);
    [reflexivity | lra | lra].
Defined.

Lemma stage_range_witness :
  exists k m : Z,
    ServicesScrollAnimation.stage_of (Fin 0.5) = Fin (IZR k) /\
    ServicesScrollAnimation.stage_of (Fin 0.9) = Fin (IZR m) /\
    (0 <= k <= m)%Z /\ (m <= 6)%Z /\
    (k = 6%Z <-> 6 / 7 <= 0.5).
Proof.
  apply (stage_range 0.5 0.9); lra.
Defined.

(** ** The transforms in double precision *)

Section TransformsRounded.
Import ServicesScrollAnimation.
Variable F : Rounding.
Hypothesis HF : to_nearest F.

(** A literal between 0 and 1, read as a double. *)
Lemma lit_unit (r : R) :
  0 <= r <= 1 ->
  Rounded.lit F r = Fin (rd F r) /\ 0 <= rd F r <= 1 /\
  r - 1e-15 <= rd F r <= r + 1e-15.
Proof.
  intros Hr. unfold Rounded.lit.
  rewrite (round_small F r HF) by small_result.
  split; [reflexivity |]. split.
  - apply (rd_between F 0 1 r HF); [cbn; lia | cbn; lia | exact Hr].
  - assert (Habs : Rabs r <= 1) by (rewrite Rabs_pos_eq; lra).
    pose proof (rd_within F r 1 HF Habs). lra.
Qed.

(** A result between 0 and 20 is rounded to a number between 0 and 20. *)
Lemma round_upto_20 (r : R) :
  0 <= r <= 20 ->
  Rounded.round F (Fin r) = Fin (rd F r) /\ 0 <= rd F r <= 20.
Proof.
  intros Hr. rewrite (round_small F r HF) by small_result.
  split; [reflexivity |].
  apply (rd_between F 0 20 r HF); [cbn; lia | cbn; lia | exact Hr].
Qed.

(** The style of an item whose delay is [delay]. *)
Lemma style_range (delay : R) :
  0 < delay < 1 ->
  exists s y o : R,
    Rounded.sub F (Fin 1) (Rounded.mul F (Fin delay) (Rounded.lit F 0.1))
      = Fin s /\
    Rounded.mul F (Fin delay) (Fin 20) = Fin y /\
    Math_max (Rounded.lit F 0.3)
      (Rounded.sub F (Fin 1) (Rounded.mul F (Fin delay) (Rounded.lit F 0.7)))
      = Fin o /\
    rd F (1 - rd F 0.1) <= s <= 1 /\ 0.9 - 1e-14 <= s /\
    0 <= y <= 20 /\
    rd F 0.3 <= o <= 1 /\ 0.3 - 1e-14 <= o.
Proof.
  intros Hd.
  destruct (lit_unit 0.1) as (-> & Hc1 & Ec1); [lra |].
  destruct (lit_unit 0.3) as (-> & Hc3 & Ec3); [lra |].
  destruct (lit_unit 0.7) as (-> & Hc7 & Ec7); [lra |].
  unfold Rounded.mul, Rounded.sub.
  cbn [JsNum.mul].
  destruct (round_upto_20 (delay * rd F 0.1)) as (-> & Hm1); [nra |].
  destruct (round_upto_20 (delay * rd F 0.7)) as (-> & Hm7); [nra |].
  destruct (round_upto_20 (delay * 20)) as (-> & Hy); [nra |].
  assert (Hm1' : rd F (delay * rd F 0.1) <= rd F 0.1).
  { rewrite <- (rd_idem F HF 0.1) at 2. apply (rd_mono F HF). nra. }
  assert (Hm7' : rd F (delay * rd F 0.7) <= 1).
  { rewrite <- (rd_1 F HF). apply (rd_mono F HF). nra. }
  cbn [JsNum.sub JsNum.add JsNum.neg].
  fold (1 - rd F (delay * rd F 0.1)). fold (1 - rd F (delay * rd F 0.7)).
  destruct (round_upto_20 (1 - rd F (delay * rd F 0.1))) as (-> & Hs);
    [lra |].
  destruct (round_upto_20 (1 - rd F (delay * rd F 0.7))) as (-> & Ho);
    [lra |].
  rewrite Math_max_Fin.
  eexists; eexists; eexists.
  split; [reflexivity |]. split; [reflexivity |]. split; [reflexivity |].
  assert (Hs1 : rd F (1 - rd F (delay * rd F 0.1)) <= 1).
  { rewrite <- (rd_1 F HF) at 2. apply (rd_mono F HF). lra. }
  assert (Hs2 : rd F (1 - rd F 0.1) <= rd F (1 - rd F (delay * rd F 0.1))).
  { apply (rd_mono F HF). lra. }
  assert (Hs3 : 0.9 - 1e-14 <= rd F (1 - rd F 0.1)).
  { assert (Habs : Rabs (1 - rd F 0.1) <= 1) by (rewrite Rabs_pos_eq; lra).
    pose proof (rd_within F (1 - rd F 0.1) 1 HF Habs). lra. }
  assert (Ho1 : rd F (1 - rd F (delay * rd F 0.7)) <= 1).
  { rewrite <- (rd_1 F HF) at 2. apply (rd_mono F HF). lra. }
  split; [split; assumption |]. split; [lra |]. split; [exact Hy |].
  split.
  - split; [apply Rmax_l | apply Rmax_lub; lra].
  - apply Rle_trans with (rd F 0.3); [lra | apply Rmax_l].
Qed.


End TransformsRounded.

(** Half-way through the section, on a wide window, the third item is
    given a style. *)
Lemma item_transform_example :
  exists scale translateY opacity : jsnum,
    ServicesScrollAnimation.item_transform exact (Fin 0.5) false 2
    = Some (scale, translateY, opacity).
Proof.
  unfold ServicesScrollAnimation.item_transform, Rounded.mul, Rounded.sub,
    Rounded.lit.
  rewrite !round_exact. cbn [JsNum.mul rem]. rewrite Reqb_false by lra.
  assert (Htr : truncZ (0.5 * 7 / 1) = 3%Z).
  { unfold truncZ. rewrite Rltb_false by lra.
    assert (Hr : IZR 3 <= 0.5 * 7 / 1 < IZR 4) by lra.
    pose proof (floorZ_range _ 3 4 Hr). lia. }
  rewrite Htr. cbn [JsNum.sub JsNum.add JsNum.neg].
  rewrite Math_max_Fin.
  assert (Hd : Rmax 0 (0.5 * 7 - 1 * 3 + - (INR 2 * 0.05)) = 0.4).
  { rewrite Rmax_right; simpl; lra. }
  rewrite Hd. unfold gt. cbn [lt].
  rewrite !Rltb_true by lra. cbn [andb].
  eexists; eexists; eexists. reflexivity.
Qed.


(** ** The animated counters *)

Section Counters.
Import CounterAnimation.
Variable F : Rounding.

Lemma ticks_S (n : nat) (c : counter) : ticks F (S n) c = tick F (ticks F n c).
Proof.
  revert c. induction n as [| n IH]; intros c; [reflexivity |].
  cbn [ticks] in *. rewrite IH. reflexivity.
Qed.

Lemma ticks_add (n m : nat) (c : counter) :
  ticks F (n + m) c = ticks F m (ticks F n c).
Proof.
  revert c. induction n as [| n IH]; intros c; [reflexivity |].
  cbn [ticks Nat.add]. apply IH.
Qed.

Lemma tick_cleared (c : counter) : cleared c = true -> tick F c = c.
Proof. intros H. unfold tick. rewrite H. reflexivity. Qed.

Lemma ticks_cleared (n : nat) (c : counter) :
  cleared c = true -> ticks F n c = c.
Proof.
  intros H. induction n as [| n IH]; [reflexivity |].
  rewrite ticks_S, IH. apply tick_cleared. exact H.
Qed.

(** X20. A counter whose target did not parse ([parseInt] gave NaN) never
    clears its interval: the test [current >= target] fails at every tick,
    and every tick writes NaN. *)
Theorem counter_NaN_never_stops (n : nat) :
  cleared (ticks F n (start NaN)) = false /\
  current (ticks F (S n) (start NaN)) = NaN /\
  textContent (ticks F (S n) (start NaN)) = Some NaN.
Proof.
  assert (Hstep : forall c : counter,
             target c = NaN -> cleared c = false ->
             tick F c = {| target := NaN; current := NaN;
                           textContent := Some NaN; cleared := false |}).
  { intros c Ht Hc. unfold tick. rewrite Hc, Ht.
    unfold Rounded.add, Rounded.div. cbn [JsNum.div Rounded.round].
    rewrite add_NaN_r. reflexivity. }
  assert (Hall : forall k : nat,
             ticks F (S k) (start NaN)
             = {| target := NaN; current := NaN;
                  textContent := Some NaN; cleared := false |}).
  { induction k as [| k IH].
    - cbn [ticks]. apply Hstep; reflexivity.
    - rewrite ticks_S, IH. apply Hstep; reflexivity. }
  split.
  - destruct n as [| k]; [reflexivity | rewrite Hall; reflexivity].
  - rewrite Hall. split; reflexivity.
Qed.

End Counters.

(** ** The counters in double precision *)

Section Counting.
Import CounterAnimation.
Variable F : Rounding.
Hypothesis HF : to_nearest F.

(** The error of one operation on numbers up to 2^33. *)
Lemma rd_near (x : R) :
  Rabs x <= 8600000000 -> - 1.1e-6 <= rd F x - x <= 1.1e-6.
Proof.
  intros Hx. pose proof (rd_within F x _ HF Hx). lra.
Qed.

Lemma round_near (x : R) :
  Rabs x <= 8600000000 -> Rounded.round F (Fin x) = Fin (rd F x).
Proof.
  intros Hx. apply fits_small; [exact HF |]. rewrite pow2_47. lra.
Qed.

Variable z : Z.
Hypothesis Hz : (1 <= z <= 2 ^ 32)%Z.

Lemma target_range : 1 <= IZR z <= 4294967296.
Proof.
  destruct Hz as [H1 H2]. apply IZR_le in H1, H2.
  change (2 ^ 32)%Z with 4294967296%Z in H2. lra.
Qed.

(** The increment, as computed. *)
Lemma increment_value :
  Rounded.div F (Fin (IZR z)) (Rounded.div F (Fin 2000) (Fin 16))
  = Fin (rd F (IZR z / 125)) /\
  - 1.1e-6 <= rd F (IZR z / 125) - IZR z / 125 <= 1.1e-6.
Proof.
  pose proof target_range as HT.
  unfold Rounded.div at 2. rewrite div_Fin by lra.
  replace (2000 / 16) with (IZR 125) by lra.
  rewrite round_near by (rewrite Rabs_pos_eq; lra).
  rewrite (rd_int F HF 125) by (cbn; lia).
  unfold Rounded.div. rewrite div_Fin by lra.
  assert (Hq : Rabs (IZR z / 125) <= 8600000000)
    by (rewrite Rabs_pos_eq; lra).
  rewrite round_near by exact Hq.
  split; [reflexivity | apply rd_near; exact Hq].
Qed.

(** One tick of a running counter. *)
Lemma tick_running (a : R) (txt : option jsnum) (k : nat) :
  (k <= 125)%nat ->
  - (INR k * 2.2e-6) <= a - INR k * (IZR z / 125) <= INR k * 2.2e-6 ->
  exists a' : R,
    - (INR (S k) * 2.2e-6) <= a' - INR (S k) * (IZR z / 125)
      <= INR (S k) * 2.2e-6 /\
    tick F {| target := Fin (IZR z); current := Fin a; textContent := txt;
              cleared := false |}
    = if Rltb a' (IZR z)
      then {| target := Fin (IZR z); current := Fin a';
              textContent := Some (Fin (IZR (floorZ a')));
              cleared := false |}
      else {| target := Fin (IZR z); current := Fin a';
              textContent := Some (Fin (IZR z)); cleared := true |}.
Proof.
  intros Hk Ha.
  pose proof target_range as HT.
  destruct increment_value as [Hinc Einc].
  assert (Hk' : 0 <= INR k <= 125).
  { split; [apply pos_INR |].
    replace 125 with (INR 125) by (simpl; lra). apply le_INR. exact Hk. }
  set (inc := rd F (IZR z / 125)) in *.
  assert (Hsum : Rabs (a + inc) <= 8600000000).
  { apply Rabs_le. nra. }
  exists (rd F (a + inc)). split.
  - pose proof (rd_near (a + inc) Hsum). rewrite S_INR. nra.
  - unfold tick. cbn [cleared target current]. rewrite Hinc.
    unfold Rounded.add. cbn [JsNum.add]. rewrite round_near by exact Hsum.
    unfold ge. rewrite le_Fin.
    destruct (Rltb (rd F (a + inc)) (IZR z)); reflexivity.
Qed.

(** What a running counter shows after [k] ticks: the floor of the count,
    which is the integer part of [k * target / 125] or one less. *)
Lemma shown_value (a : R) (k : nat) :
  (1 <= k <= 125)%nat ->
  - (INR k * 2.2e-6) <= a - INR k * (IZR z / 125) <= INR k * 2.2e-6 ->
  a < IZR z ->
  (Z.of_nat k * z / 125 - 1 <= floorZ a <= Z.of_nat k * z / 125)%Z /\
  (0 <= floorZ a < z)%Z.
Proof.
  intros Hk Ha Hlt.
  pose proof target_range as HT.
  assert (Hk' : 1 <= INR k <= 125).
  { split.
    - replace 1 with (INR 1) by (simpl; lra). apply le_INR. lia.
    - replace 125 with (INR 125) by (simpl; lra). apply le_INR. lia. }
  set (N := (Z.of_nat k * z)%Z).
  pose proof (Z.div_mod N 125 ltac:(lia)) as Hdm.
  pose proof (Z.mod_pos_bound N 125 ltac:(lia)) as Hmod.
  set (m := (N / 125)%Z) in *. set (j := (N mod 125)%Z) in *.
  assert (HN : INR k * (IZR z / 125) = IZR m + IZR j / 125).
  { rewrite INR_IZR_INZ. unfold Rdiv. rewrite <- Rmult_assoc, <- mult_IZR.
    fold N. rewrite Hdm, plus_IZR, mult_IZR. field. }
  assert (Hj : 0 <= IZR j <= 124).
  { destruct Hmod as [H1 H2]. split; [apply IZR_le; exact H1 |].
    apply IZR_le. lia. }
  split.
  - assert (Hr : IZR (m - 1) <= a < IZR (m + 1)).
    { rewrite minus_IZR, plus_IZR. lra. }
    pose proof (floorZ_range a (m - 1) (m + 1) Hr). lia.
  - assert (Hr : IZR 0 <= a < IZR z) by nra.
    exact (floorZ_range a 0 z Hr).
Qed.

(** The first 124 ticks leave the interval running. *)
Lemma ticks_running (k : nat) :
  (k <= 124)%nat ->
  exists a : R,
    ticks F k (start (Fin (IZR z)))
    = {| target := Fin (IZR z); current := Fin a;
         textContent := match k with
                        | O => None
                        | S _ => Some (Fin (IZR (floorZ a)))
                        end;
         cleared := false |} /\
    - (INR k * 2.2e-6) <= a - INR k * (IZR z / 125) <= INR k * 2.2e-6 /\
    a < IZR z.
Proof.
  pose proof target_range as HT.
  induction k as [| k IH]; intros Hk.
  - exists 0. split; [reflexivity |]. cbn [INR]. lra.
  - destruct IH as (a & Hrun & Ha & _); [lia |].
    rewrite ticks_S, Hrun.
    destruct (tick_running a
                (match k with
                 | O => None
                 | S _ => Some (Fin (IZR (floorZ a)))
                 end) k ltac:(lia) Ha) as (a' & Ha' & ->).
    assert (HS : 1 <= INR (S k) <= 124).
    { split.
      - replace 1 with (INR 1) by (simpl; lra). apply le_INR. lia.
      - replace 124 with (INR 124) by (simpl; lra). apply le_INR. lia. }
    assert (Hlt : a' < IZR z) by nra.
    rewrite (Rltb_true _ _ Hlt).
    exists a'. split; [reflexivity |]. split; assumption.
Qed.

End Counting.


(** ** Debounced calls *)

Section DebounceFacts.
Context {S A : Type}.
Variable func : A -> S -> option S.
Variable wait : Z.

Lemma last_cons_default {X : Type} (l : list X) :
  forall x d : X, last (x :: l) d = last l x.
Proof.
  induction l as [| y l IH]; intros x d; [reflexivity |].
  change (last (x :: y :: l) d) with (last (y :: l) d).
  rewrite (IH y d), (IH y x). reflexivity.
Qed.

(** While calls keep coming inside the waiting time, each one only replaces
    the timer: [func] is not called, whatever [immediate] is. *)
Lemma calls_in_burst (immediate : bool) (rest : list (Z * A)) :
  forall (p : Z) (a : A) (s : S),
    burst wait p rest ->
    Debounce.calls func wait immediate rest
      {| Debounce.timeout := Some ((p + wait)%Z, a) |} s =
    ({| Debounce.timeout :=
          Some ((fst (last rest (p, a)) + wait)%Z, snd (last rest (p, a))) |},
     Some s).
Proof.
  induction rest as [| [now args] rest IH]; intros p a s Hb.
  - reflexivity.
  - destruct Hb as [Hnow Hb]. cbn [Debounce.calls].
    unfold Debounce.call_at, Debounce.run_timers. cbn [Debounce.timeout].
    assert (Hdue : ((p + wait <=? now) = false)%Z) by (apply Z.leb_gt; lia).
    rewrite Hdue. unfold Debounce.executedFunction. cbn [Debounce.timeout].
    rewrite andb_false_r. rewrite (IH now args s Hb).
    rewrite (last_cons_default rest (now, args) (p, a)). reflexivity.
Qed.

(** X21. Debouncing on the trailing edge ([immediate] false): through a
    burst of calls, each less than [wait] after the one before, [func] is
    not called at all; when the timer of the last call falls due, [func] is
    called once, with the arguments of the LAST call. *)
Theorem debounce_trailing (t0 : Z) (a0 : A) (rest : list (Z * A)) (s : S)
    (now : Z) :
  burst wait t0 rest ->
  (fst (last rest (t0, a0)) + wait <= now)%Z ->
  exists c : Debounce.closure A,
    Debounce.calls func wait false ((t0, a0) :: rest) Debounce.create s
      = (c, Some s) /\
    Debounce.run_timers func false now c s
      = (Debounce.create, func (snd (last rest (t0, a0))) s).
Proof.
  intros Hb Hnow. eexists. split.
  - cbn [Debounce.calls]. unfold Debounce.call_at. cbn.
    apply (calls_in_burst false rest t0 a0 s Hb).
  - unfold Debounce.run_timers. cbn [Debounce.timeout].
    apply Z.leb_le in Hnow. rewrite Hnow. reflexivity.
Qed.

(** X22. Debouncing on the leading edge ([immediate] true): the first call
    runs [func] at once; the calls that follow, each less than [wait] after
    the one before, are dropped however long the burst lasts; the timer of
    the last one calls nothing, and the next call after it runs [func] at
    once again. *)
Theorem debounce_leading (t0 : Z) (a0 : A) (rest : list (Z * A))
    (s s0 : S) (now : Z) (a1 : A) :
  func a0 s = Some s0 ->
  burst wait t0 rest ->
  (fst (last rest (t0, a0)) + wait <= now)%Z ->
  exists c : Debounce.closure A,
    Debounce.calls func wait true ((t0, a0) :: rest) Debounce.create s
      = (c, Some s0) /\
    Debounce.run_timers func true now c s0 = (Debounce.create, Some s0) /\
    Debounce.call_at func wait true now a1 c s0
      = ({| Debounce.timeout := Some ((now + wait)%Z, a1) |}, func a1 s0).
Proof.
  intros Hf Hb Hnow. eexists. split; [| split].
  - cbn [Debounce.calls]. unfold Debounce.call_at. cbn. rewrite Hf.
    apply (calls_in_burst true rest t0 a0 s0 Hb).
  - unfold Debounce.run_timers. cbn [Debounce.timeout].
    apply Z.leb_le in Hnow. rewrite Hnow. reflexivity.
  - unfold Debounce.call_at, Debounce.run_timers. cbn [Debounce.timeout].
    apply Z.leb_le in Hnow. rewrite Hnow. reflexivity.
Qed.

End DebounceFacts.

Lemma debounce_trailing_witness :
  exists c : Debounce.closure nat,
    Debounce.calls record_call 300 false
      [(0%Z, 1%nat); (100%Z, 2%nat); (350%Z, 3%nat)] Debounce.create []
      = (c, Some []) /\
    Debounce.run_timers record_call false 650 c []
      = (Debounce.create,
         record_call
           (snd (last [(100%Z, 2%nat); (350%Z, 3%nat)] (0%Z, 1%nat))) []).
Proof.
  apply (debounce_trailing record_call 300 0 1%nat
           [(100%Z, 2%nat); (350%Z, 3%nat)] [] 650).
  - cbn. lia.
  - cbn. lia.
Defined.

Lemma debounce_leading_witness :
  exists c : Debounce.closure nat,
    Debounce.calls record_call 300 true
      [(0%Z, 1%nat); (100%Z, 2%nat); (350%Z, 3%nat)] Debounce.create []
      = (c, Some [1%nat]) /\
    Debounce.run_timers record_call true 650 c [1%nat]
      = (Debounce.create, Some [1%nat]) /\
    Debounce.call_at record_call 300 true 650 4%nat c [1%nat]
      = ({| Debounce.timeout := Some ((650 + 300)%Z, 4%nat) |},
         record_call 4%nat [1%nat]).
Proof.
  apply (debounce_leading record_call 300 0 1%nat
           [(100%Z, 2%nat); (350%Z, 3%nat)] [] [1%nat] 650 4%nat).
  - reflexivity.
  - cbn. lia.
  - cbn. lia.
Defined.

(** ** The testimonials slider *)

Section Slider.
Import TestimonialsSlider.

Lemma add_at_length (c : ClassName) (i : nat) :
  forall l l', add_at c i l = Some l' -> List.length l' = List.length l.
Proof.
  induction i as [| i IH]; intros [| x l] l' H; cbn in H; try discriminate.
  - injection H as <-. reflexivity.
  - destruct (add_at c i l) as [l1 |] eqn:E; [| discriminate].
    injection H as <-. cbn. f_equal. apply (IH l l1 E).
Qed.

Lemma add_at_defined (c : ClassName) (i : nat) :
  forall l, (i < List.length l)%nat -> exists l', add_at c i l = Some l'.
Proof.
  induction i as [| i IH]; intros [| x l] H; cbn in H; try lia.
  - eexists. reflexivity.
  - destruct (IH l ltac:(lia)) as (l1 & E). cbn. rewrite E.
    eexists. reflexivity.
Qed.

Lemma add_at_nth (c : ClassName) (i : nat) :
  forall l l' k,
    add_at c i l = Some l' ->
    nth_error l' k =
    if Nat.eqb k i then option_map (add c) (nth_error l k)
    else nth_error l k.
Proof.
  induction i as [| i IH]; intros [| x l] l' k H; cbn in H; try discriminate.
  - injection H as <-. destruct k; reflexivity.
  - destruct (add_at c i l) as [l1 |] eqn:E; [| discriminate].
    injection H as <-. destruct k as [| k]; [reflexivity |].
    cbn [nth_error Nat.eqb]. apply (IH l l1 k E).
Qed.

Lemma add_at_Z_defined (c : ClassName) (i : Z) (l : list SlideClasses) :
  (0 <= i < Z.of_nat (List.length l))%Z ->
  exists l', add_at_Z c i l = Some l' /\
             List.length l' = List.length l /\
             forall k : nat,
               nth_error l' k =
               if (Z.of_nat k =? i)%Z
               then option_map (add c) (nth_error l k)
               else nth_error l k.
Proof.
  intros Hi. unfold add_at_Z.
  assert (Hneg : (i <? 0)%Z = false) by (apply Z.ltb_ge; lia).
  rewrite Hneg.
  destruct (add_at_defined c (Z.to_nat i) l ltac:(lia)) as (l' & E).
  exists l'. split; [exact E |]. split; [exact (add_at_length _ _ _ _ E) |].
  intros k. rewrite (add_at_nth c (Z.to_nat i) l l' k E).
  destruct (Nat.eqb_spec k (Z.to_nat i)) as [Heq | Hne].
  - assert (Hz : (Z.of_nat k =? i)%Z = true) by (apply Z.eqb_eq; lia).
    rewrite Hz. reflexivity.
  - assert (Hz : (Z.of_nat k =? i)%Z = false) by (apply Z.eqb_neq; lia).
    rewrite Hz. reflexivity.
Qed.

Lemma updateDots_from_nth (cur : Z) (ds : list bool) :
  forall (start : Z) (k : nat),
    (k < List.length ds)%nat ->
    nth_error (updateDots_from start cur ds) k
    = Some (start + Z.of_nat k =? cur)%Z.
Proof.
  induction ds as [| d ds IH]; intros start k Hk; cbn in Hk; [lia |].
  destruct k as [| k]; cbn [updateDots_from nth_error].
  - rewrite Z.add_0_r. reflexivity.
  - rewrite IH by lia. do 2 f_equal. lia.
Qed.

Lemma updateDots_from_length (cur : Z) (ds : list bool) :
  forall start : Z,
    List.length (updateDots_from start cur ds) = List.length ds.
Proof.
  induction ds as [| d ds IH]; intros start; [reflexivity |].
  cbn. f_equal. apply IH.
Qed.

Lemma same_show_refl (s : t) : same_show s s.
Proof. repeat split. Qed.

Lemma same_show_trans (s1 s2 s3 : t) :
  same_show s1 s2 -> same_show s2 s3 -> same_show s1 s3.
Proof.
  unfold same_show. intros (A1 & A2 & A3 & A4 & A5 & A6)
                           (B1 & B2 & B3 & B4 & B5 & B6).
  repeat split; congruence.
Qed.

Lemma startAutoPlay_show (w : World) :
  same_show (snd w) (snd (startAutoPlay w)).
Proof.
  destruct w as [h s]. unfold startAutoPlay.
  destruct (totalSlides s <=? 1)%Z; [apply same_show_refl |].
  cbn. destruct (hasProgressElement s); repeat split.
Qed.

Lemma pauseAutoPlay_show (w : World) :
  same_show (snd w) (snd (pauseAutoPlay w)).
Proof.
  destruct w as [h s]. unfold pauseAutoPlay, stopProgressIndicator.
  destruct (autoPlayInterval s) as [[| a] |];
    cbn; destruct (progressInterval s) as [[| p] |]; repeat split.
Qed.

Lemma resumeAutoPlay_show (w : World) :
  same_show (snd w) (snd (resumeAutoPlay w)).
Proof.
  unfold resumeAutoPlay. destruct (_ && _);
    [apply startAutoPlay_show | apply same_show_refl].
Qed.

Lemma restartAutoPlay_show (w : World) :
  same_show (snd w) (snd (restartAutoPlay w)).
Proof.
  unfold restartAutoPlay. destruct (isPlaying (snd w));
    [| apply same_show_refl].
  eapply same_show_trans;
    [apply pauseAutoPlay_show | apply resumeAutoPlay_show].
Qed.

(** [goToSlide] on a slide that exists, up to the restart of auto-play. *)
Lemma goToSlide_in_range (h : Host) (s : t) (i : Z) :
  totalSlides s = Z.of_nat (List.length (slides s)) ->
  (0 <= i < totalSlides s)%Z ->
  exists l : list SlideClasses,
    goToSlide i (h, s) =
    Some (restartAutoPlay
            (h, set_slides l (updateDots_from 0 i (dots s)) i s)) /\
    List.length l = List.length (slides s) /\
    forall k : nat,
      (k < List.length (slides s))%nat ->
      nth_error l k = Some (classes_when (totalSlides s) i (Z.of_nat k)).
Proof.
  intros Htot Hi. unfold goToSlide.
  assert (Hg : ((i <? 0) || (i >=? totalSlides s))%Z = false).
  { apply orb_false_iff. split; [apply Z.ltb_ge; lia |].
    rewrite Z.geb_leb. apply Z.leb_gt. lia. }
  rewrite Hg.
  set (n := totalSlides s) in *.
  set (l0 := map (fun _ => no_classes) (slides s)).
  assert (Hl0 : List.length l0 = List.length (slides s))
    by apply length_map.
  assert (Hn0 : forall k, (k < List.length (slides s))%nat ->
                          nth_error l0 k = Some no_classes).
  { intros k Hk. unfold l0.
    destruct (nth_error (slides s) k) as [x |] eqn:E.
    - rewrite (map_nth_error _ _ _ E). reflexivity.
    - apply nth_error_None in E. lia. }
  destruct (add_at_Z_defined Active i l0 ltac:(lia)) as (l1 & E1 & L1 & N1).
  rewrite E1.
  set (ip := if (i >? 0)%Z then (i - 1)%Z else (n - 1)%Z).
  set (inx := if (i <? n - 1)%Z then (i + 1)%Z else 0%Z).
  assert (Hip : ip = ((i - 1) mod n)%Z).
  { unfold ip. destruct (Z.gtb_spec i 0).
    - rewrite Z.mod_small by lia. reflexivity.
    - replace (i - 1)%Z with (n - 1 + (-1) * n)%Z by lia.
      rewrite Z_mod_plus_full, Z.mod_small by lia. reflexivity. }
  assert (Hinx : inx = ((i + 1) mod n)%Z).
  { unfold inx. destruct (Z.ltb_spec i (n - 1)).
    - rewrite Z.mod_small by lia. reflexivity.
    - replace (i + 1)%Z with n by lia. rewrite Z_mod_same_full.
      reflexivity. }
  assert (Rip : (0 <= ip < n)%Z) by (rewrite Hip; apply Z.mod_pos_bound; lia).
  assert (Rinx : (0 <= inx < n)%Z)
    by (rewrite Hinx; apply Z.mod_pos_bound; lia).
  destruct (add_at_Z_defined Prev ip l1 ltac:(lia)) as (l2 & E2 & L2 & N2).
  rewrite E2.
  destruct (add_at_Z_defined Next inx l2 ltac:(lia)) as (l3 & E3 & L3 & N3).
  rewrite E3.
  exists l3. split; [reflexivity |]. split; [congruence |].
  intros k Hk. rewrite N3, N2, N1, (Hn0 k Hk).
  unfold classes_when. rewrite <- Hip, <- Hinx.
  destruct (Z.of_nat k =? i)%Z, (Z.of_nat k =? ip)%Z,
           (Z.of_nat k =? inx)%Z; reflexivity.
Qed.

(** X23. [goToSlide] ignores an index that is not a slide.  On slide [i]
    of a well formed slider it shows exactly this: [i] is the current
    slide; slide [k] is active when [k = i], previous when
    [k = (i - 1) mod n] and next when [k = (i + 1) mod n], and carries none
    of the three classes otherwise; dot [k] is active exactly when
    [k = i]. *)
Theorem goToSlide_shows (h : Host) (s : t) (i j : Z) :
  totalSlides s = Z.of_nat (List.length (slides s)) ->
  (0 <= i < totalSlides s)%Z ->
  (j < 0 \/ totalSlides s <= j)%Z ->
  goToSlide j (h, s) = Some (h, s) /\
  exists w' : World,
    goToSlide i (h, s) = Some w' /\
    currentSlide (snd w') = i /\
    slider_wf (snd w') /\
    (forall k : nat,
       (k < List.length (slides s))%nat ->
       nth_error (slides (snd w')) k
       = Some (classes_when (totalSlides s) i (Z.of_nat k))) /\
    (forall k : nat,
       (k < List.length (dots s))%nat ->
       nth_error (dots (snd w')) k = Some (Z.of_nat k =? i)%Z).
Proof.
  intros Htot Hi Hj. split.
  - unfold goToSlide.
    assert (Hg : ((j <? 0) || (j >=? totalSlides s))%Z = true).
    { apply orb_true_iff. destruct Hj as [Hj | Hj];
        [left; apply Z.ltb_lt; lia |
         right; rewrite Z.geb_leb; apply Z.leb_le; lia]. }
    rewrite Hg. reflexivity.
  - destruct (goToSlide_in_range h s i Htot Hi) as (l & Hgo & Hlen & Hnth).
    eexists. split; [exact Hgo |].
    destruct (restartAutoPlay_show
                (h, set_slides l (updateDots_from 0 i (dots s)) i s))
      as (S1 & S2 & S3 & S4 & _).
    cbn [snd set_slides slides dots currentSlide totalSlides] in S1, S2, S3, S4.
    rewrite S1, S2, S3.
    split; [reflexivity |]. split.
    + unfold slider_wf. rewrite S1, S3, S4, Hlen. split; assumption.
    + split; [exact Hnth |].
      intros k Hk. rewrite updateDots_from_nth by exact Hk. reflexivity.
Qed.

(** X24. On a well formed slider, next goes to slide [(c + 1) mod n] and
    previous to [(c - 1) mod n], wrapping around at both ends; previous
    after next shows slide [c] again, with the classes of every slide as
    [goToSlide c] sets them. *)
Theorem next_then_previous (h : Host) (s : t) :
  slider_wf s ->
  exists w1 w2 : World,
    goToNextSlide (h, s) = Some w1 /\
    currentSlide (snd w1)
      = ((currentSlide s + 1) mod totalSlides s)%Z /\
    slider_wf (snd w1) /\
    goToPreviousSlide w1 = Some w2 /\
    currentSlide (snd w2) = currentSlide s /\
    slider_wf (snd w2) /\
    (forall k : nat,
       (k < List.length (slides s))%nat ->
       nth_error (slides (snd w2)) k
       = Some (classes_when (totalSlides s) (currentSlide s) (Z.of_nat k))).
Proof.
  intros [Htot Hc].
  set (n := totalSlides s) in *. set (c := currentSlide s) in *.
  assert (Hn0 : (n =? 0)%Z = false) by (apply Z.eqb_neq; lia).
  assert (Hrem1 : Z.rem (c + 1) n = ((c + 1) mod n)%Z)
    by (apply Z.rem_mod_nonneg; lia).
  assert (R1 : (0 <= (c + 1) mod n < n)%Z) by (apply Z.mod_pos_bound; lia).
  destruct (goToSlide_in_range h s ((c + 1) mod n) Htot R1)
    as (l1 & Hgo1 & Hlen1 & _).
  set (w1 := restartAutoPlay
               (h, set_slides l1
                     (updateDots_from 0 ((c + 1) mod n) (dots s))
                     ((c + 1) mod n) s)) in *.
  destruct (restartAutoPlay_show
              (h, set_slides l1
                    (updateDots_from 0 ((c + 1) mod n) (dots s))
                    ((c + 1) mod n) s))
    as (S1 & _ & S3 & S4 & _).
  fold w1 in S1, S3, S4.
  cbn [snd set_slides slides currentSlide totalSlides] in S1, S3, S4.
  fold n in S4.
  assert (Htot1 : totalSlides (snd w1)
                  = Z.of_nat (List.length (slides (snd w1))))
    by (rewrite S1, S4, Hlen1; exact Htot).
  assert (Hback : ((((c + 1) mod n) - 1 + n) mod n = c)%Z).
  { destruct (Z.eq_dec (c + 1) n) as [E | E].
    - rewrite E, Z_mod_same_full.
      replace (0 - 1 + n)%Z with (n - 1)%Z by lia.
      rewrite Z.mod_small by lia. lia.
    - rewrite (Z.mod_small (c + 1) n) by lia.
      replace (c + 1 - 1 + n)%Z with (c + 1 * n)%Z by lia.
      rewrite Z_mod_plus_full, Z.mod_small by lia. reflexivity. }
  assert (Hrem2 : Z.rem (currentSlide (snd w1) - 1 + totalSlides (snd w1))
                    (totalSlides (snd w1)) = c).
  { rewrite S3, S4. rewrite Z.rem_mod_nonneg by lia. exact Hback. }
  assert (R2 : (0 <= c < totalSlides (snd w1))%Z) by (rewrite S4; exact Hc).
  destruct w1 as [h1 s1] eqn:Ew1. cbn [snd] in *.
  destruct (goToSlide_in_range h1 s1 c Htot1 R2) as (l2 & Hgo2 & Hlen2 & Hnth2).
  destruct (restartAutoPlay_show
              (h1, set_slides l2 (updateDots_from 0 c (dots s1)) c s1))
    as (T1 & _ & T3 & T4 & _).
  cbn [snd set_slides slides currentSlide totalSlides] in T1, T3, T4.
  exists (h1, s1). eexists.
  split.
  { unfold goToNextSlide. cbn [snd]. fold n. rewrite Hn0.
    fold c. rewrite Hrem1. exact Hgo1. }
  cbn [snd]. split; [exact S3 |].
  split; [unfold slider_wf; split; [exact Htot1 | rewrite S3, S4; exact R1] |].
  split.
  { unfold goToPreviousSlide. cbn [snd]. rewrite S4, Hn0.
    rewrite <- S4 at 1 2. rewrite Hrem2. exact Hgo2. }
  split; [exact T3 |].
  split.
  { unfold slider_wf. rewrite T1, T3, T4, Hlen2. split; assumption. }
  intros k Hk. rewrite T1. rewrite Hnth2 by congruence.
  rewrite S4. reflexivity.
Qed.

Lemma goToNextSlide_current (h : Host) (s : t) :
  slider_wf s ->
  exists w1 : World,
    goToNextSlide (h, s) = Some w1 /\
    currentSlide (snd w1) = ((currentSlide s + 1) mod totalSlides s)%Z.
Proof.
  intros [Htot Hc].
  assert (Hn0 : (totalSlides s =? 0)%Z = false) by (apply Z.eqb_neq; lia).
  assert (R1 : (0 <= (currentSlide s + 1) mod totalSlides s
                < totalSlides s)%Z) by (apply Z.mod_pos_bound; lia).
  destruct (goToSlide_in_range h s _ Htot R1) as (l1 & Hgo1 & _).
  eexists. split.
  - unfold goToNextSlide. cbn [snd]. rewrite Hn0.
    rewrite Z.rem_mod_nonneg by lia. exact Hgo1.
  - destruct (restartAutoPlay_show
                (h, set_slides l1
                      (updateDots_from 0
                         ((currentSlide s + 1) mod totalSlides s) (dots s))
                      ((currentSlide s + 1) mod totalSlides s) s))
      as (_ & _ & S3 & _).
    exact S3.
Qed.

Lemma autoplay_handles_set (k : IntervalKind) (h : Host) :
  autoplay_handles (fst (setInterval k h)) =
  autoplay_handles h
  ++ match k with
     | AutoPlayTick => [S (handles h)]
     | ProgressTick => []
     end.
Proof.
  unfold autoplay_handles, setInterval. cbn [fst intervals].
  rewrite filter_app, map_app. destruct k; reflexivity.
Qed.

Lemma autoplay_handles_clear (id : nat) (h : Host) :
  autoplay_handles (clearInterval id h) =
  filter (fun x => negb (Nat.eqb x id)) (autoplay_handles h).
Proof.
  unfold autoplay_handles, clearInterval. cbn [intervals].
  induction (intervals h) as [| [x k] l IH]; [reflexivity |].
  cbn [filter fst snd].
  destruct (Nat.eqb x id) eqn:E, k; cbn [negb filter map fst snd];
    rewrite ?E; cbn [negb]; rewrite ?IH; reflexivity.
Qed.

(** [pauseAutoPlay] on a slider that holds its one auto-play interval. *)
Lemma pause_clears_the_one (h : Host) (s : t) (id : nat) :
  autoPlayInterval s = Some (S id) ->
  autoplay_handles h = [S id] ->
  autoPlayInterval (snd (pauseAutoPlay (h, s))) = None /\
  autoplay_handles (fst (pauseAutoPlay (h, s))) = [].
Proof.
  intros Ha Hh. unfold pauseAutoPlay, stopProgressIndicator. rewrite Ha.
  cbn [progressInterval set_autoplay].
  assert (Hc : autoplay_handles (clearInterval (S id) h) = []).
  { rewrite autoplay_handles_clear, Hh. cbn [filter].
    rewrite Nat.eqb_refl. reflexivity. }
  destruct (progressInterval s) as [[| p] |]; cbn [fst snd autoPlayInterval
                                                     set_autoplay];
    try (split; [reflexivity | exact Hc]).
  split; [reflexivity |].
  rewrite autoplay_handles_clear, Hc. reflexivity.
Qed.

(** [startAutoPlay] sets one more auto-play interval and holds it. *)
Lemma start_sets_one (h : Host) (s : t) :
  (1 < totalSlides s)%Z ->
  autoPlayInterval (snd (startAutoPlay (h, s))) = Some (S (handles h)) /\
  autoplay_handles (fst (startAutoPlay (h, s)))
    = autoplay_handles h ++ [S (handles h)] /\
  (progressInterval (snd (startAutoPlay (h, s))) = progressInterval s \/
   progressInterval (snd (startAutoPlay (h, s)))
     = Some (S (S (handles h)))).
Proof.
  intros Hn. unfold startAutoPlay.
  assert (Hle : (totalSlides s <=? 1)%Z = false) by (apply Z.leb_gt; lia).
  rewrite Hle.
  pose proof (autoplay_handles_set AutoPlayTick h) as H1.
  destruct (setInterval AutoPlayTick h) as [h1 id1] eqn:E1.
  assert (Hid1 : id1 = S (handles h)).
  { unfold setInterval in E1. injection E1 as _ <-. reflexivity. }
  assert (Hh1 : handles h1 = S (handles h)).
  { unfold setInterval in E1. injection E1 as <- _. reflexivity. }
  cbn [fst] in H1. subst id1.
  unfold startProgressIndicator. cbn [hasProgressElement set_autoplay].
  destruct (hasProgressElement s).
  - pose proof (autoplay_handles_set ProgressTick h1) as H2.
    destruct (setInterval ProgressTick h1) as [h2 id2] eqn:E2.
    assert (Hid2 : id2 = S (handles h1)).
    { unfold setInterval in E2. injection E2 as _ <-. reflexivity. }
    cbn [fst] in H2. rewrite app_nil_r in H2.
    cbn [fst snd autoPlayInterval progressInterval set_autoplay].
    split; [reflexivity |]. split; [congruence |].
    right. rewrite Hid2, Hh1. reflexivity.
  - cbn [fst snd autoPlayInterval progressInterval set_autoplay].
    split; [reflexivity |]. split; [exact H1 |]. left. reflexivity.
Qed.

Lemma restart_keeps_one (w : World) :
  playing_inv w -> playing_inv (restartAutoPlay w).
Proof.
  destruct w as [h s]. intros (Hp & Hn & id & Ha & Hh). cbn [fst snd] in *.
  unfold restartAutoPlay. cbn [snd]. rewrite Hp.
  destruct (pause_clears_the_one h s id Ha Hh) as (Pa & Ph).
  destruct (pauseAutoPlay_show (h, s)) as (_ & _ & _ & P4 & P5 & _).
  cbn [snd] in P4, P5.
  destruct (pauseAutoPlay (h, s)) as [h1 s1]. cbn [fst snd] in *.
  unfold resumeAutoPlay. cbn [snd]. rewrite P5, Hp, P4.
  assert (Hgt : (totalSlides s >? 1)%Z = true)
    by (apply Z.gtb_lt; lia).
  rewrite Hgt. cbn [andb].
  destruct (start_sets_one h1 s1 ltac:(lia)) as (Sa & Sh & _).
  destruct (startAutoPlay_show (h1, s1)) as (_ & _ & _ & Q4 & Q5 & _).
  cbn [snd] in Q4, Q5.
  unfold playing_inv.
  split; [congruence |]. split; [rewrite Q4, P4; exact Hn |].
  exists (handles h1). split; [exact Sa |]. rewrite Sh, Ph. reflexivity.
Qed.

(** X25. Navigation does not multiply the intervals: on a slider whose
    auto-play runs on the one interval it holds, [goToSlide] restarts
    auto-play and leaves it again on exactly one interval, the one the
    slider holds. *)
Theorem navigation_keeps_one_interval (h : Host) (s : t) (i : Z) :
  totalSlides s = Z.of_nat (List.length (slides s)) ->
  (0 <= i < totalSlides s)%Z ->
  playing_inv (h, s) ->
  exists w' : World, goToSlide i (h, s) = Some w' /\ playing_inv w'.
Proof.
  intros Htot Hi Hinv.
  destruct (goToSlide_in_range h s i Htot Hi) as (l & Hgo & _).
  eexists. split; [exact Hgo |].
  apply restart_keeps_one. exact Hinv.
Qed.

Lemma autoplay_handle_fires (id : nat) (w : World) :
  In id (autoplay_handles (fst w)) ->
  interval_fires id w = goToNextSlide w.
Proof.
  intros Hin. unfold interval_fires.
  assert (Hex : existsb
                  (fun e =>
                     Nat.eqb (fst e) id
                     && match snd e with
                        | AutoPlayTick => true
                        | ProgressTick => false
                        end) (intervals (fst w)) = true).
  { apply existsb_exists. unfold autoplay_handles in Hin.
    apply in_map_iff in Hin. destruct Hin as ([x k] & Hx & Hin).
    apply filter_In in Hin. destruct Hin as [Hin Hk].
    cbn [fst snd] in *. subst x.
    exists (id, k). split; [exact Hin |]. cbn [fst snd].
    rewrite Nat.eqb_refl. exact Hk. }
  rewrite Hex. reflexivity.
Qed.

(** X26. [resumeAutoPlay] does not check whether auto-play is running: on a
    slider that is playing it sets a second interval and forgets the first.
    [pauseAutoPlay] then clears only the second: the slider holds no
    interval, yet the first one is still set, and when it fires the slider
    goes to the next slide. *)
Theorem resume_while_playing_leaks (h : Host) (s : t) (id : nat) :
  slider_wf s ->
  isPlaying s = true ->
  (1 < totalSlides s)%Z ->
  autoPlayInterval s = Some (S id) ->
  autoplay_handles h = [S id] ->
  (S id <= handles h)%nat ->
  progressInterval s <> Some (S id) ->
  autoplay_handles (fst (resumeAutoPlay (h, s))) = [S id; S (handles h)] /\
  autoPlayInterval (snd (pauseAutoPlay (resumeAutoPlay (h, s)))) = None /\
  autoplay_handles (fst (pauseAutoPlay (resumeAutoPlay (h, s)))) = [S id] /\
  exists w3 : World,
    interval_fires (S id) (pauseAutoPlay (resumeAutoPlay (h, s))) = Some w3 /\
    currentSlide (snd w3) = ((currentSlide s + 1) mod totalSlides s)%Z.
Proof.
  intros Hwf Hp Hn Ha Hh Hfresh Hprog.
  assert (Hres : resumeAutoPlay (h, s) = startAutoPlay (h, s)).
  { unfold resumeAutoPlay. cbn [snd]. rewrite Hp.
    assert (Hgt : (totalSlides s >? 1)%Z = true) by (apply Z.gtb_lt; lia).
    rewrite Hgt. reflexivity. }
  rewrite Hres.
  destruct (start_sets_one h s Hn) as (Sa & Sh & Sp).
  destruct (startAutoPlay_show (h, s)) as (Q1 & Q2 & Q3 & Q4 & Q5 & Q6).
  cbn [snd] in Q1, Q2, Q3, Q4, Q5, Q6.
  destruct (startAutoPlay (h, s)) as [h1 s1]. cbn [fst snd] in *.
  rewrite Hh in Sh. cbn [app] in Sh.
  split; [exact Sh |].
  assert (Hclear : autoplay_handles (clearInterval (S (handles h)) h1)
                   = [S id]).
  { rewrite autoplay_handles_clear, Sh. cbn [filter].
    assert (E1 : Nat.eqb (S id) (S (handles h)) = false)
      by (apply Nat.eqb_neq; lia).
    rewrite E1, Nat.eqb_refl. reflexivity. }
  assert (Hpause :
            autoPlayInterval (snd (pauseAutoPlay (h1, s1))) = None /\
            autoplay_handles (fst (pauseAutoPlay (h1, s1))) = [S id]).
  { unfold pauseAutoPlay, stopProgressIndicator. rewrite Sa.
    cbn [progressInterval set_autoplay].
    destruct (progressInterval s1) as [[| p] |] eqn:Ep;
      cbn [fst snd autoPlayInterval set_autoplay];
      try (split; [reflexivity | exact Hclear]).
    split; [reflexivity |].
    rewrite autoplay_handles_clear, Hclear. cbn [filter].
    assert (E2 : Nat.eqb (S id) (S p) = false).
    { apply Nat.eqb_neq. intros Heq.
      destruct Sp as [Sp | Sp].
      - apply Hprog. rewrite <- Sp, Heq. reflexivity.
      - injection Sp as Sp. lia. }
    rewrite E2. reflexivity. }
  destruct Hpause as (Pa & Ph).
  split; [exact Pa |]. split; [exact Ph |].
  destruct (pauseAutoPlay_show (h1, s1)) as (P1 & _ & P3 & P4 & _).
  cbn [snd] in P1, P3, P4.
  rewrite autoplay_handle_fires by (rewrite Ph; left; reflexivity).
  destruct (pauseAutoPlay (h1, s1)) as [h2 s2]. cbn [fst snd] in *.
  assert (Hwf2 : slider_wf s2).
  { destruct Hwf as [Ht Hc]. unfold slider_wf.
    rewrite P1, P3, P4, Q1, Q3, Q4. split; assumption. }
  destruct (goToNextSlide_current h2 s2 Hwf2) as (w3 & Hgo & Hcur).
  exists w3. split; [exact Hgo |].
  rewrite Hcur, P3, P4, Q3, Q4. reflexivity.
Qed.

End Slider.

Lemma slider_example_wf : slider_wf (snd slider_example).
Proof. unfold slider_wf. cbn. split; [reflexivity | lia]. Qed.

Lemma slider_example_playing :
  playing_inv (fst slider_example, snd slider_example).
Proof.
  unfold playing_inv. cbn. split; [reflexivity |]. split; [lia |].
  exists 0%nat. split; reflexivity.
Qed.

Lemma goToSlide_shows_witness :
  TestimonialsSlider.goToSlide 5 (fst slider_example, snd slider_example)
    = Some (fst slider_example, snd slider_example) /\
  exists w' : TestimonialsSlider.World,
    TestimonialsSlider.goToSlide 2 (fst slider_example, snd slider_example)
      = Some w' /\
    TestimonialsSlider.currentSlide (snd w') = 2%Z /\
    slider_wf (snd w') /\
    (forall k : nat,
       (k < List.length (TestimonialsSlider.slides (snd slider_example)))%nat ->
       nth_error (TestimonialsSlider.slides (snd w')) k
       = Some (classes_when
                 (TestimonialsSlider.totalSlides (snd slider_example)) 2
                 (Z.of_nat k))) /\
    (forall k : nat,
       (k < List.length (TestimonialsSlider.dots (snd slider_example)))%nat ->
       nth_error (TestimonialsSlider.dots (snd w')) k
       = Some (Z.of_nat k =? 2)%Z).
Proof.
  apply (goToSlide_shows (fst slider_example) (snd slider_example) 2 5).
  - reflexivity.
  - cbn. lia.
  - right. cbn. lia.
Defined.

Lemma next_then_previous_witness :
  exists w1 w2 : TestimonialsSlider.World,
    TestimonialsSlider.goToNextSlide (fst slider_example, snd slider_example)
      = Some w1 /\
    TestimonialsSlider.currentSlide (snd w1)
      = ((TestimonialsSlider.currentSlide (snd slider_example) + 1)
         mod TestimonialsSlider.totalSlides (snd slider_example))%Z /\
    slider_wf (snd w1) /\
    TestimonialsSlider.goToPreviousSlide w1 = Some w2 /\
    TestimonialsSlider.currentSlide (snd w2)
      = TestimonialsSlider.currentSlide (snd slider_example) /\
    slider_wf (snd w2) /\
    (forall k : nat,
       (k < List.length (TestimonialsSlider.slides (snd slider_example)))%nat ->
       nth_error (TestimonialsSlider.slides (snd w2)) k
       = Some (classes_when
                 (TestimonialsSlider.totalSlides (snd slider_example))
                 (TestimonialsSlider.currentSlide (snd slider_example))
                 (Z.of_nat k))).
Proof.
  apply (next_then_previous (fst slider_example) (snd slider_example)).
  exact slider_example_wf.
Defined.

Lemma navigation_keeps_one_interval_witness :
  exists w' : TestimonialsSlider.World,
    TestimonialsSlider.goToSlide 1 (fst slider_example, snd slider_example)
      = Some w' /\
    playing_inv w'.
Proof.
  apply (navigation_keeps_one_interval (fst slider_example)
           (snd slider_example) 1).
  - reflexivity.
  - cbn. lia.
  - exact slider_example_playing.
Defined.

Lemma resume_while_playing_leaks_witness :
  autoplay_handles
    (fst (TestimonialsSlider.resumeAutoPlay
            (fst slider_example, snd slider_example)))
    = [1%nat; S (TestimonialsSlider.handles (fst slider_example))] /\
  TestimonialsSlider.autoPlayInterval
    (snd (TestimonialsSlider.pauseAutoPlay
            (TestimonialsSlider.resumeAutoPlay
               (fst slider_example, snd slider_example)))) = None /\
  autoplay_handles
    (fst (TestimonialsSlider.pauseAutoPlay
            (TestimonialsSlider.resumeAutoPlay
               (fst slider_example, snd slider_example)))) = [1%nat] /\
  exists w3 : TestimonialsSlider.World,
    TestimonialsSlider.interval_fires 1
      (TestimonialsSlider.pauseAutoPlay
         (TestimonialsSlider.resumeAutoPlay
            (fst slider_example, snd slider_example))) = Some w3 /\
    TestimonialsSlider.currentSlide (snd w3)
      = ((TestimonialsSlider.currentSlide (snd slider_example) + 1)
         mod TestimonialsSlider.totalSlides (snd slider_example))%Z.
Proof.
  apply (resume_while_playing_leaks (fst slider_example)
           (snd slider_example) 0).
  - exact slider_example_wf.
  - reflexivity.
  - cbn. lia.
  - reflexivity.
  - reflexivity.
  - cbn. lia.
  - discriminate.
Defined.

(** ** The rate a throttle guarantees *)

Section ThrottleRate.
Variable limit : Z.

Lemma spaced_snoc (gap prev : Z) (ts : list Z) (t : Z) :
  spaced gap prev ts ->
  (last ts prev + gap <= t)%Z ->
  spaced gap prev (ts ++ [t]).
Proof.
  revert prev. induction ts as [| x ts IH]; intros prev Hs Ht.
  - cbn in *. split; [exact Ht | exact I].
  - destruct Hs as [Hx Hs]. cbn [app spaced]. split; [exact Hx |].
    apply IH; [exact Hs |].
    rewrite (last_cons_default ts x prev) in Ht. exact Ht.
Qed.

Lemma well_spaced_snoc (gap : Z) (ts : list Z) (t : Z) :
  well_spaced gap ts ->
  (ts <> [] -> last ts 0%Z + gap <= t)%Z ->
  well_spaced gap (ts ++ [t]).
Proof.
  destruct ts as [| x ts]; intros Hs Ht; [exact I |].
  cbn [app well_spaced]. apply spaced_snoc; [exact Hs |].
  specialize (Ht ltac:(discriminate)).
  rewrite (last_cons_default ts x 0%Z) in Ht. exact Ht.
Qed.

(** One call at time [t], not before [now]. *)
Lemma rate_step (now t : Z) (c : Throttle.closure) (log : list Z) :
  rate_inv limit now c log ->
  (now <= t)%Z ->
  exists (c' : Throttle.closure) (log' : list Z),
    Throttle.executedFunction record_time limit t t
      (Throttle.run_timers t c) log = Some (c', log') /\
    rate_inv limit t c' log' /\
    (log' = log \/ log' = log ++ [t]) /\
    (log = [] -> log' = [t]).
Proof.
  intros (Hsp & Hnil & Hcons) Ht.
  assert (Hrun : forall c0 : Throttle.closure,
             c0 = Throttle.create ->
             (log <> [] -> (last log 0 + limit <= t)%Z) ->
             exists c' log',
               Throttle.executedFunction record_time limit t t c0 log
                 = Some (c', log') /\
               rate_inv limit t c' log' /\
               (log' = log \/ log' = log ++ [t]) /\
               (log = [] -> log' = [t])).
  { intros c0 -> Hgap.
    exists (armed (t + limit)%Z), (log ++ [t]).
    split; [reflexivity |]. split; [| split].
    - split; [apply well_spaced_snoc; assumption |].
      split; [intros E; destruct log; discriminate |].
      intros _. left. rewrite last_last. reflexivity.
    - right. reflexivity.
    - intros ->. reflexivity. }
  destruct log as [| x log0] eqn:Elog.
  - rewrite (Hnil eq_refl). apply Hrun; [reflexivity |].
    intros E. contradiction.
  - destruct (Hcons ltac:(discriminate)) as [Harm | [Hidle Hover]].
    + rewrite Harm.
      destruct (Z_le_gt_dec (last (x :: log0) 0 + limit) t)%Z
        as [Hdue | Hnot].
      * rewrite run_timers_armed_due by exact Hdue.
        apply Hrun; [reflexivity |]. intros _. exact Hdue.
      * rewrite run_timers_armed_before by lia.
        exists (armed (last (x :: log0) 0 + limit)%Z), (x :: log0).
        split; [reflexivity |]. split; [| split].
        -- split; [exact Hsp |]. split; [discriminate |].
           intros _. left. reflexivity.
        -- left. reflexivity.
        -- discriminate.
    + rewrite Hidle. apply Hrun; [reflexivity |]. intros _. lia.
Qed.

Lemma rate_run (times : list Z) :
  forall (now : Z) (c : Throttle.closure) (log : list Z),
    rate_inv limit now c log ->
    spaced 0 now times ->
    exists (c' : Throttle.closure) (extra : list Z),
      throttled_calls record_time limit (map (fun t => (t, t)) times) c log
        = Some (c', log ++ extra) /\
      well_spaced limit (log ++ extra) /\
      incl extra times.
Proof.
  induction times as [| t times IH]; intros now c log Hinv Hs.
  - exists c, []. rewrite app_nil_r.
    split; [reflexivity |]. split; [apply Hinv | intros x []].
  - destruct Hs as [Ht Hs]. cbn [map throttled_calls].
    destruct (rate_step now t c log Hinv ltac:(lia))
      as (c1 & log1 & -> & Hinv1 & Hlog1 & _).
    destruct (IH t c1 log1 Hinv1 Hs) as (c' & extra & Hrun & Hsp & Hincl).
    destruct Hlog1 as [-> | ->].
    + exists c', extra. split; [exact Hrun |]. split; [exact Hsp |].
      intros x Hx. right. apply Hincl. exact Hx.
    + exists c', (t :: extra). rewrite <- app_assoc in Hrun, Hsp.
      split; [exact Hrun |]. split; [exact Hsp |].
      intros x [<- | Hx]; [left; reflexivity | right; apply Hincl; exact Hx].
Qed.

(** X27. Whatever calls arrive, in order of time, a throttled function
    runs for the first of them and, after each run, not again before
    [limit] ms have gone by: the times of its runs are times of calls, at
    least [limit] apart. *)
Theorem throttle_spacing (t0 : Z) (times : list Z) :
  spaced 0 t0 times ->
  exists (c : Throttle.closure) (runs : list Z),
    throttled_calls record_time limit
      (map (fun t => (t, t)) (t0 :: times)) Throttle.create []
      = Some (c, t0 :: runs) /\
    well_spaced limit (t0 :: runs) /\
    incl runs times.
Proof.
  intros Hs. cbn [map throttled_calls].
  destruct (rate_step t0 t0 Throttle.create []) as (c1 & log1 & -> & Hinv1
                                                    & _ & Hfirst).
  - split; [exact I |]. split; [reflexivity |]. intros E. contradiction.
  - lia.
  - rewrite (Hfirst eq_refl) in *.
    destruct (rate_run times t0 c1 [t0] Hinv1 Hs)
      as (c' & extra & Hrun & Hsp & Hincl).
    exists c', extra. split; [exact Hrun |]. split; [exact Hsp | exact Hincl].
Qed.

End ThrottleRate.

Lemma throttle_spacing_witness :
  exists (c : Throttle.closure) (runs : list Z),
    throttled_calls record_time 16
      (map (fun t => (t, t)) (0 :: [5; 10; 16; 20; 40])%Z) Throttle.create []
      = Some (c, 0%Z :: runs) /\
    well_spaced 16 (0%Z :: runs) /\
    incl runs [5; 10; 16; 20; 40]%Z.
Proof.
  apply (throttle_spacing 16 0 [5; 10; 16; 20; 40]%Z).
  cbn. lia.
Defined.
